(** * Technology Selector (complete_app.py): model and verified properties

    The application is one Streamlit script that is re-executed from top to
    bottom on every user interaction.  Its state lives in
    [st.session_state]; the dictionaries it stores are Python objects, so the
    nested selection dictionaries are modelled in an explicit object store
    in which aliasing is visible. *)

From Stdlib Require Import String Ascii QArith Qabs Qpower Lqa SpecFloat.
From stdpp Require Import gmap list fin_maps.

(** ** Python strings and the library functions the script calls *)

Module Py.

#[local] Open Scope N_scope.

(** A [str] is a sequence of Unicode code points. *)
Definition pystr := list N.

(** Literals of the script that are plain ASCII. *)
Definition lit (s : string) : pystr := N_of_ascii <$> list_ascii_of_string s.

(** [str.isspace] on one character, the table behind [str.strip()]. *)
Definition isspace (c : N) : bool :=
  ((9 <=? c) && (c <=? 13)) || ((28 <=? c) && (c <=? 32))
  || (c =? 133) || (c =? 160) || (c =? 5760)
  || ((8192 <=? c) && (c <=? 8202))
  || (c =? 8232) || (c =? 8233) || (c =? 8239) || (c =? 8287) || (c =? 12288).

Fixpoint drop_while (p : N → bool) (s : pystr) : pystr :=
  match s with
  | [] => []
  | c :: s' => if p c then drop_while p s' else s
  end.

Definition lstrip (s : pystr) : pystr := drop_while isspace s.
Definition rstrip (s : pystr) : pystr := reverse (drop_while isspace (reverse s)).

(** [s.strip()] *)
Definition strip (s : pystr) : pystr := rstrip (lstrip s).

(** Truth value of a string: the empty string is falsy. *)
Definition truthy (s : pystr) : bool :=
  match s with [] => false | _ => true end.

(** [sep.join(l)] *)
Fixpoint join (sep : pystr) (l : list pystr) : pystr :=
  match l with
  | [] => []
  | [x] => x
  | x :: xs => x ++ sep ++ join sep xs
  end.

(** Decimal digits of a number, most significant first. *)
Fixpoint digits_aux (fuel : nat) (n : N) (acc : pystr) : pystr :=
  match fuel with
  | O => acc
  | S fuel' =>
      let acc' := (48 + n mod 10) :: acc in
      if n / 10 =? 0 then acc' else digits_aux fuel' (n / 10) acc'
  end.

Definition digits (n : N) : pystr := digits_aux (S (N.to_nat (N.log2 n))) n [].

(** ["%0wd" % n] *)
Definition zpad (w : nat) (n : N) : pystr :=
  let ds := digits n in replicate (w - length ds)%nat 48 ++ ds.

(** A naive [datetime] as returned by [datetime.now()]. *)
Record datetime := {
  year : N; month : N; day : N;
  hour : N; minute : N; second : N; microsecond : N
}.

(** The ranges the [datetime] type guarantees. *)
Definition valid_datetime (d : datetime) : Prop :=
  1 ≤ year d ≤ 9999 ∧ 1 ≤ month d ≤ 12 ∧ 1 ≤ day d ≤ 31 ∧
  hour d < 24 ∧ minute d < 60 ∧ second d < 60 ∧ microsecond d < 1000000.

(** [d.isoformat(timespec="seconds")] for a datetime without tzinfo:
    ["%04d-%02d-%02dT%02d:%02d:%02d"]. *)
Definition isoformat_seconds (d : datetime) : pystr :=
  zpad 4 (year d) ++ lit "-" ++ zpad 2 (month d) ++ lit "-" ++ zpad 2 (day d)
  ++ lit "T" ++ zpad 2 (hour d) ++ lit ":" ++ zpad 2 (minute d) ++ lit ":"
  ++ zpad 2 (second d).

End Py.

Export Py.

Definition TECHNOLOGIES : list pystr :=
  [lit "Tech A"; lit "Tech B"; lit "Tech C"; lit "Tech D"; lit "Tech E"].
Definition CRITERIA : list pystr :=
  [lit "Criteria 1"; lit "Criteria 2"; lit "Criteria 3"; lit "Criteria 4";
   lit "Criteria 5"].


(** ** Data model *)

(** The inner dictionaries [{criterion: bool}] are mutable objects that the
    script shares between the live grid and the stored records, so they live
    in an object store and are referred to by address.  An outer dictionary
    [{tech: inner}] is never updated after it is built (line 107 assigns into
    the inner dictionary only; lines 41 and 144 bind a new outer dictionary),
    so it is the finite map from technology to the address of its inner
    dictionary. *)
Abbreviation loc := positive.

(** One element of [st.session_state.evaluations]. *)
Record evaluation := {
  evaluator_name : pystr;
  timestamp : pystr;
  selections : gmap pystr loc;
  comments : pystr
}.

(** [st.session_state]: the object store, the four keys the script
    initialises (lines 34-44) and the values of the two keyed text widgets
    ([evaluator_input], [comments_area]), which the framework keeps between
    runs and only the user changes. *)
Record session_state := {
  objects : gmap loc (gmap pystr bool);
  evaluations : list evaluation;
  current_evaluator : option pystr;
  current_selections : gmap pystr loc;
  current_comment : pystr;
  evaluator_input : pystr;
  comments_area : pystr
}.

Definition with_objects (h : gmap loc (gmap pystr bool)) (s : session_state) :=
  {| objects := h; evaluations := evaluations s;
     current_evaluator := current_evaluator s;
     current_selections := current_selections s;
     current_comment := current_comment s;
     evaluator_input := evaluator_input s;
     comments_area := comments_area s |}.

(** A loop whose body may raise: [None] is an uncaught exception. *)
Fixpoint for_each {A S : Type} (body : S → A → option S) (l : list A) (s : S)
  : option S :=
  match l with
  | [] => Some s
  | x :: l' => s' ← body s x; for_each body l' s'
  end.

(** [enumerate(l)] *)
Definition enumerate {A : Type} (l : list A) : list (nat * A) :=
  zip (seq 0 (length l)) l.

(** *** Selection grid *)

(** A new object in the store. *)
Definition alloc (h : gmap loc (gmap pystr bool)) (d : gmap pystr bool)
  : loc * gmap loc (gmap pystr bool) :=
  let l := fresh (dom h) in (l, <[l:=d]> h).

(** [{criterion: False for criterion in CRITERIA}] *)
Definition all_false : gmap pystr bool :=
  foldl (λ d criterion, <[criterion:=false]> d) ∅ CRITERIA.

(** [{tech: {criterion: False for criterion in CRITERIA} for tech in
    TECHNOLOGIES}] (lines 41 and 144-147): one new inner dictionary per
    technology. *)
Definition add_inner (gh : gmap pystr loc * gmap loc (gmap pystr bool))
    (tech : pystr) : gmap pystr loc * gmap loc (gmap pystr bool) :=
  let '(l, h') := alloc gh.2 all_false in (<[tech:=l]> gh.1, h').

Definition new_grid (h : gmap loc (gmap pystr bool))
  : gmap pystr loc * gmap loc (gmap pystr bool) :=
  foldl add_inner (∅, h) TECHNOLOGIES.

(** [g[tech][criterion]], read through the store. *)
Definition get_cell (h : gmap loc (gmap pystr bool)) (g : gmap pystr loc)
    (tech criterion : pystr) : option bool :=
  l ← g !! tech; d ← h !! l; d !! criterion.

(** [st.session_state.current_selections[tech][criterion] = v] (line 107):
    an update in place of the inner dictionary. *)
Definition set_cell (s : session_state) (tech criterion : pystr) (v : bool)
  : option session_state :=
  l ← current_selections s !! tech;
  d ← objects s !! l;
  Some (with_objects (<[l:=<[criterion:=v]> d]> (objects s)) s).

(** Lines 105-107.  [edited_df] is the frame returned by [st.data_editor];
    it has the five rows and the criterion columns of the frame it was given,
    so [edited_df.loc[idx, criterion]] is a total lookup.  What the editor
    returns is decided by the framework and the user, not by the script: each
    run takes it as an input.  The frame given to the editor holds a boolean
    in every cell and a check box switches between the two, so the frame is
    taken to hold booleans; a frame with an empty cell is outside this
    model. *)
Definition sync_grid (s : session_state) (edited_df : nat → pystr → bool)
  : option session_state :=
  for_each (λ s it,
      for_each (λ s criterion, set_cell s it.2 criterion (edited_df it.1 criterion))
               CRITERIA s)
    (enumerate TECHNOLOGIES) s.

(** Lines 34-44 on the first run of a session. *)
Definition initial_state : session_state :=
  let '(g, h) := new_grid ∅ in
  {| objects := h; evaluations := []; current_evaluator := None;
     current_selections := g; current_comment := [];
     evaluator_input := []; comments_area := [] |}.

(** *** Submission (lines 128-151) *)

Inductive feedback :=
| st_error (msg : pystr)
| st_success (msg : pystr).

Definition submit_button (s : session_state) (name_text comment_text : pystr)
    (now : datetime) : session_state * feedback :=
  if negb (truthy (strip name_text)) then
    (s, st_error (lit "Please enter your name before submitting."))
  else
    let evaluation :=
      {| evaluator_name := strip name_text;
         timestamp := isoformat_seconds now;
         (* [.copy()]: a new outer dictionary holding the same inner objects *)
         selections := current_selections s;
         comments := strip comment_text |} in
    let '(g, h) := new_grid (objects s) in
    ({| objects := h;
        evaluations := evaluations s ++ [evaluation];
        current_evaluator := current_evaluator s;
        current_selections := g;
        current_comment := [];
        evaluator_input := evaluator_input s;
        comments_area := comments_area s |},
     st_success ([9989%N] ++ lit " Thank you, " ++ name_text
                 ++ lit "! Your evaluation has been submitted.")).

(** *** Results (lines 160-284) *)

(** [eval["selections"][tech][criterion]] *)
Definition selected (h : gmap loc (gmap pystr bool)) (e : evaluation)
    (tech criterion : pystr) : option bool :=
  get_cell h (selections e) tech criterion.

(** [sum(1 for eval in evaluations if eval["selections"][tech][criterion])] *)
Fixpoint count_selected (h : gmap loc (gmap pystr bool)) (evals : list evaluation)
    (tech criterion : pystr) : option nat :=
  match evals with
  | [] => Some O
  | e :: evals' =>
      b ← selected h e tech criterion;
      n ← count_selected h evals' tech criterion;
      Some (if b : bool then S n else n)
  end.

(** The exact value of [(count / n) * 100] (line 172), as a rational.
    Division by zero raises.  The number the script computes is the binary64
    result [percentage_binary64] below, which is within [2 ^ -45] of this
    value without always being equal to it. *)
Definition percentage (count n : nat) : option Q :=
  match n with
  | O => None
  | S _ => Some ((inject_Z (Z.of_nat count) / inject_Z (Z.of_nat n)) * 100)%Q
  end.

(** [tech_scores[tech].append(p)] *)
Definition append_score (m : gmap pystr (list Q)) (tech : pystr) (p : Q)
  : option (gmap pystr (list Q)) :=
  l ← m !! tech; Some (<[tech:=l ++ [p]]> m).

Definition scores_loop (techs crits : list pystr)
    (h : gmap loc (gmap pystr bool)) (evals : list evaluation)
  : option (gmap pystr (list Q)) :=
  for_each (λ m criterion,
      for_each (λ m tech,
          count ← count_selected h evals tech criterion;
          p ← percentage count (length evals);
          append_score m tech p)
        techs m)
    crits (foldl (λ m tech, <[tech:=[]]> m) ∅ techs).

(** Lines 162-173. *)
Definition tech_scores (s : session_state) : option (gmap pystr (list Q)) :=
  scores_loop TECHNOLOGIES CRITERIA (objects s) (evaluations s).

(** A row dictionary: insertion-ordered, assignment to a present key keeps
    its place. *)
Abbreviation row := (list (pystr * pystr)).

Fixpoint dict_set (d : row) (k v : pystr) : row :=
  match d with
  | [] => [(k, v)]
  | (k', v') :: d' =>
      if decide (k = k') then (k, v) :: d' else (k', v') :: dict_set d' k v
  end.

Definition dict_get (d : row) (k : pystr) : option pystr :=
  snd <$> List.find (λ kv, bool_decide (kv.1 = k)) d.

Definition dict_literal (kvs : list (pystr * pystr)) : row :=
  foldl (λ d kv, dict_set d kv.1 kv.2) [] kvs.

(** [any(eval["selections"][tech].values())] *)
Definition any_selected (h : gmap loc (gmap pystr bool)) (e : evaluation)
    (tech : pystr) : option bool :=
  l ← selections e !! tech; d ← h !! l;
  Some (existsb id (snd <$> map_to_list d)).

(** A list comprehension with a condition that may raise. *)
Fixpoint filter_opt {A : Type} (p : A → option bool) (l : list A)
  : option (list A) :=
  match l with
  | [] => Some []
  | x :: l' =>
      b ← p x; r ← filter_opt p l';
      Some (if b : bool then x :: r else r)
  end.

(** The body of the loop of lines 228-240. *)
Definition summary_row (h : gmap loc (gmap pystr bool)) (e : evaluation)
  : option row :=
  let row0 := dict_literal
    [(lit "Evaluator", evaluator_name e);
     (lit "Timestamp", timestamp e);
     (lit "Comments",
      if truthy (comments e) then comments e else lit "(no comments)")] in
  selected_techs ← filter_opt (any_selected h e) TECHNOLOGIES;
  Some (dict_set row0 (lit "Selected Technologies")
          (match selected_techs with
           | [] => lit "(none selected)"
           | _ => join (lit ", ") selected_techs
           end)).

(** Lines 227-240. *)
Definition results_for_display (s : session_state) : option (list row) :=
  for_each (λ rows e, r ← summary_row (objects s) e; Some (rows ++ [r]))
           (evaluations s) [].

(** The check mark of line 259. *)
Definition check_mark : pystr := [10003%N].

(** The body of the inner loop of lines 251-260. *)
Definition csv_row (h : gmap loc (gmap pystr bool)) (e : evaluation)
    (tech : pystr) : option row :=
  for_each (λ r criterion,
      b ← selected h e tech criterion;
      Some (dict_set r criterion (if b : bool then check_mark else [])))
    CRITERIA
    (dict_literal
       [(lit "Evaluator", evaluator_name e);
        (lit "Timestamp", timestamp e);
        (lit "Technology", tech);
        (lit "Comments", comments e)]).

(** Lines 249-260. *)
Definition csv_rows (s : session_state) : option (list row) :=
  for_each (λ rows e,
      for_each (λ rows tech, r ← csv_row (objects s) e tech; Some (rows ++ [r]))
               TECHNOLOGIES rows)
    (evaluations s) [].

(** [pd.DataFrame(records)] for a list of dictionaries: the columns are the
    keys in order of first appearance, a key a row lacks gives a missing
    cell. *)
Record DataFrame := {
  columns : list pystr;
  data : list (list (option pystr))
}.

Definition add_column (cols : list pystr) (k : pystr) : list pystr :=
  if bool_decide (k ∈ cols) then cols else cols ++ [k].

Definition frame_of_records (records : list row) : DataFrame :=
  let cols := foldl (λ cols r, foldl add_column cols (fst <$> r)) [] records in
  {| columns := cols;
     data := (λ r, dict_get r <$> cols) <$> records |}.

(** What the results section puts on the page.  The two CSV downloads are
    [csv_df.to_csv(index=False)] and [results_df.to_csv(index=False)]: the
    frames below, serialised. *)
Inductive results :=
| st_info (msg : pystr)
| st_results (scores : gmap pystr (list Q)) (metrics : nat * nat * nat)
             (results_df csv_df : DataFrame).

Definition results_section (s : session_state) : option results :=
  match evaluations s with
  | [] => Some (st_info (lit
      "No evaluations submitted yet. Start evaluating above to see results!"))
  | _ :: _ =>
      scores ← tech_scores s;
      rfd ← results_for_display s;
      rows ← csv_rows s;
      Some (st_results scores
              (length (evaluations s), length CRITERIA, length TECHNOLOGIES)
              (frame_of_records rfd) (frame_of_records rows))
  end.

(** *** One run of the script *)

(** What the user did to trigger the run. *)
Inductive action :=
| TypeName (text : pystr)
| TypeComment (text : pystr)
| EditGrid
| ClickSubmit.

Record interaction := {
  act : action;
  edited_df : nat → pystr → bool;
  now : datetime
}.

(** The framework stores the new value of a keyed widget before the run. *)
Definition widget_update (s : session_state) (a : action) : session_state :=
  match a with
  | TypeName text =>
      {| objects := objects s; evaluations := evaluations s;
         current_evaluator := current_evaluator s;
         current_selections := current_selections s;
         current_comment := current_comment s;
         evaluator_input := text; comments_area := comments_area s |}
  | TypeComment text =>
      {| objects := objects s; evaluations := evaluations s;
         current_evaluator := current_evaluator s;
         current_selections := current_selections s;
         current_comment := current_comment s;
         evaluator_input := evaluator_input s; comments_area := text |}
  | EditGrid | ClickSubmit => s
  end.

Definition clicked (a : action) : bool :=
  match a with ClickSubmit => true | _ => false end.

Record page := {
  message : option feedback;
  shown : results
}.

Definition script_run (s : session_state) (i : interaction)
  : option (session_state * page) :=
  let s0 := widget_update s (act i) in
  s1 ← sync_grid s0 (edited_df i);
  let '(s2, fb) :=
    if clicked (act i) then
      let '(s2, fb) := submit_button s1 (evaluator_input s1) (comments_area s1) (now i)
      in (s2, Some fb)
    else (s1, None) in
  r ← results_section s2;
  Some (s2, {| message := fb; shown := r |}).

(** A session: the runs triggered by a sequence of interactions. *)
Fixpoint run_trace (s : session_state) (tr : list interaction)
  : option session_state :=
  match tr with
  | [] => Some s
  | i :: tr' => sp ← script_run s i; run_trace sp.1 tr'
  end.


(** ** Well-formed states *)

(** The object at [l] is an inner dictionary with exactly the criteria as
    keys. *)
Definition full_dict (h : gmap loc (gmap pystr bool)) (l : loc) : Prop :=
  dom <$> h !! l = Some (list_to_set CRITERIA : gset pystr).

(** A selection matrix with an entry for every (technology, criterion). *)
Definition grid_ok (h : gmap loc (gmap pystr bool)) (g : gmap pystr loc) : Prop :=
  dom g = (list_to_set TECHNOLOGIES : gset pystr)
  ∧ map_Forall (λ _ l, full_dict h l) g.

Definition records_ok (h : gmap loc (gmap pystr bool)) (evals : list evaluation)
  : Prop :=
  Forall (λ e, grid_ok h (selections e)) evals.

(** No stored record refers to an inner dictionary of the live grid. *)
Definition separated (g : gmap pystr loc) (evals : list evaluation) : Prop :=
  Forall (λ e, map_Forall (λ _ l, map_Forall (λ _ l', l ≠ l') g) (selections e))
         evals.

Definition wf (s : session_state) : Prop :=
  grid_ok (objects s) (current_selections s)
  ∧ records_ok (objects s) (evaluations s)
  ∧ separated (current_selections s) (evaluations s).

#[global] Instance wf_dec s : Decision (wf s).
Proof. unfold wf, records_ok, separated, grid_ok, full_dict. apply _. Defined.

(** The contents of a selection matrix, read through the store. *)
Definition snapshot (h : gmap loc (gmap pystr bool)) (g : gmap pystr loc)
  : gmap pystr (option (gmap pystr bool)) :=
  (λ l, h !! l) <$> g.

(** A stored record as a reader sees it. *)
Definition record_view (h : gmap loc (gmap pystr bool)) (e : evaluation)
  : pystr * pystr * gmap pystr (option (gmap pystr bool)) * pystr :=
  (evaluator_name e, timestamp e, snapshot h (selections e), comments e).

Definition store_view (s : session_state) :=
  record_view (objects s) <$> evaluations s.

(** ** Notions used to state the properties *)

Implicit Types (h : gmap loc (gmap pystr bool)) (g : gmap pystr loc).
Implicit Types (s : session_state) (e : evaluation) (l : loc).
Implicit Types (tech criterion : pystr).

(** [s'] is [s] after assignments into inner dictionaries of the live grid
    that add no key: nothing but the store differs, objects the grid does
    not refer to are untouched, and every object keeps its keys. *)
Definition grid_write s (s' : session_state) : Prop :=
  s' = with_objects (objects s') s
  ∧ (∀ l, map_Forall (λ _ l', l ≠ l') (current_selections s) →
          objects s' !! l = objects s !! l)
  ∧ (∀ l, dom <$> objects s' !! l = dom <$> objects s !! l).

(** The number of records that mark (technology, criterion). *)
Definition marks h (evals : list evaluation) tech criterion : nat :=
  length (filter (λ e, selected h e tech criterion = Some true) evals).

(** The score of (technology, criterion) is computed and is [pct tech
    criterion]. *)
Definition scored h (evals : list evaluation) (pct : pystr → pystr → Q)
    tech criterion : Prop :=
  ∃ k, count_selected h evals tech criterion = Some k
       ∧ percentage k (length evals) = Some (pct tech criterion).

(** The exact score of (technology, criterion). *)
Definition pct_of h (evals : list evaluation) tech criterion : Q :=
  (inject_Z (Z.of_nat (marks h evals tech criterion))
   / inject_Z (Z.of_nat (length evals)) * 100)%Q.

(** Whether a record marks any criterion of a technology. *)
Definition has_mark h e tech : Prop :=
  Exists (λ criterion, selected h e tech criterion = Some true) CRITERIA.

#[global] Instance has_mark_dec h e tech : Decision (has_mark h e tech).
Proof. unfold has_mark. apply _. Defined.

(** The technologies with at least one mark in a record, in the fixed order. *)
Definition marked_techs h e : list pystr := filter (has_mark h e) TECHNOLOGIES.

(** The summary row of a record, written out. *)
Definition summary_of h e : row :=
  [(lit "Evaluator", evaluator_name e);
   (lit "Timestamp", timestamp e);
   (lit "Comments",
    if decide (comments e = []) then lit "(no comments)" else comments e);
   (lit "Selected Technologies",
    match marked_techs h e with
    | [] => lit "(none selected)"
    | _ => join (lit ", ") (marked_techs h e)
    end)].

(** The cell of a criterion column in the detailed export. *)
Definition mark_cell h e tech criterion : pystr :=
  if bool_decide (selected h e tech criterion = Some true) then check_mark else [].

(** The detailed row of (record, technology), written out. *)
Definition detail_of h e tech : row :=
  [(lit "Evaluator", evaluator_name e);
   (lit "Timestamp", timestamp e);
   (lit "Technology", tech);
   (lit "Comments", comments e)]
  ++ ((λ criterion, (criterion, mark_cell h e tech criterion)) <$> CRITERIA).

(** The value of the name widget after an interaction. *)
Definition name_after (name : pystr) (a : action) : pystr :=
  match a with TypeName text => text | _ => name end.

(** The value of the comment widget after an interaction. *)
Definition comment_after (comment : pystr) (a : action) : pystr :=
  match a with TypeComment text => text | _ => comment end.

(** Whether an interaction is an accepted submission. *)
Definition accepted (name : pystr) (a : action) : bool :=
  clicked a && truthy (strip (name_after name a)).

(** The names under which the submissions of a session are accepted, in
    order, given the value the name widget starts with. *)
Fixpoint submitted_names (name : pystr) (tr : list interaction) : list pystr :=
  match tr with
  | [] => []
  | i :: tr' =>
      (if accepted name (act i) then [strip (name_after name (act i))] else [])
      ++ submitted_names (name_after name (act i)) tr'
  end.

(** ** A sample session *)

Definition example_time : datetime :=
  {| year := 2026; month := 11; day := 4; hour := 12; minute := 0; second := 7;
     microsecond := 123456 |}%N.

(** The editor frame with the single mark (Tech A, Criteria 1). *)
Definition example_frame : nat → pystr → bool :=
  λ idx criterion, bool_decide (idx = 0 ∧ criterion = lit "Criteria 1").

(** The editor frame with the single mark (Tech B, Criteria 2). *)
Definition other_frame : nat → pystr → bool :=
  λ idx criterion, bool_decide (idx = 1 ∧ criterion = lit "Criteria 2").

Definition interact (a : action) (df : nat → pystr → bool) : interaction :=
  {| act := a; edited_df := df; now := example_time |}.

(** Alice types her name and a comment, marks one cell and submits. *)
Definition alice_session : list interaction :=
  [interact (TypeName (lit " Alice ")) (λ _ _, false);
   interact EditGrid example_frame;
   interact (TypeComment (lit "good fit")) example_frame;
   interact ClickSubmit example_frame].

Definition after_alice : session_state :=
  default initial_state (run_trace initial_state alice_session).

Definition alice_record : evaluation :=
  {| evaluator_name := lit "Alice";
     timestamp := lit "2026-11-04T12:00:07";
     selections := current_selections initial_state;
     comments := lit "good fit" |}.

(** Bob marks every cell, types a blank comment and submits. *)
Definition bob_session : list interaction :=
  [interact (TypeName (lit "Bob")) (λ _ _, true);
   interact (TypeComment (lit "   ")) (λ _ _, true);
   interact ClickSubmit (λ _ _, true)].

Definition after_bob : session_state :=
  default initial_state (run_trace initial_state bob_session).

(** Later interactions: another mark, a second submission, more edits. *)
Definition later_session : list interaction :=
  [interact EditGrid other_frame;
   interact ClickSubmit other_frame;
   interact EditGrid (λ _ _, true)].

(** ** The rest of the script *)

(** *** The editor table (lines 76-83) *)

(** A value of a row of [table_data]: the technology label or a check box. *)
Inductive cell :=
| Text (t : pystr)
| Flag (b : bool).

(** [row[k] = v] on an insertion-ordered dictionary with any values. *)
Fixpoint setitem {V : Type} (d : list (pystr * V)) (k : pystr) (v : V)
  : list (pystr * V) :=
  match d with
  | [] => [(k, v)]
  | (k', v') :: d' =>
      if decide (k = k') then (k, v) :: d' else (k', v') :: setitem d' k v
  end.

(** [d.get(k)] *)
Definition getitem {V : Type} (d : list (pystr * V)) (k : pystr) : option V :=
  snd <$> List.find (λ kv, bool_decide (kv.1 = k)) d.

(** Lines 76-81: one row per technology, read from the live grid. *)
Definition table_data (s : session_state) : option (list (list (pystr * cell))) :=
  for_each (λ rows tech,
      r ← for_each (λ r criterion,
              b ← get_cell (objects s) (current_selections s) tech criterion;
              Some (setitem r criterion (Flag b)))
            CRITERIA [(lit "Technology", Text tech)];
      Some (rows ++ [r]))
    TECHNOLOGIES [].

(** [df.loc[idx, criterion]] on the frame of these rows. *)
Definition table_loc (rows : list (list (pystr * cell))) (idx : nat)
    (criterion : pystr) : option cell :=
  r ← rows !! idx; getitem r criterion.

(** The frame the editor returns when the user changes nothing: the frame
    it was given. *)
Definition unedited (rows : list (list (pystr * cell))) : nat → pystr → bool :=
  λ idx criterion,
    match table_loc rows idx criterion with
    | Some (Flag b) => b
    | _ => false
    end.

(** *** The chart (lines 178-196) *)

(** Lines 180-186. *)
Definition colors : list (pystr * pystr) :=
  [(lit "Tech A", lit "#1f86b8");
   (lit "Tech B", lit "#e67e22");
   (lit "Tech C", lit "#27ae60");
   (lit "Tech D", lit "#8e44ad");
   (lit "Tech E", lit "#e74c3c")].

(** One [go.Scatterpolar] series. *)
Record trace := {
  trace_r : list Q;
  trace_theta : list pystr;
  trace_name : pystr;
  trace_color : pystr
}.

(** Lines 188-196: [colors.get(tech, "#999")] falls back to grey. *)
Definition radar_traces (scores : gmap pystr (list Q)) : option (list trace) :=
  for_each (λ traces tech,
      r ← scores !! tech;
      Some (traces ++ [{| trace_r := r; trace_theta := CRITERIA;
                          trace_name := tech;
                          trace_color := default (lit "#999") (getitem colors tech) |}]))
    TECHNOLOGIES [].

(** *** The download names (lines 268 and 278) *)

(** [d.strftime('%Y-%m-%d_%H-%M-%S')].  [%Y] is taken with four digits,
    which is what every platform prints from the year 1000 on. *)
Definition strftime_file (d : datetime) : pystr :=
  zpad 4 (year d) ++ lit "-" ++ zpad 2 (month d) ++ lit "-" ++ zpad 2 (day d)
  ++ lit "_" ++ zpad 2 (hour d) ++ lit "-" ++ zpad 2 (minute d) ++ lit "-"
  ++ zpad 2 (second d).

Definition detailed_file_name (d : datetime) : pystr :=
  lit "technology_evaluation_" ++ strftime_file d ++ lit ".csv".

Definition summary_file_name (d : datetime) : pystr :=
  lit "technology_evaluation_summary_" ++ strftime_file d ++ lit ".csv".

(** Two clock readings in the same second. *)
Definition same_second (d1 d2 : datetime) : Prop :=
  year d1 = year d2 ∧ month d1 = month d2 ∧ day d1 = day d2
  ∧ hour d1 = hour d2 ∧ minute d1 = minute d2 ∧ second d1 = second d2.

(** The number a string of decimal digits denotes. *)
Definition digits_value (t : pystr) : N :=
  foldl (λ a c, 10 * a + (c - 48))%N 0%N t.

(** *** Notions for the further properties *)

(** Different technologies of a grid have different inner dictionaries. *)
Definition grid_distinct (g : gmap pystr loc) : Prop :=
  map_Forall (λ t1 l1, map_Forall (λ t2 l2, l1 = l2 → t1 = t2) g) g.

#[global] Instance grid_distinct_dec g : Decision (grid_distinct g).
Proof. unfold grid_distinct. apply _. Defined.

(** A stored record as the submission makes it: a name that is not empty,
    name and comment without surrounding whitespace. *)
Definition trimmed (e : evaluation) : Prop :=
  evaluator_name e ≠ []
  ∧ strip (evaluator_name e) = evaluator_name e
  ∧ strip (comments e) = comments e.

(** The number of accepted submissions of a session. *)
Definition accepted_count (name : pystr) (tr : list interaction) : nat :=
  length (submitted_names name tr).

(** The rows of the detailed export that carry a check mark for
    (technology, criterion). *)
Definition checked_rows (rows : list row) (tech criterion : pystr) : list row :=
  filter (λ r, dict_get r (lit "Technology") = Some tech
               ∧ dict_get r criterion = Some check_mark) rows.

(** Two interactions on a grid that holds marks, for the examples. *)
Definition two_records : session_state :=
  default initial_state (run_trace after_alice later_session).

(** ** Line 172 in binary floating point *)

(** A Python [float] is an IEEE 754 binary64 number: 53 bits of precision
    and exponents below 1024.  Its operations are those of the IEEE
    specification, rounding to nearest with ties to even. *)
Definition prec : Z := 53.
Definition emax : Z := 1024.

Definition pyfloat := spec_float.

(** [float(n)] for an [int]. *)
Definition float_of_int (n : nat) : pyfloat :=
  binary_normalize prec emax (Z.of_nat n) 0 false.

(** [a / b] on two [int]s.  Operands below [2 ** 53] convert exactly and
    the result is the quotient of the two floats; that is the range modelled
    here.  Division by zero raises. *)
Definition true_divide (a b : nat) : option pyfloat :=
  match b with
  | O => None
  | S _ => Some (SFdiv prec emax (float_of_int a) (float_of_int b))
  end.

(** [(count / n) * 100] as line 172 computes it. *)
Definition percentage_binary64 (count n : nat) : option pyfloat :=
  q ← true_divide count n; Some (SFmul prec emax q (float_of_int 100)).

Definition pow2 (z : Z) : Q := (2 ^ z)%Q.

(** The rational number a finite float stands for. *)
Definition float_value (x : pyfloat) : option Q :=
  match x with
  | S754_zero _ => Some 0%Q
  | S754_finite sign m z =>
      Some ((if sign then -1 else 1) * inject_Z (Zpos m) * pow2 z)%Q
  | _ => None
  end.

(** [tech_scores[tech].append(p)] *)
Definition append_value {A : Type} (m : gmap pystr (list A)) (tech : pystr) (p : A)
  : option (gmap pystr (list A)) :=
  ps ← m !! tech; Some (<[tech:=ps ++ [p]]> m).

(** Lines 162-173, with the percentage of line 172 computed by [pcf]. *)
Definition scores_loop_with {A : Type} (pcf : nat → nat → option A)
    (techs crits : list pystr)
    (h : gmap loc (gmap pystr bool)) (evals : list evaluation)
  : option (gmap pystr (list A)) :=
  for_each (λ m criterion,
      for_each (λ m tech,
          count ← count_selected h evals tech criterion;
          p ← pcf count (length evals);
          append_value m tech p)
        techs m)
    crits (foldl (λ m tech, <[tech:=[]]> m) ∅ techs).

(** Lines 162-173 as the script runs them, on floats. *)
Definition tech_scores_binary64 (s : session_state)
  : option (gmap pystr (list pyfloat)) :=
  scores_loop_with percentage_binary64 TECHNOLOGIES CRITERIA
    (objects s) (evaluations s).

(** The score of (technology, criterion) is computed and is [pct tech
    criterion]. *)
Definition scored_with {A : Type} (pcf : nat → nat → option A)
    h (evals : list evaluation) (pct : pystr → pystr → A)
    tech criterion : Prop :=
  ∃ k, count_selected h evals tech criterion = Some k
       ∧ pcf k (length evals) = Some (pct tech criterion).

(** The float score of (technology, criterion). *)
Definition binary64_of h (evals : list evaluation) tech criterion : pyfloat :=
  default (S754_zero false)
    (percentage_binary64 (marks h evals tech criterion) (length evals)).

(** A mantissa with its round and sticky bits locates a number [x]: at the
    mantissa, strictly below the middle of the interval up to the next
    integer, at the middle, or strictly above it. *)
Definition brackets (mrs : shr_record) (x : Q) : Prop :=
  let m := inject_Z (shr_m mrs) in
  match shr_r mrs, shr_s mrs with
  | false, false => (x == m)%Q
  | false, true => (m < x ∧ x < m + (1 # 2))%Q
  | true, false => (x == m + (1 # 2))%Q
  | true, true => (m + (1 # 2) < x ∧ x < m + 1)%Q
  end.

(** Twenty submissions under one name: eleven with the single mark
    (Tech A, Criteria 1), then nine with an empty grid. *)
Definition twenty_session : list interaction :=
  interact (TypeName (lit "Ann")) (λ _ _, false)
  :: replicate 11 (interact ClickSubmit example_frame)
  ++ replicate 9 (interact ClickSubmit (λ _ _, false)).

Definition after_twenty : session_state :=
  default initial_state (run_trace initial_state twenty_session).

(** ** Strings *)

Lemma drop_while_nil (p : N → bool) (t : pystr) :
  drop_while p t = [] ↔ Forall (λ c, p c = true) t.
Proof.
  induction t as [|c t IH]; simpl; [done|].
  destruct (p c) eqn:Hc.
  - rewrite IH. split; [by constructor|by inv 1].
  - split; [done|]. inv 1. congruence.
Qed.

Lemma drop_while_head (p : N → bool) (t : pystr) c t' :
  drop_while p t = c :: t' → p c = false.
Proof.
  induction t as [|c0 t IH]; simpl; [done|].
  destruct (p c0) eqn:Hc; [done|]. by intros [= <- _].
Qed.

(** A string strips to the empty string exactly when it is empty or
    consists of whitespace only. *)
Lemma strip_blank (t : pystr) :
  strip t = [] ↔ Forall (λ c, isspace c = true) t.
Proof.
  unfold strip, rstrip, lstrip.
  rewrite <- (reverse_nil (A:=N)) at 1.
  split.
  - intros Hrev%(inj reverse)%drop_while_nil. rewrite Forall_reverse in Hrev.
    destruct (drop_while isspace t) as [|c t'] eqn:Ht; [by apply drop_while_nil|].
    apply drop_while_head in Ht. apply Forall_cons in Hrev as [? _]. congruence.
  - intros Hall%drop_while_nil. rewrite Hall. done.
Qed.

Lemma digits_aux_length (fuel : nat) (n : N) (acc : pystr) (k : nat) :
  1 ≤ k → (n < 10 ^ N.of_nat k)%N →
  length (digits_aux fuel n acc) ≤ length acc + k.
Proof.
  revert n acc k.
  induction fuel as [|fuel IH]; intros n acc k Hk Hn; cbn [digits_aux]; [lia|].
  destruct (N.eqb_spec (n / 10) 0) as [Hz|Hnz]; [cbn [length]; lia|].
  destruct k as [|[|k]]; [lia| |].
  - exfalso. apply Hnz. apply N.div_small. exact Hn.
  - etrans; [apply (IH _ _ (S k)); [lia|]|cbn [length]; lia].
    apply N.Div0.div_lt_upper_bound.
    by rewrite <- N.pow_succ_r', <- Nat2N.inj_succ.
Qed.

Lemma length_zpad (w : nat) (n : N) :
  1 ≤ w → (n < 10 ^ N.of_nat w)%N → length (zpad w n) = w.
Proof.
  intros Hw Hn. unfold zpad, digits.
  pose proof (digits_aux_length (S (N.to_nat (N.log2 n))) n [] w Hw Hn) as Hlen.
  rewrite length_app, length_replicate. revert Hlen.
  generalize (digits_aux (S (N.to_nat (N.log2 n))) n []). intros ds Hlen.
  cbn [length] in Hlen. clear Hn. lia.
Qed.

(** The timestamp has the nineteen characters of [YYYY-MM-DDTHH:MM:SS]. *)
Lemma length_isoformat_seconds (d : datetime) :
  valid_datetime d → length (isoformat_seconds d) = 19.
Proof.
  intros (Hy & Hmo & Hd & Hh & Hmi & Hs & _). unfold isoformat_seconds.
  rewrite !length_app, !length_zpad; [done|lia|simpl; lia..].
Qed.

Example strip_name : strip ([32; 9]%N ++ lit "Alice" ++ [10]%N) = lit "Alice".
Proof. reflexivity. Qed.

Example strip_inner_space : strip (lit " Al ice ") = lit "Al ice".
Proof. reflexivity. Qed.

Example strip_no_break_space : strip [160; 32; 12288]%N = [].
Proof. reflexivity. Qed.

Example isoformat_example : isoformat_seconds example_time = lit "2026-11-04T12:00:07".
Proof. reflexivity. Qed.

Example zpad_examples :
  (zpad 4 7, zpad 2 59, zpad 2 0, zpad 4 2026)
  = (lit "0007", lit "59", lit "00", lit "2026").
Proof. reflexivity. Qed.

Example join_example :
  join (lit ", ") [lit "Tech A"; lit "Tech C"] = lit "Tech A, Tech C".
Proof. reflexivity. Qed.

(** ** Loops *)

Section loops.
Context {A S : Type}.
Implicit Types (body : S → A → option S).

Lemma for_each_app body (l1 l2 : list A) (s : S) :
  for_each body (l1 ++ l2) s = for_each body l1 s ≫= for_each body l2.
Proof.
  revert s. induction l1 as [|x l1 IH]; intros s; simpl; [done|].
  destruct (body s x) as [s'|]; simpl; [apply IH|done].
Qed.

(** A loop whose body keeps an invariant and never raises under it
    returns, in a state that satisfies the invariant. *)
Lemma for_each_inv (I : S → Prop) body (l : list A) (s : S) :
  I s →
  (∀ (s0 : S) x, x ∈ l → I s0 → ∃ s1 : S, body s0 x = Some s1 ∧ I s1) →
  ∃ s1 : S, for_each body l s = Some s1 ∧ I s1.
Proof.
  revert s. induction l as [|x l IH]; intros s Hs Hbody; simpl.
  - eauto.
  - destruct (Hbody s x) as (s1 & -> & Hs1); [left|done|]. simpl.
    apply IH; [done|]. intros s0 y Hy. apply Hbody. by right.
Qed.
End loops.

(** ** The object store *)

Arguments new_grid : simpl never.

Lemma all_false_dom : dom all_false = (list_to_set CRITERIA : gset pystr).
Proof. by vm_compute. Qed.

Lemma all_false_lookup c b : all_false !! c = Some b → b = false.
Proof.
  unfold all_false.
  assert (∀ (l : list pystr) (g : gmap pystr bool),
    (∀ b, g !! c = Some b → b = false) →
    foldl (λ d criterion, <[criterion:=false]> d) g l !! c = Some b →
    b = false) as Hgen.
  { induction l as [|k l IH]; intros g Hg; simpl; [apply Hg|].
    apply IH. intros b'. rewrite lookup_insert. case_decide; [congruence|apply Hg]. }
  apply Hgen. intros b'. by rewrite lookup_empty.
Qed.

Lemma full_dict_lookup h l :
  full_dict h l ↔ ∃ d, h !! l = Some d ∧ dom d = (list_to_set CRITERIA : gset pystr).
Proof.
  unfold full_dict. destruct (h !! l) as [d|]; simpl; split.
  - intros [= Hd]. eauto.
  - intros (d' & [= <-] & Hd). by rewrite Hd.
  - done.
  - by intros (d' & ? & _).
Qed.

Lemma grid_ok_lookup h g tech :
  grid_ok h g → tech ∈ TECHNOLOGIES →
  ∃ l d, g !! tech = Some l ∧ h !! l = Some d
         ∧ dom d = (list_to_set CRITERIA : gset pystr).
Proof.
  intros [Hdom Hall] Htech.
  assert (is_Some (g !! tech)) as [l Hl].
  { apply elem_of_dom. rewrite Hdom. by apply elem_of_list_to_set. }
  destruct (proj1 (full_dict_lookup h l) (Hall _ _ Hl)) as (d & Hd & Hdd).
  eauto.
Qed.

Lemma grid_ok_cell h g tech criterion :
  grid_ok h g → tech ∈ TECHNOLOGIES → criterion ∈ CRITERIA →
  is_Some (get_cell h g tech criterion).
Proof.
  intros Hg Ht Hc. destruct (grid_ok_lookup h g tech Hg Ht) as (l & d & Hl & Hd & Hdd).
  unfold get_cell. rewrite Hl. simpl. rewrite Hd. simpl.
  apply elem_of_dom. rewrite Hdd. by apply elem_of_list_to_set.
Qed.

(** Two stores that agree on the objects a matrix refers to give the same
    contents. *)
Lemma snapshot_agree h (h' : gmap loc (gmap pystr bool)) g :
  map_Forall (λ _ l, h' !! l = h !! l) g → snapshot h' g = snapshot h g.
Proof.
  intros Hagree. apply map_eq. intros t. unfold snapshot.
  rewrite !lookup_fmap. destruct (g !! t) as [l|] eqn:Hl; simpl; [|done].
  f_equal. by apply (Hagree t l).
Qed.

Lemma get_cell_snapshot h g tech criterion :
  get_cell h g tech criterion
  = od ← snapshot h g !! tech; d ← od; d !! criterion.
Proof.
  unfold get_cell, snapshot. rewrite lookup_fmap.
  by destruct (g !! tech) as [l|].
Qed.

(** *** Building a new grid *)

Lemma new_grid_gen (techs : list pystr) h :
  let gh := foldl add_inner (∅, h) techs in
  h ⊆ gh.2
  ∧ dom gh.1 = (list_to_set techs : gset pystr)
  ∧ ∀ t l, gh.1 !! t = Some l → (l ∉ dom h) ∧ gh.2 !! l = Some all_false.
Proof.
  induction techs as [|x techs IH] using rev_ind; simpl.
  - split; [done|]. split; [by rewrite dom_empty_L|].
    intros t l. by rewrite lookup_empty.
  - rewrite foldl_snoc. simpl in *.
    destruct (foldl _ _ techs) as [g h1]. unfold add_inner, alloc. simpl in *.
    destruct IH as (Hsub & Hdom & Hnew).
    pose proof (is_fresh (dom h1)) as Hfresh.
    set (l1 := fresh (dom h1)) in *.
    assert (h1 !! l1 = None) as Hnone by by apply not_elem_of_dom.
    split; [|split].
    + etrans; [exact Hsub|]. by apply insert_subseteq.
    + rewrite dom_insert_L, Hdom, list_to_set_app_L. simpl.
      rewrite (right_id_L ∅ (∪)). apply (comm_L (∪)).
    + intros t l. rewrite lookup_insert. case_decide as Htx.
      * intros [= <-]. split; [|by rewrite lookup_insert_eq].
        intros Hin. apply Hfresh. revert Hin. apply subseteq_dom in Hsub.
        apply Hsub.
      * intros Hl. destruct (Hnew _ _ Hl) as [Hl1 Hl2]. split; [done|].
        rewrite lookup_insert_ne; [done|]. intros <-. congruence.
Qed.

Lemma new_grid_spec h :
  h ⊆ (new_grid h).2
  ∧ dom (new_grid h).1 = (list_to_set TECHNOLOGIES : gset pystr)
  ∧ ∀ t l, (new_grid h).1 !! t = Some l →
           (l ∉ dom h) ∧ (new_grid h).2 !! l = Some all_false.
Proof. apply new_grid_gen. Qed.

Lemma new_grid_ok h : grid_ok (new_grid h).2 (new_grid h).1.
Proof.
  destruct (new_grid_spec h) as (_ & Hdom & Hnew). split; [done|].
  intros t l Hl. apply full_dict_lookup. exists all_false.
  split; [by apply Hnew in Hl as [_ ?]|apply all_false_dom].
Qed.

(** Every cell of a new grid reads [False]. *)
Lemma new_grid_cell h tech criterion :
  tech ∈ TECHNOLOGIES → criterion ∈ CRITERIA →
  get_cell (new_grid h).2 (new_grid h).1 tech criterion = Some false.
Proof.
  intros Ht Hc.
  destruct (grid_ok_cell _ _ tech criterion (new_grid_ok h) Ht Hc) as [b Hb].
  rewrite Hb. f_equal. revert Hb.
  destruct (new_grid_spec h) as (_ & _ & Hnew). revert Hnew.
  destruct (new_grid h) as [g h']. unfold get_cell. simpl. intros Hnew.
  destruct (g !! tech) as [l|] eqn:Hl; simpl; [|done].
  apply Hnew in Hl as [_ ->]. simpl. apply all_false_lookup.
Qed.

(** Objects that exist keep their contents when a grid is built. *)
Lemma new_grid_keeps h g :
  map_Forall (λ _ l, is_Some (h !! l)) g →
  snapshot (new_grid h).2 g = snapshot h g.
Proof.
  intros Hin. apply snapshot_agree. intros t l Hl.
  destruct (Hin t l Hl) as [d Hd]. rewrite Hd.
  destruct (new_grid_spec h) as (Hsub & _). by eapply lookup_weaken.
Qed.

Lemma grid_ok_weaken h (h' : gmap loc (gmap pystr bool)) g :
  h ⊆ h' → grid_ok h g → grid_ok h' g.
Proof.
  intros Hsub [Hdom Hall]. split; [done|]. intros t l Hl.
  apply full_dict_lookup. apply Hall, full_dict_lookup in Hl as (d & Hd & Hdd).
  exists d. split; [by eapply lookup_weaken|done].
Qed.

(** *** Writes into the live grid *)

Lemma grid_write_refl s : grid_write s s.
Proof. by destruct s. Qed.

Lemma grid_write_trans s (s' s'' : session_state) :
  grid_write s s' → grid_write s' s'' → grid_write s s''.
Proof.
  intros (Hs' & Hout & Hdom) (Hs'' & Hout' & Hdom').
  assert (current_selections s' = current_selections s) as Hg by by rewrite Hs'.
  split; [|split].
  - rewrite Hs'', Hs'. by destruct s.
  - intros l Hl. rewrite Hout'; [by apply Hout|by rewrite Hg].
  - intros l. by rewrite Hdom'.
Qed.

Lemma set_cell_write s tech criterion v :
  grid_ok (objects s) (current_selections s) →
  tech ∈ TECHNOLOGIES → criterion ∈ CRITERIA →
  ∃ s', set_cell s tech criterion v = Some s' ∧ grid_write s s'.
Proof.
  intros Hg Ht Hc.
  destruct (grid_ok_lookup _ _ tech Hg Ht) as (l & d & Hl & Hd & Hdd).
  unfold set_cell. rewrite Hl. simpl. rewrite Hd. simpl.
  eexists. split; [done|]. split; [done|]. simpl. split.
  - intros l0 Hl0. apply lookup_insert_ne. intros <-. by apply (Hl0 tech l).
  - intros l0. rewrite lookup_insert. case_decide as Hll; [|done].
    subst l0. rewrite Hd. simpl. f_equal. rewrite dom_insert_L.
    apply subseteq_union_1_L, singleton_subseteq_l.
    rewrite Hdd. by apply elem_of_list_to_set.
Qed.

Lemma grid_write_wf s (s' : session_state) : wf s → grid_write s s' → wf s'.
Proof.
  intros (Hg & Hr & Hsep) (Hs' & _ & Hdom).
  assert (∀ g, grid_ok (objects s) g → grid_ok (objects s') g) as Hok.
  { intros g [Hgd Hall]. split; [done|]. intros t l Hl.
    unfold full_dict. rewrite Hdom. by apply (Hall t l). }
  rewrite Hs'. unfold wf. simpl. split; [by apply Hok|]. split; [|done].
  unfold records_ok. eapply Forall_impl; [exact Hr|]. intros e. apply Hok.
Qed.

Lemma grid_write_snapshot s (s' : session_state) e :
  wf s → grid_write s s' → e ∈ evaluations s →
  snapshot (objects s') (selections e) = snapshot (objects s) (selections e).
Proof.
  intros (_ & _ & Hsep) (_ & Hout & _) He. apply snapshot_agree.
  intros t l Hl. apply Hout.
  unfold separated in Hsep. rewrite Forall_forall in Hsep.
  by apply (Hsep e He t l).
Qed.

Lemma sync_grid_write s df :
  wf s → ∃ s', sync_grid s df = Some s' ∧ wf s' ∧ grid_write s s'.
Proof.
  intros Hwf. unfold sync_grid.
  apply (for_each_inv (λ s', wf s' ∧ grid_write s s')).
  { split; [done|apply grid_write_refl]. }
  intros s1 [idx tech] Hin [Hwf1 Hw1]. cbn [fst snd].
  assert (tech ∈ TECHNOLOGIES) as Ht.
  { apply (elem_of_zip_r _ _ _ _ Hin). }
  apply (for_each_inv (λ s', wf s' ∧ grid_write s s')); [done|].
  intros s2 criterion Hc [Hwf2 Hw2].
  destruct (set_cell_write s2 tech criterion (df idx criterion)) as (s3 & Hs3 & Hw3);
    [apply Hwf2|done|done|].
  exists s3. split; [done|]. split; [by eapply grid_write_wf|by eapply grid_write_trans].
Qed.

(** *** Submission *)

Lemma strip_truthy (t : pystr) : truthy t = false ↔ t = [].
Proof. by destruct t. Qed.

Lemma submit_button_blank s name_text comment_text now :
  strip name_text = [] →
  submit_button s name_text comment_text now
  = (s, st_error (lit "Please enter your name before submitting.")).
Proof. intros Hblank. unfold submit_button. by rewrite Hblank. Qed.

Lemma submit_button_valid s name_text comment_text now :
  strip name_text ≠ [] →
  submit_button s name_text comment_text now
  = ({| objects := (new_grid (objects s)).2;
        evaluations := evaluations s ++
          [{| evaluator_name := strip name_text;
              timestamp := isoformat_seconds now;
              selections := current_selections s;
              comments := strip comment_text |}];
        current_evaluator := current_evaluator s;
        current_selections := (new_grid (objects s)).1;
        current_comment := [];
        evaluator_input := evaluator_input s;
        comments_area := comments_area s |},
     st_success ([9989%N] ++ lit " Thank you, " ++ name_text
                 ++ lit "! Your evaluation has been submitted.")).
Proof.
  intros Hname. unfold submit_button.
  destruct (strip name_text) as [|c t] eqn:Hstrip; [done|]. simpl negb. cbv iota.
  by destruct (new_grid (objects s)) as [g h].
Qed.

Lemma submit_button_store s name_text comment_text now :
  evaluator_input (submit_button s name_text comment_text now).1 = evaluator_input s
  ∧ comments_area (submit_button s name_text comment_text now).1 = comments_area s
  ∧ evaluations (submit_button s name_text comment_text now).1
    = evaluations s ++
        (if truthy (strip name_text)
         then [{| evaluator_name := strip name_text;
                  timestamp := isoformat_seconds now;
                  selections := current_selections s;
                  comments := strip comment_text |}]
         else []).
Proof.
  destruct (decide (strip name_text = [])) as [Hb|Hv].
  - rewrite submit_button_blank by done. rewrite Hb. simpl. by rewrite app_nil_r.
  - rewrite submit_button_valid by done. by destruct (strip name_text).
Qed.

Lemma grid_ok_allocated h g :
  grid_ok h g → map_Forall (λ _ l, is_Some (h !! l)) g.
Proof.
  intros [_ Hall] t l Hl. apply Hall, full_dict_lookup in Hl as (d & Hd & _). eauto.
Qed.

Lemma submit_button_wf s name_text comment_text now :
  wf s → wf (submit_button s name_text comment_text now).1.
Proof.
  intros Hwf. destruct (decide (strip name_text = [])) as [Hb|Hv].
  { by rewrite submit_button_blank. }
  rewrite submit_button_valid by done. simpl.
  destruct Hwf as (Hg & Hr & Hsep).
  destruct (new_grid_spec (objects s)) as (Hsub & _ & Hnew).
  assert (∀ g, grid_ok (objects s) g →
               map_Forall (λ _ l, map_Forall (λ _ l', l ≠ l')
                                     (new_grid (objects s)).1) g) as Hfresh.
  { intros g Hgo t l Hl t' l' Hl' <-.
    apply Hnew in Hl' as [Hout _]. apply Hout, elem_of_dom.
    by apply (grid_ok_allocated _ _ Hgo t l). }
  unfold wf. simpl. split; [apply new_grid_ok|]. split.
  - unfold records_ok. rewrite Forall_app. split.
    + eapply Forall_impl; [exact Hr|]. intros e. by apply grid_ok_weaken.
    + apply Forall_singleton. simpl. by eapply grid_ok_weaken.
  - unfold separated. rewrite Forall_app. split.
    + eapply Forall_impl; [exact Hr|]. intros e. apply Hfresh.
    + apply Forall_singleton. simpl. by apply Hfresh.
Qed.

Lemma submit_button_snapshot s name_text comment_text now g :
  grid_ok (objects s) g →
  snapshot (objects (submit_button s name_text comment_text now).1) g
  = snapshot (objects s) g.
Proof.
  intros Hg. destruct (decide (strip name_text = [])) as [Hb|Hv].
  { by rewrite submit_button_blank. }
  rewrite submit_button_valid by done. simpl.
  by apply new_grid_keeps, grid_ok_allocated.
Qed.

(** ** Aggregation *)

Lemma NoDup_TECHNOLOGIES : NoDup TECHNOLOGIES.
Proof. apply (bool_decide_unpack _). by vm_compute. Qed.

Lemma NoDup_CRITERIA : NoDup CRITERIA.
Proof. apply (bool_decide_unpack _). by vm_compute. Qed.

Lemma records_ok_selected h evals e tech criterion :
  records_ok h evals → e ∈ evals → tech ∈ TECHNOLOGIES → criterion ∈ CRITERIA →
  is_Some (selected h e tech criterion).
Proof.
  intros Hr He Ht Hc. unfold records_ok in Hr. rewrite Forall_forall in Hr.
  apply grid_ok_cell; auto.
Qed.

Lemma count_selected_marks h evals tech criterion :
  records_ok h evals → tech ∈ TECHNOLOGIES → criterion ∈ CRITERIA →
  count_selected h evals tech criterion = Some (marks h evals tech criterion).
Proof.
  intros Hr Ht Hc. unfold marks.
  induction evals as [|e evals IH]; [done|].
  apply Forall_cons in Hr as [He Hr]. cbn [count_selected].
  destruct (grid_ok_cell _ _ tech criterion He Ht Hc) as [b Hb].
  change (selected h e tech criterion = Some b) in Hb.
  rewrite Hb, (IH Hr). cbn [mbind option_bind].
  rewrite filter_cons, Hb. destruct b; by case_decide.
Qed.

Lemma marks_le h evals tech criterion :
  marks h evals tech criterion ≤ length evals.
Proof. apply length_filter. Qed.


Lemma percentage_range (count n : nat) p :
  count ≤ n → percentage count n = Some p → (0 <= p ∧ p <= 100)%Q.
Proof.
  intros Hle. destruct n as [|n]; [done|]. intros [= <-].
  assert (0 < inject_Z (Z.of_nat (S n)))%Q as Hpos.
  { unfold Qlt. simpl. lia. }
  split.
  - apply Qmult_le_0_compat; [|done].
    apply Qle_shift_div_l; [done|]. rewrite Qmult_0_l.
    unfold Qle. simpl. lia.
  - apply Qle_trans with (1 * 100)%Q; [|done].
    apply Qmult_le_compat_r; [|done].
    apply Qle_shift_div_r; [done|]. rewrite Qmult_1_l.
    rewrite <- Zle_Qle. lia.
Qed.

Lemma append_score_present (m : gmap pystr (list Q)) tech ps p :
  m !! tech = Some ps → append_score m tech p = Some (<[tech:=ps ++ [p]]> m).
Proof. intros Hm. unfold append_score. by rewrite Hm. Qed.

Section scores.
Variables (h : gmap loc (gmap pystr bool)) (evals : list evaluation).
Variable pct : pystr → pystr → Q.

(** One pass over the technologies appends one score to each list. *)
Lemma scores_inner criterion (ts : list pystr) (m : gmap pystr (list Q)) :
  NoDup ts →
  (∀ t, t ∈ ts → scored h evals pct t criterion) →
  (∀ t, t ∈ ts → is_Some (m !! t)) →
  ∃ m', for_each (λ m tech,
            count ← count_selected h evals tech criterion;
            p ← percentage count (length evals);
            append_score m tech p) ts m = Some m'
        ∧ (∀ t, t ∈ ts → m' !! t = (λ ps, ps ++ [pct t criterion]) <$> m !! t)
        ∧ (∀ t, t ∉ ts → m' !! t = m !! t).
Proof.
  intros Hnd. revert m.
  induction Hnd as [|t ts Ht Hnd IH]; intros m Hsc Hin; cbn [for_each].
  { exists m. split; [done|]. split; [|done]. intros t Ht. by apply elem_of_nil in Ht. }
  destruct (Hsc t) as (k & -> & Hk); [left|]. cbn [mbind option_bind].
  rewrite Hk. cbn [mbind option_bind].
  destruct (Hin t) as [ps Hps]; [left|].
  rewrite (append_score_present m t ps) by done. cbn [mbind option_bind].
  destruct (IH (<[t:=ps ++ [pct t criterion]]> m)) as (m' & Hm' & Hin' & Hout').
  - intros t' Ht'. apply Hsc. by right.
  - intros t' Ht'. rewrite lookup_insert_ne; [apply Hin; by right|].
    by intros <-.
  - exists m'. split; [done|]. split.
    + intros t' [->|Ht']%elem_of_cons.
      * rewrite Hout' by done. by rewrite lookup_insert_eq, Hps.
      * rewrite Hin' by done. rewrite lookup_insert_ne; [done|]. by intros <-.
    + intros t' Ht'. rewrite Hout'.
      * apply lookup_insert_ne. intros <-. apply Ht'. left.
      * intros ?. apply Ht'. by right.
Qed.

(** The passes over the criteria extend every list in criteria order. *)
Lemma scores_outer (techs crits : list pystr) (m : gmap pystr (list Q))
    (acc : pystr → list Q) :
  NoDup techs →
  (∀ t c, t ∈ techs → c ∈ crits → scored h evals pct t c) →
  (∀ t, t ∈ techs → m !! t = Some (acc t)) →
  ∃ m', for_each (λ m criterion,
            for_each (λ m tech,
                count ← count_selected h evals tech criterion;
                p ← percentage count (length evals);
                append_score m tech p) techs m) crits m = Some m'
        ∧ ∀ t, t ∈ techs → m' !! t = Some (acc t ++ (pct t <$> crits)).
Proof.
  intros Hnd. revert m acc.
  induction crits as [|c crits IH]; intros m acc Hsc Hm; cbn [for_each].
  { exists m. split; [done|]. intros t Ht. rewrite Hm by done.
    by rewrite app_nil_r. }
  destruct (scores_inner c techs m Hnd) as (m1 & -> & Hin1 & _).
  { intros t Ht. apply Hsc; [done|left]. }
  { intros t Ht. rewrite Hm by done. eauto. }
  cbn [mbind option_bind].
  destruct (IH m1 (λ t, acc t ++ [pct t c])) as (m' & Hm' & Hres).
  { intros t c' Ht Hc'. apply Hsc; [done|by right]. }
  { intros t Ht. rewrite Hin1, Hm by done. done. }
  exists m'. split; [done|]. intros t Ht. rewrite Hres by done.
  by rewrite <- app_assoc.
Qed.

Lemma scores_init (techs : list pystr) t :
  t ∈ techs →
  foldl (λ (m : gmap pystr (list Q)) tech, <[tech:=[]]> m) ∅ techs !! t = Some [].
Proof.
  intros Ht.
  assert (∀ m : gmap pystr (list Q), (t ∈ techs ∨ m !! t = Some []) →
    foldl (λ (m : gmap pystr (list Q)) tech, <[tech:=[]]> m) m techs !! t = Some [])
    as Hgen; [|by apply Hgen; left].
  clear Ht. induction techs as [|x techs IH]; intros m Hm; simpl.
  - destruct Hm as [Hm|Hm]; [by apply elem_of_nil in Hm|done].
  - apply IH. destruct Hm as [[->|Hm]%elem_of_cons|Hm].
    + right. apply lookup_insert_eq.
    + by left.
    + right. rewrite lookup_insert. by case_decide.
Qed.

Lemma scores_loop_spec (techs crits : list pystr) :
  NoDup techs →
  (∀ t c, t ∈ techs → c ∈ crits → scored h evals pct t c) →
  ∃ m, scores_loop techs crits h evals = Some m
       ∧ ∀ t, t ∈ techs → m !! t = Some (pct t <$> crits).
Proof.
  intros Hnd Hsc. unfold scores_loop.
  destruct (scores_outer techs crits
              (foldl (λ (m : gmap pystr (list Q)) tech, <[tech:=[]]> m) ∅ techs)
              (λ _, []) Hnd Hsc) as (m & Hm & Hres).
  { intros t Ht. by apply scores_init. }
  exists m. split; [done|]. intros t Ht. by rewrite Hres.
Qed.
End scores.

Lemma tech_scores_spec s :
  records_ok (objects s) (evaluations s) → evaluations s ≠ [] →
  ∃ m, tech_scores s = Some m
       ∧ ∀ t, t ∈ TECHNOLOGIES →
              m !! t = Some (pct_of (objects s) (evaluations s) t <$> CRITERIA).
Proof.
  intros Hr Hne. apply scores_loop_spec; [apply NoDup_TECHNOLOGIES|].
  intros t c Ht Hc. exists (marks (objects s) (evaluations s) t c).
  split; [by apply count_selected_marks|].
  unfold pct_of. by destruct (evaluations s).
Qed.

(** ** Tables *)

Lemma for_each_extend {A B : Type} (body : list B → A → option (list B))
    (F : A → list B) (l : list A) (acc : list B) :
  (∀ x acc, x ∈ l → body acc x = Some (acc ++ F x)) →
  for_each body l acc = Some (acc ++ mjoin (F <$> l)).
Proof.
  revert acc. induction l as [|x l IH]; intros acc Hbody; simpl.
  - by rewrite app_nil_r.
  - rewrite Hbody by left. simpl. rewrite IH.
    + by rewrite app_assoc.
    + intros y acc' Hy. apply Hbody. by right.
Qed.

Lemma for_each_collect {A B : Type} (f : A → option B) (gf : A → B)
    (l : list A) (acc : list B) :
  (∀ x, x ∈ l → f x = Some (gf x)) →
  for_each (λ rows x, r ← f x; Some (rows ++ [r])) l acc = Some (acc ++ (gf <$> l)).
Proof.
  intros Hf. rewrite (for_each_extend _ (λ x, [gf x])).
  - do 2 f_equal. induction l as [|x l IH]; [done|]. simpl.
    f_equal. apply IH. intros y Hy. apply Hf. by right.
  - intros x acc' Hx. by rewrite Hf.
Qed.

Lemma dict_set_new (d : row) (k v : pystr) :
  k ∉ d.*1 → dict_set d k v = d ++ [(k, v)].
Proof.
  induction d as [|[k' v'] d IH]; intros Hk; simpl; [done|].
  rewrite fmap_cons, not_elem_of_cons in Hk. destruct Hk as [Hne Hk].
  case_decide; [done|]. by rewrite IH.
Qed.

(** Assigning new, distinct keys appends them in order. *)
Lemma for_each_dict_set {B : Type} (f : pystr → option B) (gf : pystr → B)
    (val : B → pystr) (ks : list pystr) (d : row) :
  NoDup (d.*1 ++ ks) →
  (∀ k, k ∈ ks → f k = Some (gf k)) →
  for_each (λ r k, b ← f k; Some (dict_set r k (val b))) ks d
  = Some (d ++ ((λ k, (k, val (gf k))) <$> ks)).
Proof.
  revert d. induction ks as [|k ks IH]; intros d Hnd Hf; simpl.
  - by rewrite app_nil_r.
  - rewrite Hf by left. simpl.
    assert (k ∉ d.*1) as Hk.
    { apply NoDup_app in Hnd as (_ & Hdisj & _). intros Hin.
      apply (Hdisj k Hin). left. }
    rewrite dict_set_new by done. rewrite IH.
    + by rewrite <- app_assoc.
    + rewrite fmap_app. simpl. by rewrite <- app_assoc.
    + intros k' Hk'. apply Hf. by right.
Qed.

Lemma any_selected_spec h e tech :
  grid_ok h (selections e) → tech ∈ TECHNOLOGIES →
  any_selected h e tech = Some (bool_decide (has_mark h e tech)).
Proof.
  intros Hg Ht. destruct (grid_ok_lookup _ _ tech Hg Ht) as (l & d & Hl & Hd & Hdd).
  unfold any_selected. rewrite Hl. simpl. rewrite Hd. simpl. f_equal.
  assert (∀ c, selected h e tech c = d !! c) as Hsel.
  { intros c. unfold selected, get_cell. rewrite Hl. simpl. by rewrite Hd. }
  destruct (existsb id (map_to_list d).*2) eqn:Hex; symmetry.
  - apply bool_decide_eq_true. apply existsb_exists in Hex as (b & Hin & Hb).
    unfold id in Hb. subst b. apply list_elem_of_In, list_elem_of_fmap in Hin.
    destruct Hin as ([c b] & Hb & Hin). simpl in Hb. subst b.
    apply elem_of_map_to_list in Hin. apply Exists_exists. exists c.
    split; [|by rewrite Hsel].
    apply (elem_of_list_to_set (C:=gset pystr)). rewrite <- Hdd.
    apply elem_of_dom. eauto.
  - apply bool_decide_eq_false. intros (c & _ & Hc)%Exists_exists.
    rewrite Hsel in Hc. apply elem_of_map_to_list in Hc.
    assert (existsb id (map_to_list d).*2 = true) as Hex'; [|congruence].
    apply existsb_exists. exists true. split; [|done].
    apply list_elem_of_In, list_elem_of_fmap. by exists (c, true).
Qed.

Lemma filter_opt_spec {A : Type} (p : A → option bool) (P : A → Prop)
    `{!∀ x, Decision (P x)} (l : list A) :
  (∀ x, x ∈ l → p x = Some (bool_decide (P x))) →
  filter_opt p l = Some (filter P l).
Proof.
  induction l as [|x l IH]; intros Hp; simpl; [done|].
  rewrite Hp by left. simpl. rewrite IH.
  - simpl. rewrite filter_cons. by case_bool_decide; case_decide.
  - intros y Hy. apply Hp. by right.
Qed.

Lemma summary_row_spec h e :
  grid_ok h (selections e) → summary_row h e = Some (summary_of h e).
Proof.
  intros Hg. unfold summary_row.
  rewrite (filter_opt_spec _ (has_mark h e)).
  - simpl. unfold summary_of. fold (marked_techs h e).
    destruct (comments e); by case_decide.
  - intros t Ht. by apply any_selected_spec.
Qed.

Lemma results_for_display_spec s :
  records_ok (objects s) (evaluations s) →
  results_for_display s = Some (summary_of (objects s) <$> evaluations s).
Proof.
  intros Hr. unfold results_for_display.
  rewrite (for_each_collect _ (summary_of (objects s))); [done|].
  intros e He. apply summary_row_spec.
  unfold records_ok in Hr. rewrite Forall_forall in Hr. by apply Hr.
Qed.

Lemma csv_row_spec h e tech :
  grid_ok h (selections e) → tech ∈ TECHNOLOGIES →
  csv_row h e tech = Some (detail_of h e tech).
Proof.
  intros Hg Ht. unfold csv_row.
  rewrite (for_each_dict_set _ (λ c, bool_decide (selected h e tech c = Some true))).
  - done.
  - apply (bool_decide_unpack _). by vm_compute.
  - intros c Hc. destruct (grid_ok_cell _ _ tech c Hg Ht Hc) as [b Hb].
    change (selected h e tech c = Some b) in Hb. rewrite Hb.
    by destruct b.
Qed.

Lemma csv_rows_spec s :
  records_ok (objects s) (evaluations s) →
  csv_rows s
  = Some (mjoin ((λ e, detail_of (objects s) e <$> TECHNOLOGIES) <$> evaluations s)).
Proof.
  intros Hr. unfold csv_rows.
  rewrite (for_each_extend _ (λ e, detail_of (objects s) e <$> TECHNOLOGIES)); [done|].
  intros e acc He. apply for_each_collect. intros t Ht.
  apply csv_row_spec; [|done].
  unfold records_ok in Hr. rewrite Forall_forall in Hr. by apply Hr.
Qed.

(** *** Frames *)

Lemma add_columns_present (cols ks : list pystr) :
  ks ⊆ cols → foldl add_column cols ks = cols.
Proof.
  induction ks as [|k ks IH]; intros Hsub; simpl; [done|].
  unfold add_column at 2. rewrite bool_decide_eq_true_2.
  - apply IH. intros x Hx. apply Hsub. by right.
  - apply Hsub. left.
Qed.

Lemma add_columns_new (cols ks : list pystr) :
  NoDup (cols ++ ks) → foldl add_column cols ks = cols ++ ks.
Proof.
  revert cols. induction ks as [|k ks IH]; intros cols Hnd; simpl.
  - by rewrite app_nil_r.
  - unfold add_column at 2. rewrite bool_decide_eq_false_2.
    + rewrite IH; rewrite <- app_assoc; done.
    + apply NoDup_app in Hnd as (_ & Hdisj & _). intros Hin.
      apply (Hdisj k Hin). left.
Qed.

Lemma dict_get_keys (r : row) :
  NoDup r.*1 → dict_get r <$> r.*1 = Some <$> r.*2.
Proof.
  induction r as [|[k v] r IH]; intros Hnd; [done|].
  rewrite !fmap_cons in *. apply NoDup_cons in Hnd as [Hk Hnd]. simpl. f_equal.
  - unfold dict_get. simpl. by rewrite bool_decide_eq_true_2.
  - rewrite <- IH by done. apply Forall_fmap_ext, Forall_forall. intros k' Hk'.
    unfold dict_get. simpl. rewrite bool_decide_eq_false_2; [done|].
    by intros ->.
Qed.

(** Records that all have the same distinct keys in the same order make a
    frame with these columns and the records' values as rows. *)
Lemma frame_of_uniform_records (records : list row) (ks : list pystr) :
  records ≠ [] → NoDup ks → Forall (λ r, r.*1 = ks) records →
  frame_of_records records
  = {| columns := ks; data := (λ r, Some <$> r.*2) <$> records |}.
Proof.
  intros Hne Hnd Hkeys. unfold frame_of_records.
  assert (foldl (λ cols (r : row), foldl add_column cols r.*1) [] records = ks) as ->.
  { destruct records as [|r0 records]; [done|]. simpl.
    apply Forall_cons in Hkeys as [Hr0 Hkeys]. rewrite Hr0.
    rewrite add_columns_new by done. simpl.
    induction Hkeys as [|r records Hr _ IH]; [done|]. simpl.
    rewrite Hr, add_columns_present by done. by apply IH. }
  f_equal. apply Forall_fmap_ext. eapply Forall_impl; [exact Hkeys|].
  intros r <-. apply dict_get_keys. by subst.
Qed.

(** ** Runs *)

Lemma results_section_total s :
  records_ok (objects s) (evaluations s) → is_Some (results_section s).
Proof.
  intros Hr. unfold results_section.
  pose proof (tech_scores_spec s Hr) as Hscores.
  rewrite results_for_display_spec, csv_rows_spec by done.
  destruct (evaluations s) as [|e evals]; [done|].
  by destruct Hscores as (m & -> & _).
Qed.

Lemma widget_update_wf s a : wf s → wf (widget_update s a).
Proof. by destruct a. Qed.

(** One run from a well-formed state: it returns, the state stays
    well-formed, the store is extended by the accepted record if there is
    one, and what the stored records refer to keeps its contents. *)
Lemma script_run_spec s i :
  wf s →
  ∃ sp new,
    script_run s i = Some sp ∧ wf sp.1
    ∧ evaluator_input sp.1 = name_after (evaluator_input s) (act i)
    ∧ comments_area sp.1 = comment_after (comments_area s) (act i)
    ∧ evaluations sp.1 = evaluations s ++ new
    ∧ evaluator_name <$> new
      = (if accepted (evaluator_input s) (act i)
         then [strip (name_after (evaluator_input s) (act i))] else [])
    ∧ comments <$> new
      = (if accepted (evaluator_input s) (act i)
         then [strip (comment_after (comments_area s) (act i))] else [])
    ∧ ∀ e, e ∈ evaluations s →
           snapshot (objects sp.1) (selections e)
           = snapshot (objects s) (selections e).
Proof.
  intros Hwf. unfold script_run.
  pose proof (widget_update_wf s (act i) Hwf) as Hwf0.
  destruct (sync_grid_write _ (edited_df i) Hwf0) as (s1 & -> & Hwf1 & Hw).
  cbn [mbind option_bind].
  assert (evaluator_input s1 = name_after (evaluator_input s) (act i)
          ∧ comments_area s1 = comment_after (comments_area s) (act i)
          ∧ evaluations s1 = evaluations s) as (Hname & Hcomment & Hevals).
  { destruct Hw as (-> & _). by destruct (act i). }
  assert (∀ e, e ∈ evaluations s →
            snapshot (objects s1) (selections e) = snapshot (objects s) (selections e))
    as Hsnap.
  { intros e He. rewrite (grid_write_snapshot _ s1 e Hwf0 Hw); by destruct (act i). }
  unfold accepted. destruct (clicked (act i)); cbn [andb].
  - pose proof (submit_button_wf s1 (evaluator_input s1) (comments_area s1) (now i) Hwf1)
      as Hwf2.
    pose proof (submit_button_store s1 (evaluator_input s1) (comments_area s1) (now i))
      as (Hname2 & Hcomment2 & Hevals2).
    assert (∀ e, e ∈ evaluations s →
              snapshot (objects (submit_button s1 (evaluator_input s1)
                                   (comments_area s1) (now i)).1) (selections e)
              = snapshot (objects s) (selections e))
      as Hsnap2.
    { intros e He. rewrite <- Hsnap by done. apply submit_button_snapshot.
      destruct Hwf1 as (_ & Hr & _). unfold records_ok in Hr.
      rewrite Forall_forall in Hr. apply Hr. by rewrite Hevals. }
    destruct (submit_button s1 (evaluator_input s1) (comments_area s1) (now i))
      as [s2 fb].
    cbn [fst] in *.
    destruct (results_section_total s2) as [r ->]; [apply Hwf2|].
    cbn [mbind option_bind]. eexists _, _. split; [done|]. cbn [fst].
    rewrite Hname2, Hcomment2, Hevals2, Hname, Hcomment, Hevals.
    do 4 (split; [done|]). split; [|split; [|done]];
      by destruct (truthy (strip (name_after (evaluator_input s) (act i)))).
  - destruct (results_section_total s1) as [r ->]; [apply Hwf1|].
    cbn [mbind option_bind]. eexists _, []. cbn [fst]. rewrite app_nil_r.
    by split.
Qed.

Lemma record_view_agree h (h' : gmap loc (gmap pystr bool)) e :
  snapshot h' (selections e) = snapshot h (selections e) →
  record_view h' e = record_view h e.
Proof. unfold record_view. by intros ->. Qed.

(** A session from a well-formed state: every run returns, the store grows
    at its end only, by the accepted submissions in order, and what is
    stored keeps its contents. *)
Lemma run_trace_spec s tr :
  wf s →
  ∃ s' new,
    run_trace s tr = Some s' ∧ wf s'
    ∧ evaluations s' = evaluations s ++ new
    ∧ evaluator_name <$> new = submitted_names (evaluator_input s) tr
    ∧ ∀ e, e ∈ evaluations s →
           snapshot (objects s') (selections e)
           = snapshot (objects s) (selections e).
Proof.
  revert s. induction tr as [|i tr IH]; intros s Hwf; cbn [run_trace].
  { exists s, []. rewrite app_nil_r. done. }
  destruct (script_run_spec s i Hwf)
    as (sp & new1 & -> & Hwf1 & Hname & _ & Hev1 & Hnames1 & _ & Hsnap1).
  cbn [mbind option_bind].
  destruct (IH sp.1 Hwf1) as (s' & new2 & -> & Hwf' & Hev2 & Hnames2 & Hsnap2).
  exists s', (new1 ++ new2). split; [done|]. split; [done|].
  split; [by rewrite Hev2, Hev1, app_assoc|]. split.
  - cbn [submitted_names]. by rewrite fmap_app, Hnames1, Hnames2, Hname.
  - intros e He. rewrite Hsnap2; [by apply Hsnap1|].
    rewrite Hev1. apply elem_of_app. by left.
Qed.

Lemma wf_initial : wf initial_state.
Proof. apply (bool_decide_unpack _). by vm_compute. Qed.

(** Every state a session reaches is well-formed. *)
Lemma wf_reachable tr s : run_trace initial_state tr = Some s → wf s.
Proof.
  intros Hrun.
  destruct (run_trace_spec initial_state tr wf_initial) as (s' & _ & Hs' & Hwf & _).
  congruence.
Qed.

(** ** Binary floating point *)

(** *** Powers of two *)

Lemma pow2_pos (e : Z) : (0 < pow2 e)%Q.
Proof. apply Qpower_0_lt. reflexivity. Qed.

Lemma pow2_add (a b : Z) : (pow2 (a + b) == pow2 a * pow2 b)%Q.
Proof. apply Qpower_plus. discriminate. Qed.

Lemma pow2_0 : (pow2 0 == 1)%Q.
Proof. reflexivity. Qed.

Lemma pow2_1 : (pow2 1 == 2)%Q.
Proof. reflexivity. Qed.

Lemma pow2_opp (e : Z) : (pow2 e * pow2 (- e) == 1)%Q.
Proof. rewrite <- pow2_add. replace (e + - e)%Z with 0%Z by lia. reflexivity. Qed.

Lemma pow2_le (a b : Z) : (a ≤ b)%Z → (pow2 a <= pow2 b)%Q.
Proof. intros. apply Qpower_le_compat_l; [done|]. discriminate. Qed.

Lemma pow2_lt_inv (a b : Z) : (pow2 a < pow2 b)%Q → (a < b)%Z.
Proof.
  intros H. destruct (Z_lt_le_dec a b) as [|Hle]; [done|].
  apply pow2_le in Hle. lra.
Qed.

Lemma pow2_inject (e : Z) : (0 ≤ e)%Z → (pow2 e == inject_Z (2 ^ e))%Q.
Proof. intros. unfold pow2. rewrite Zpower_Qpower by done. reflexivity. Qed.

(** *** Shifting and rounding a mantissa *)

Lemma digits2_pos_bounds (p : positive) :
  (2 ^ (Zpos (digits2_pos p) - 1) ≤ Zpos p < 2 ^ Zpos (digits2_pos p))%Z.
Proof.
  induction p as [p IH|p IH|]; cbn [digits2_pos].
  - rewrite Pos2Z.inj_succ, Z.pow_succ_r by lia.
    replace (Z.succ (Zpos (digits2_pos p)) - 1)%Z
      with (Z.succ (Zpos (digits2_pos p) - 1)) by lia.
    rewrite Z.pow_succ_r by lia. lia.
  - rewrite Pos2Z.inj_succ, Z.pow_succ_r by lia.
    replace (Z.succ (Zpos (digits2_pos p)) - 1)%Z
      with (Z.succ (Zpos (digits2_pos p) - 1)) by lia.
    rewrite Z.pow_succ_r by lia. lia.
  - vm_compute. split; [discriminate | reflexivity].
Qed.
Lemma shr_1_brackets (mrs : shr_record) (x : Q) :
  (0 ≤ shr_m mrs)%Z → brackets mrs x →
  (0 ≤ shr_m (shr_1 mrs))%Z ∧ brackets (shr_1 mrs) (x * (1 # 2)).
Proof.
  destruct mrs as [m r s]. unfold brackets. cbn [shr_m shr_r shr_s].
  intros Hm Hx. destruct m as [|p|p]; [| |lia].
  - destruct r, s; cbn [shr_1 shr_m shr_r shr_s orb]; (split; [lia|]);
      change (inject_Z 0) with 0%Q in *; lra.
  - destruct p as [p|p|].
    + assert (inject_Z (Z.pos p~1) == 2 * inject_Z (Z.pos p) + 1)%Q as E
        by (rewrite Pos2Z.inj_xI, inject_Z_plus, inject_Z_mult; reflexivity).
      destruct r, s; cbn [shr_1 shr_m shr_r shr_s orb]; (split; [lia|]); lra.
    + assert (inject_Z (Z.pos p~0) == 2 * inject_Z (Z.pos p))%Q as E
        by (rewrite Pos2Z.inj_xO, inject_Z_mult; reflexivity).
      destruct r, s; cbn [shr_1 shr_m shr_r shr_s orb]; (split; [lia|]); lra.
    + change (inject_Z 1) with 1%Q in *.
      destruct r, s; cbn [shr_1 shr_m shr_r shr_s orb]; (split; [lia|]);
        change (inject_Z 0) with 0%Q in *; lra.
Qed.

Lemma brackets_proper (mrs : shr_record) (x y : Q) : (x == y)%Q → brackets mrs x → brackets mrs y.
Proof.
  intros E. unfold brackets. destruct (shr_r mrs), (shr_s mrs); intros; lra.
Qed.

Lemma iter_shr_1_brackets (p : positive) : ∀ (mrs : shr_record) (x : Q),
  (0 ≤ shr_m mrs)%Z → brackets mrs x →
  (0 ≤ shr_m (SpecFloat.iter_pos shr_1 p mrs))%Z
  ∧ brackets (SpecFloat.iter_pos shr_1 p mrs) (x * pow2 (- Zpos p)).
Proof.
  induction p as [p IH|p IH|]; intros mrs x Hm Hx; cbn [SpecFloat.iter_pos].
  - destruct (shr_1_brackets mrs x Hm Hx) as [Hm1 Hx1].
    destruct (IH _ _ Hm1 Hx1) as [Hm2 Hx2].
    destruct (IH _ _ Hm2 Hx2) as [Hm3 Hx3].
    split; [done|]. revert Hx3. apply brackets_proper.
    replace (- Z.pos p~1)%Z with (-1 + (- Z.pos p + - Z.pos p))%Z by lia.
    rewrite !pow2_add. change (pow2 (-1)) with (1 # 2)%Q. ring.
  - destruct (IH _ _ Hm Hx) as [Hm2 Hx2].
    destruct (IH _ _ Hm2 Hx2) as [Hm3 Hx3].
    split; [done|]. revert Hx3. apply brackets_proper.
    replace (- Z.pos p~0)%Z with (- Z.pos p + - Z.pos p)%Z by lia.
    rewrite !pow2_add. ring.
  - destruct (shr_1_brackets mrs x Hm Hx) as [Hm1 Hx1].
    split; [done|]. revert Hx1. apply brackets_proper.
    change (pow2 (- Z.pos 1)) with (1 # 2)%Q. ring.
Qed.

(** [mrs] at exponent [e] brackets the real [v]. *)
Lemma shr_brackets (mrs : shr_record) (e n : Z) (v : Q) :
  (0 ≤ shr_m mrs)%Z → brackets mrs (v * pow2 (- e)) →
  let r := shr mrs e n in
  r.2 = (e + Z.max n 0)%Z
  ∧ (0 ≤ shr_m r.1)%Z
  ∧ brackets r.1 (v * pow2 (- r.2)).
Proof.
  intros Hm Hx. destruct n as [|p|p]; cbn [shr fst snd].
  - replace (e + Z.max 0 0)%Z with e by lia. done.
  - destruct (iter_shr_1_brackets p _ _ Hm Hx) as [Hm1 Hx1].
    split; [lia|]. split; [done|]. revert Hx1. apply brackets_proper.
    replace (- (e + Z.pos p))%Z with (- e + - Z.pos p)%Z by lia.
    rewrite pow2_add. ring.
  - replace (e + Z.max (Z.neg p) 0)%Z with e by lia. done.
Qed.

Lemma brackets_floor (mrs : shr_record) (x : Q) :
  brackets mrs x → (inject_Z (shr_m mrs) <= x < inject_Z (shr_m mrs) + 1)%Q.
Proof. unfold brackets. destruct (shr_r mrs), (shr_s mrs); intros; lra. Qed.

Lemma round_nearest_even_near (mrs : shr_record) (x : Q) :
  brackets mrs x →
  let m' := round_nearest_even (shr_m mrs) (loc_of_shr_record mrs) in
  (shr_m mrs ≤ m' ≤ shr_m mrs + 1)%Z
  ∧ (inject_Z m' - (1 # 2) <= x <= inject_Z m' + (1 # 2))%Q.
Proof.
  destruct mrs as [m r s]. unfold brackets. cbn [shr_m shr_r shr_s].
  assert (inject_Z (m + 1) == inject_Z m + 1)%Q as E
    by (rewrite inject_Z_plus; reflexivity).
  destruct r, s; cbn [loc_of_shr_record round_nearest_even]; intros Hx;
    try destruct (Z.even m); split; try lia; lra.
Qed.
Lemma shr_m_of_loc (m : Z) (l : location) : shr_m (shr_record_of_loc m l) = m.
Proof. destruct l as [|[]]; reflexivity. Qed.

Lemma Zdigits2_bound (m : Z) : (0 ≤ m)%Z → (0 ≤ Zdigits2 m)%Z ∧ (m < 2 ^ Zdigits2 m)%Z.
Proof.
  intros Hm. destruct m as [|p|p]; [| |lia].
  - cbn. split; [lia|reflexivity].
  - cbn [Zdigits2]. split; [lia|]. apply digits2_pos_bounds.
Qed.

Lemma Zdigits2_le (m k : Z) : (0 ≤ k)%Z → (0 ≤ m < 2 ^ k)%Z → (Zdigits2 m ≤ k)%Z.
Proof.
  intros Hk [Hm Hlt]. destruct m as [|p|p]; [cbn; lia| |lia].
  cbn [Zdigits2]. pose proof (digits2_pos_bounds p) as [Hlo _].
  destruct (Z_le_gt_dec (Z.pos (digits2_pos p)) k) as [|Hgt]; [done|].
  assert (2 ^ k ≤ 2 ^ (Z.pos (digits2_pos p) - 1))%Z
    by (apply Z.pow_le_mono_r; lia).
  lia.
Qed.

Lemma binary_round_aux_spec (mx ex : Z) (lx : location) (v : Q) :
  (0 ≤ mx)%Z →
  brackets (shr_record_of_loc mx lx) (v * pow2 (- ex)) →
  let e' : Z := Z.max ex (fexp prec emax (Zdigits2 mx + ex)) in
  (e' < emax - prec)%Z →
  ∃ m' : Z,
    (0 ≤ m')%Z
    ∧ (inject_Z m' - (1 # 2) <= v * pow2 (- e') <= inject_Z m' + (1 # 2))%Q
    ∧ ((m' = 0%Z ∧ binary_round_aux prec emax false mx ex lx = S754_zero false)
       ∨ ∃ (m : positive) (e : Z),
           binary_round_aux prec emax false mx ex lx = S754_finite false m e
                ∧ (e' ≤ e ≤ e' + 1)%Z
                ∧ (inject_Z (Zpos m) * pow2 e == inject_Z m' * pow2 e')%Q).
Proof.
  intros Hmx Hv e' He'.
  unfold binary_round_aux, shr_fexp.
  pose proof (shr_brackets (shr_record_of_loc mx lx) ex
                (fexp prec emax (Zdigits2 mx + ex) - ex) v) as H1.
  rewrite shr_m_of_loc in H1. specialize (H1 Hmx Hv).
  destruct (shr (shr_record_of_loc mx lx) ex
              (fexp prec emax (Zdigits2 mx + ex) - ex)) as [mrs1 e1].
  cbn [fst snd] in H1. destruct H1 as (He1 & Hm1 & Hb1).
  assert (e1 = e') as -> by (subst e'; lia).
  (* the truncated mantissa has at most [prec] bits *)
  assert (shr_m mrs1 < 2 ^ prec)%Z as Hlt1.
  { apply brackets_floor in Hv. rewrite shr_m_of_loc in Hv.
    apply brackets_floor in Hb1.
    destruct (Zdigits2_bound mx Hmx) as [Hd0 Hd].
    assert (inject_Z mx + 1 <= pow2 (Zdigits2 mx))%Q as Hd'.
    { rewrite pow2_inject by done.
      change 1%Q with (inject_Z 1). rewrite <- inject_Z_plus.
      rewrite <- Zle_Qle. lia. }
    assert (pow2 (Zdigits2 mx) * pow2 (ex - e') <= pow2 prec)%Q as Hp.
    { rewrite <- pow2_add. apply pow2_le.
      subst e'. unfold fexp, emin, prec, emax. lia. }
    assert (v * pow2 (- e') == v * pow2 (- ex) * pow2 (ex - e'))%Q as Hs.
    { rewrite <- Qmult_assoc, <- pow2_add.
      replace (- ex + (ex - e'))%Z with (- e')%Z by lia. reflexivity. }
    pose proof (pow2_pos (ex - e')) as Hpos.
    assert (v * pow2 (- ex) * pow2 (ex - e') < pow2 (Zdigits2 mx) * pow2 (ex - e'))%Q.
    { apply Qmult_lt_compat_r; [done|]. lra. }
    assert (inject_Z (shr_m mrs1) < pow2 prec)%Q as Hq by lra.
    rewrite pow2_inject in Hq by (unfold prec; lia).
    rewrite <- Zlt_Qlt in Hq. done. }
  pose proof (round_nearest_even_near mrs1 _ Hb1) as [Hr1 Hr2].
  set (m' := round_nearest_even (shr_m mrs1) (loc_of_shr_record mrs1)) in *.
  exists m'. split; [lia|]. split; [done|].
  assert (emin prec emax ≤ e')%Z as Hemin
    by (subst e'; unfold fexp, emin, prec, emax; lia).
  cbn [shr_record_of_loc].
  destruct (Z.eq_dec m' 0%Z) as [Hz|Hnz].
  - left. split; [done|]. rewrite Hz. cbn [Zdigits2].
    unfold fexp, emin, prec, emax in *.
    destruct (Z.max (0 + e' - 53) (3 - 1024 - 53) - e')%Z eqn:En; [| lia |];
      reflexivity.
  - right. destruct (Z.eq_dec m' (2 ^ prec)%Z) as [Htop|Hntop].
    + rewrite Htop.
      exists (2 ^ 52)%positive, (e' + 1)%Z.
      replace (fexp prec emax (Zdigits2 (2 ^ prec) + e') - e')%Z with 1%Z
        by (unfold fexp, emin, prec, emax in *; cbn [Zdigits2];
            change (Zdigits2 (2 ^ 53)) with 54%Z; lia).
      cbn [shr SpecFloat.iter_pos]. 
      change (shr_1 {| shr_m := 2 ^ prec; shr_r := false; shr_s := false |})
        with {| shr_m := Z.pos (2 ^ 52); shr_r := false; shr_s := false |}.
      cbn [shr_m].
      replace (e' + 1 <=? emax - prec)%Z with true
        by (symmetry; apply Z.leb_le; lia).
      split; [done|]. split; [lia|].
      rewrite pow2_add. change (pow2 1) with 2%Q.
      change (inject_Z (Z.pos (2 ^ 52))) with (inject_Z (2 ^ 52)).
      change (inject_Z (2 ^ prec)) with (2 * inject_Z (2 ^ 52))%Q.
      ring.
    + assert (0 < m' < 2 ^ prec)%Z as Hrange by lia.
      destruct m' as [|p|p] eqn:Em; [lia| |lia].
      exists p, e'.
      assert (Zdigits2 (Z.pos p) ≤ prec)%Z as Hd
        by (apply Zdigits2_le; [unfold prec|]; lia).
      assert (fexp prec emax (Zdigits2 (Z.pos p) + e') - e' ≤ 0)%Z as Hn
        by (unfold fexp, emin, prec, emax in *; lia).
      destruct (fexp prec emax (Zdigits2 (Z.pos p) + e') - e')%Z eqn:En;
        [| lia |]; cbn [shr shr_m];
        (replace (e' <=? emax - prec)%Z with true
           by (symmetry; apply Z.leb_le; lia));
        (split; [done|]); (split; [lia|]); reflexivity.
Qed.
Lemma pow2_le_inv (a b : Z) : (pow2 a <= pow2 b)%Q → (a ≤ b)%Z.
Proof.
  intros H. destruct (Z_le_gt_dec a b) as [|Hgt]; [done|].
  assert (pow2 (b + 1) <= pow2 a)%Q as H1 by (apply pow2_le; lia).
  rewrite pow2_add in H1. change (pow2 1) with 2%Q in H1.
  pose proof (pow2_pos b). lra.
Qed.

(** Two integers within a half of the same number. *)
Lemma round_le (m : Z) (x : Q) (b : Z) :
  (inject_Z m - (1 # 2) <= x)%Q → (x <= inject_Z b)%Q → (m ≤ b)%Z.
Proof.
  intros H1 H2. assert (inject_Z m < inject_Z (b + 1))%Q as H.
  { rewrite inject_Z_plus. change (inject_Z 1) with 1%Q. lra. }
  rewrite <- Zlt_Qlt in H. lia.
Qed.

Lemma round_ge (m : Z) (x : Q) (b : Z) :
  (x <= inject_Z m + (1 # 2))%Q → (inject_Z b <= x)%Q → (b ≤ m)%Z.
Proof.
  intros H1 H2. assert (inject_Z b < inject_Z (m + 1))%Q as H.
  { rewrite inject_Z_plus. change (inject_Z 1) with 1%Q. lra. }
  rewrite <- Zlt_Qlt in H. lia.
Qed.

Lemma scale_back (x : Q) (e : Z) : (x * pow2 (- e) * pow2 e == x)%Q.
Proof.
  rewrite <- Qmult_assoc, (Qmult_comm (pow2 (- e))), pow2_opp. ring.
Qed.

Lemma scale_back_r (x : Q) (e : Z) : (x * pow2 e * pow2 (- e) == x)%Q.
Proof. rewrite <- Qmult_assoc, pow2_opp. ring. Qed.

(** From the rounded mantissa to the rounded value. *)
Lemma rounded_error (m : Z) (v : Q) (e : Z) :
  (inject_Z m - (1 # 2) <= v * pow2 (- e) <= inject_Z m + (1 # 2))%Q →
  (inject_Z m * pow2 e - (1 # 2) * pow2 e <= v
   ∧ v <= inject_Z m * pow2 e + (1 # 2) * pow2 e)%Q.
Proof.
  intros [H1 H2]. pose proof (pow2_pos e) as He.
  pose proof (scale_back v e) as Hs.
  apply (Qmult_le_compat_r _ _ (pow2 e)) in H1; [|lra].
  apply (Qmult_le_compat_r _ _ (pow2 e)) in H2; [|lra].
  rewrite Hs in H1, H2. split; lra.
Qed.

Lemma rounded_le (m : Z) (v : Q) (e b : Z) :
  (e ≤ 0)%Z →
  (inject_Z m - (1 # 2) <= v * pow2 (- e))%Q → (v <= inject_Z b)%Q →
  (inject_Z m * pow2 e <= inject_Z b)%Q.
Proof.
  intros He H1 H2. pose proof (pow2_pos (- e)) as Hp.
  assert (v * pow2 (- e) <= inject_Z (b * 2 ^ (- e)))%Q as H3.
  { rewrite inject_Z_mult, <- pow2_inject by lia.
    apply Qmult_le_compat_r; lra. }
  pose proof (round_le _ _ _ H1 H3) as H4.
  rewrite Zle_Qle, inject_Z_mult, <- pow2_inject in H4 by lia.
  apply (Qmult_le_compat_r _ _ (pow2 e)) in H4; [|pose proof (pow2_pos e); lra].
  rewrite scale_back in H4. done.
Qed.

(** *** Conversion, division and multiplication *)

Lemma iter_xO (mx d : positive) : Z.pos (Pos.iter xO mx d) = (Z.pos mx * 2 ^ Z.pos d)%Z.
Proof.
  induction d as [|d IH] using Pos.peano_ind.
  - cbn [Pos.iter]. lia.
  - rewrite Pos.iter_succ, Pos2Z.inj_xO, IH, Pos2Z.inj_succ, Z.pow_succ_r by lia.
    lia.
Qed.

Lemma shl_align_spec (mx : positive) (ex ex' : Z) :
  ((shl_align mx ex ex').2 ≤ ex)%Z
  ∧ (inject_Z (Z.pos (shl_align mx ex ex').1) * pow2 (shl_align mx ex ex').2
     == inject_Z (Z.pos mx) * pow2 ex)%Q.
Proof.
  unfold shl_align. destruct (ex' - ex)%Z as [|d|d] eqn:Ed; cbn [fst snd].
  - split; [lia|reflexivity].
  - split; [lia|reflexivity].
  - split; [lia|]. rewrite iter_xO, inject_Z_mult, <- pow2_inject by lia.
    rewrite <- Qmult_assoc, <- pow2_add.
    replace (Z.pos d + ex')%Z with ex by lia. reflexivity.
Qed.

(** The position of a positive number given as mantissa and exponent. *)
Lemma digits_position (m : positive) (e k : Z) :
  (inject_Z (Z.pos m) * pow2 e < pow2 k)%Q → (Z.pos (digits2_pos m) + e ≤ k)%Z.
Proof.
  intros H. pose proof (digits2_pos_bounds m) as [Hlo _].
  rewrite Zle_Qle, <- pow2_inject in Hlo by lia.
  pose proof (pow2_pos e) as He.
  apply (Qmult_le_compat_r _ _ (pow2 e)) in Hlo; [|lra].
  rewrite <- pow2_add in Hlo.
  assert (pow2 (Z.pos (digits2_pos m) - 1 + e) < pow2 k)%Q as Hlt by lra.
  apply pow2_lt_inv in Hlt. lia.
Qed.

Lemma digits_position_le (m : positive) (e k : Z) :
  (inject_Z (Z.pos m) * pow2 e <= pow2 k)%Q → (Z.pos (digits2_pos m) + e ≤ k + 1)%Z.
Proof.
  intros H. apply digits_position. rewrite pow2_add. change (pow2 1) with 2%Q.
  pose proof (pow2_pos k). lra.
Qed.

Lemma digits_position_ge (m : positive) (e k : Z) :
  (pow2 k <= inject_Z (Z.pos m) * pow2 e)%Q → (k < Z.pos (digits2_pos m) + e)%Z.
Proof.
  intros H. pose proof (digits2_pos_bounds m) as [_ Hhi].
  rewrite Zlt_Qlt, <- pow2_inject in Hhi by lia.
  pose proof (pow2_pos e) as He.
  apply (Qmult_lt_compat_r _ _ (pow2 e)) in Hhi; [|lra].
  rewrite <- pow2_add in Hhi. apply pow2_lt_inv. lra.
Qed.

(** [float(n)] is exact below [2 ^ 53]. *)
Lemma float_of_int_exact (n : nat) :
  (0 < n)%nat → (Z.of_nat n < 2 ^ 53)%Z →
  ∃ (m : positive) (e : Z), float_of_int n = S754_finite false m e
         ∧ (inject_Z (Z.pos m) * pow2 e == inject_Z (Z.of_nat n))%Q.
Proof.
  intros Hpos Hlt. unfold float_of_int.
  destruct (Z.of_nat n) as [|p|p] eqn:En; [lia| |lia].
  cbn [binary_normalize]. unfold binary_round.
  pose proof (shl_align_spec p 0 (fexp prec emax (Z.pos (digits2_pos p) + 0)))
    as [Hez Hval].
  destruct (shl_align p 0 (fexp prec emax (Z.pos (digits2_pos p) + 0)))
    as [mz ez]. cbn [fst snd] in Hez, Hval.
  rewrite pow2_0, Qmult_1_r in Hval.
  assert (inject_Z (Z.pos p) < pow2 53)%Q as Hlt'.
  { rewrite pow2_inject by lia. rewrite <- Zlt_Qlt. done. }
  assert (Z.pos (digits2_pos mz) + ez ≤ 53)%Z as Hd.
  { apply digits_position. lra. }
  destruct (binary_round_aux_spec (Z.pos mz) ez loc_Exact (inject_Z (Z.pos p)))
    as (m' & Hm' & Hnear & Hres).
  { lia. }
  { unfold brackets. cbn [shr_record_of_loc shr_m shr_r shr_s].
    rewrite <- Hval. apply scale_back_r. }
  { cbn [Zdigits2]. unfold fexp, emin, prec, emax. lia. }
  cbn [Zdigits2] in Hnear, Hres.
  set (e' := Z.max ez (fexp prec emax (Z.pos (digits2_pos mz) + ez))) in *.
  assert (e' ≤ 0)%Z as He' by (subst e'; unfold fexp, emin, prec, emax; lia).
  assert (inject_Z (Z.pos p) * pow2 (- e') == inject_Z (Z.pos p * 2 ^ (- e')))%Q
    as Hint by (rewrite inject_Z_mult, <- pow2_inject by lia; reflexivity).
  rewrite Hint in Hnear. destruct Hnear as [Hn1 Hn2].
  assert (m' = Z.pos p * 2 ^ (- e'))%Z as Hm.
  { apply Z.le_antisymm; [eapply round_le | eapply round_ge]; try eassumption;
      apply Qle_refl. }
  destruct Hres as [[Hz _]|(m & e & Hr & _ & Hv)].
  - assert (0 < 2 ^ (- e'))%Z by (apply Z.pow_pos_nonneg; lia). nia.
  - exists m, e. split; [done|]. rewrite Hv, Hm, inject_Z_mult, <- pow2_inject by lia.
    apply scale_back.
Qed.
Lemma new_location_spec (d r : Z) :
  (0 ≤ r < d)%Z →
  match new_location d r with
  | loc_Exact => r = 0%Z
  | loc_Inexact Lt => (0 < 2 * r < d)%Z
  | loc_Inexact Eq => (2 * r = d)%Z
  | loc_Inexact Gt => (d < 2 * r)%Z
  end.
Proof.
  intros Hr. unfold new_location, new_location_even, new_location_odd.
  destruct (Z.even d) eqn:Hev; destruct (Z.eqb_spec r 0) as [|Hr0]; try done.
  - destruct (Z.compare_spec (2 * r) d); lia.
  - assert (Z.odd d = true) as Hodd by (rewrite <- Z.negb_even, Hev; done).
    apply Z.odd_spec in Hodd as [k ->].
    destruct (Z.compare_spec (2 * r + 1) (2 * k + 1)); lia.
Qed.

(** The quotient and its remainder bracket the exact ratio. *)
Lemma quotient_brackets (a d q r : Z) :
  (0 < d)%Z → (a = d * q + r)%Z → (0 ≤ r < d)%Z →
  brackets (shr_record_of_loc q (new_location d r)) (inject_Z a / inject_Z d).
Proof.
  intros Hd -> Hr. pose proof (new_location_spec d r Hr) as Hloc.
  assert (0 < inject_Z d)%Q as Hd' by (rewrite Zlt_Qlt in Hd; done).
  apply (brackets_proper _ (inject_Z q + inject_Z r / inject_Z d)).
  { rewrite inject_Z_plus, inject_Z_mult. field. lra. }
  assert (0 <= inject_Z r)%Q as Hr0 by (rewrite <- (Zle_Qle 0); lia).
  unfold brackets.
  destruct (new_location d r) as [|[]]; cbn [shr_record_of_loc shr_m shr_r shr_s].
  - subst r. change (inject_Z 0) with 0%Q. field. lra.
  - assert (inject_Z r / inject_Z d == 1 # 2)%Q as E; [|rewrite E; reflexivity].
    rewrite <- Hloc, inject_Z_mult. change (inject_Z 2) with 2%Q. field.
    rewrite <- Hloc, inject_Z_mult in Hd'. change (inject_Z 2) with 2%Q in Hd'.
    lra.
  - destruct Hloc as [H1 H2]. rewrite Zlt_Qlt in H1, H2.
    rewrite inject_Z_mult in H1, H2. change (inject_Z 2) with 2%Q in *.
    change (inject_Z 0) with 0%Q in *.
    assert (0 < inject_Z r / inject_Z d)%Q
      by (apply Qlt_shift_div_l; lra).
    assert (inject_Z r / inject_Z d < 1 # 2)%Q
      by (apply Qlt_shift_div_r; lra).
    lra.
  - rewrite Zlt_Qlt, inject_Z_mult in Hloc. change (inject_Z 2) with 2%Q in *.
    destruct Hr as [_ Hr]. rewrite Zlt_Qlt in Hr.
    assert ((1 # 2) < inject_Z r / inject_Z d)%Q
      by (apply Qlt_shift_div_l; lra).
    assert (inject_Z r / inject_Z d < 1)%Q
      by (apply Qlt_shift_div_r; lra).
    lra.
Qed.

Lemma SFdiv_core_binary_spec (m1 : positive) (e1 : Z) (m2 : positive) (e2 : Z) :
  let e' : Z := Z.min (fexp prec emax (Z.pos (digits2_pos m1) + e1
                                   - (Z.pos (digits2_pos m2) + e2)))
                  (e1 - e2) in
  ∃ (q : Z) (l : location), SFdiv_core_binary prec emax (Z.pos m1) e1 (Z.pos m2) e2 = (q, e', l)
         ∧ (0 ≤ q)%Z
         ∧ brackets (shr_record_of_loc q l)
             (inject_Z (Z.pos m1) * pow2 e1 / (inject_Z (Z.pos m2) * pow2 e2)
              * pow2 (- e')).
Proof.
  intros e'. unfold SFdiv_core_binary. cbn [Zdigits2]. fold e'.
  set (s := (e1 - e2 - e')%Z).
  assert (0 ≤ s)%Z as Hs by (subst s e'; lia).
  set (m' := match s with
             | 0%Z => Z.pos m1
             | Z.pos _ => Z.shiftl (Z.pos m1) s
             | Z.neg _ => 0%Z
             end).
  assert (m' = Z.pos m1 * 2 ^ s)%Z as Hm'.
  { subst m'. destruct s as [|p|p] eqn:Es; [lia| |lia].
    apply Z.shiftl_mul_pow2. lia. }
  pose proof (Z_div_mod m' (Z.pos m2) eq_refl) as Hdiv.
  destruct (Z.div_eucl m' (Z.pos m2)) as [q r]. destruct Hdiv as [Hdiv Hr].
  exists q, (new_location (Z.pos m2) r). split; [done|].
  assert (0 < 2 ^ s)%Z by (apply Z.pow_pos_nonneg; lia).
  split; [nia|].
  eapply brackets_proper; [|apply (quotient_brackets m' (Z.pos m2) q r); done].
  rewrite Hm', inject_Z_mult, <- pow2_inject by done.
  assert (pow2 s == pow2 e1 * pow2 (- e2) * pow2 (- e'))%Q as ->.
  { rewrite <- !pow2_add. subst s.
    replace (e1 + - e2 + - e')%Z with (e1 - e2 - e')%Z by lia. reflexivity. }
  pose proof (pow2_opp e2) as Ho. pose proof (pow2_pos e2).
  pose proof (pow2_pos (- e2)).
  assert (0 < inject_Z (Z.pos m2))%Q by (rewrite <- (Zlt_Qlt 0); lia).
  assert (pow2 (- e2) == / pow2 e2)%Q as ->.
  { apply (Qmult_inj_l _ _ (pow2 e2)); [lra|]. rewrite Ho. field. lra. }
  field. split; lra.
Qed.
Lemma mantissa_lt (m : positive) (e : Z) :
  (inject_Z (Z.pos m) * pow2 e < pow2 (Z.pos (digits2_pos m) + e))%Q.
Proof.
  pose proof (digits2_pos_bounds m) as [_ Hhi].
  rewrite Zlt_Qlt, <- pow2_inject in Hhi by lia.
  rewrite pow2_add. apply Qmult_lt_compat_r; [apply pow2_pos|done].
Qed.

Lemma ratio_le_1 (k n : nat) :
  (0 < k ≤ n)%nat →
  (0 < inject_Z (Z.of_nat k) / inject_Z (Z.of_nat n) <= 1)%Q.
Proof.
  intros Hkn.
  assert (0 < inject_Z (Z.of_nat k))%Q by (rewrite <- (Zlt_Qlt 0); lia).
  assert (0 < inject_Z (Z.of_nat n))%Q by (rewrite <- (Zlt_Qlt 0); lia).
  assert (inject_Z (Z.of_nat k) <= inject_Z (Z.of_nat n))%Q
    by (rewrite <- Zle_Qle; lia).
  split; [apply Qlt_shift_div_l; lra | apply Qle_shift_div_r; lra].
Qed.

(** [k / n] for [0 < k ≤ n < 2 ^ 53] is the ratio rounded at some exponent
    [e ≤ -52]. *)
Lemma true_divide_rounding (k n : nat) :
  (0 < k ≤ n)%nat → (Z.of_nat n < 2 ^ 53)%Z →
  ∃ (m' e : Z) (x : pyfloat),
    true_divide k n = Some x
    ∧ (e ≤ -52)%Z ∧ (0 ≤ m')%Z
    ∧ (inject_Z m' - (1 # 2)
       <= inject_Z (Z.of_nat k) / inject_Z (Z.of_nat n) * pow2 (- e)
       <= inject_Z m' + (1 # 2))%Q
    ∧ ((m' = 0%Z ∧ x = S754_zero false)
       ∨ ∃ (m : positive) (ex : Z), x = S754_finite false m ex ∧ (e ≤ ex ≤ e + 1)%Z
           ∧ (inject_Z (Z.pos m) * pow2 ex == inject_Z m' * pow2 e)%Q).
Proof.
  intros Hkn Hn. destruct n as [|n']; [lia|]. unfold true_divide.
  destruct (float_of_int_exact k) as (ma & ea & Ha & Hva); [lia|lia|].
  destruct (float_of_int_exact (S n')) as (mb & eb & Hb & Hvb); [lia|lia|].
  rewrite Ha, Hb. cbn [SFdiv].
  destruct (SFdiv_core_binary_spec ma ea mb eb) as (q & l & Hcore & Hq & Hbr).
  rewrite Hcore. cbn [xorb].
  set (e0 := Z.min (fexp prec emax (Z.pos (digits2_pos ma) + ea
                                    - (Z.pos (digits2_pos mb) + eb)))
                   (ea - eb)) in *.
  set (v := (inject_Z (Z.of_nat k) / inject_Z (Z.of_nat (S n')))%Q).
  pose proof (ratio_le_1 k (S n') Hkn) as Hv. fold v in Hv.
  apply (brackets_proper _ _ (v * pow2 (- e0))) in Hbr;
    [|subst v; rewrite Hva, Hvb; reflexivity].
  assert (e0 ≤ -53)%Z as He0.
  { assert (Z.pos (digits2_pos ma) + ea ≤ Z.pos (digits2_pos mb) + eb)%Z.
    { apply digits_position. pose proof (mantissa_lt mb eb) as Hlt.
      rewrite Hva. rewrite Hvb in Hlt.
      assert (inject_Z (Z.of_nat k) <= inject_Z (Z.of_nat (S n')))%Q
        by (rewrite <- Zle_Qle; lia).
      lra. }
    subst e0. unfold fexp, emin, prec, emax. lia. }
  assert (Zdigits2 q + e0 ≤ 1)%Z as Hdq.
  { destruct q as [|pq|pq]; [cbn; lia| |lia]. cbn [Zdigits2].
    apply (digits_position_le pq e0 0).
    apply brackets_floor in Hbr. rewrite shr_m_of_loc in Hbr.
    destruct Hbr as [Hbr _]. pose proof (pow2_pos e0).
    apply (Qmult_le_compat_r _ _ (pow2 e0)) in Hbr; [|lra].
    rewrite scale_back in Hbr. rewrite pow2_0. lra. }
  destruct (binary_round_aux_spec q e0 l v Hq Hbr) as (m' & Hm' & Hnear & Hres).
  { unfold fexp, emin, prec, emax. lia. }
  exists m', (Z.max e0 (fexp prec emax (Zdigits2 q + e0))). eexists.
  split; [reflexivity|]. split; [unfold fexp, emin, prec, emax; lia|].
  split; [done|]. split; [done|]. exact Hres.
Qed.

(** *** The percentage of line 172 *)

Lemma float_of_int_100 : float_of_int 100 = S754_finite false 7036874417766400 (-46).
Proof. reflexivity. Qed.

(** Line 172 in binary64: the result is within [2 ^ -45] of [100 * k / n]
    and between 0 and 100. *)
Lemma percentage_binary64_rounding (k n : nat) :
  (k ≤ n)%nat → (0 < n)%nat → (Z.of_nat n < 2 ^ 53)%Z →
  ∃ (x : pyfloat) (v : Q),
    percentage_binary64 k n = Some x
    ∧ float_value x = Some v
    ∧ (0 <= v <= 100)%Q
    ∧ (Qabs (v - 100 * inject_Z (Z.of_nat k) / inject_Z (Z.of_nat n))
       <= 1 # 2 ^ 45)%Q.
Proof.
  intros Hkn Hn0 Hn. unfold percentage_binary64.
  destruct (Nat.eq_dec k 0) as [->|Hk].
  - destruct n as [|n']; [lia|]. cbn [true_divide mbind option_bind].
    destruct (float_of_int_exact (S n')) as (mb & eb & Hb & _); [lia|lia|].
    rewrite Hb, float_of_int_100. exists (S754_zero false), 0%Q.
    split; [reflexivity|]. split; [reflexivity|]. split; [lra|].
    apply Qabs_Qle_condition.
    assert (100 * inject_Z (Z.of_nat 0) / inject_Z (Z.of_nat (S n')) == 0)%Q as E.
    { change (inject_Z (Z.of_nat 0)) with 0%Q. unfold Qdiv. ring. }
    rewrite E. split; [vm_compute|vm_compute]; discriminate.
  - destruct (true_divide_rounding k n) as (m1 & e1 & x1 & Htd & He1 & Hm1 & Hnear1 & Hres1);
      [lia|done|].
    rewrite Htd. cbn [mbind option_bind]. rewrite float_of_int_100.
    set (v1 := (inject_Z (Z.of_nat k) / inject_Z (Z.of_nat n))%Q) in *.
    pose proof (ratio_le_1 k n ltac:(lia)) as Hv1. fold v1 in Hv1.
    assert (100 * inject_Z (Z.of_nat k) / inject_Z (Z.of_nat n) == 100 * v1)%Q
      as Egoal by (subst v1; unfold Qdiv; ring).
    pose proof (rounded_error _ _ _ Hnear1) as [Herr1 Herr1'].
    assert (inject_Z m1 * pow2 e1 <= 1)%Q as Hle1.
    { change 1%Q with (inject_Z 1). apply (rounded_le m1 v1 e1 1); [lia| |];
        [apply Hnear1|change (inject_Z 1) with 1%Q; lra]. }
    assert (pow2 e1 <= 1 # 2 ^ 52)%Q as Hp1.
    { change (1 # 2 ^ 52)%Q with (pow2 (-52)). apply pow2_le. done. }
    pose proof (pow2_pos e1) as Hp1'.
    assert (0 <= inject_Z m1)%Q as Hm1' by (rewrite <- (Zle_Qle 0); done).
    destruct Hres1 as [[Hz ->]|(mq & ex & -> & Hex & Hvq)].
    + exists (S754_zero false), 0%Q.
      split; [reflexivity|]. split; [reflexivity|]. split; [lra|].
      apply Qabs_Qle_condition. rewrite Egoal.
      subst m1. change (inject_Z 0) with 0%Q in *.
      assert ((1 # 2 ^ 45) == 128 * (1 # 2 ^ 52))%Q as -> by reflexivity.
      split; lra.
    + cbn [SFmul xorb].
      set (X1 := (inject_Z (Z.pos mq) * pow2 ex)%Q) in *.
      assert (0 <= inject_Z m1 * pow2 e1)%Q as HX0
        by (apply Qmult_le_0_compat; lra).
      assert (inject_Z (Z.pos (mq * 7036874417766400)) * pow2 (ex + -46)
              == X1 * 100)%Q as Hprod.
      { rewrite Pos2Z.inj_mul, inject_Z_mult, pow2_add. subst X1.
        assert (inject_Z (Z.pos 7036874417766400) * pow2 (-46) == 100)%Q as <-
          by reflexivity.
        ring. }
      destruct (binary_round_aux_spec (Z.pos (mq * 7036874417766400))
                  (ex + -46) loc_Exact (X1 * 100))
        as (m2 & Hm2 & Hnear2 & Hres2).
      { lia. }
      { unfold brackets. cbn [shr_record_of_loc shr_m shr_r shr_s].
        rewrite <- Hprod. apply scale_back_r. }
      { assert (Z.pos (digits2_pos (mq * 7036874417766400)) + (ex + -46) ≤ 7)%Z.
        { apply digits_position. rewrite Hprod.
          change (pow2 7) with 128%Q. lra. }
        cbn [Zdigits2]. unfold fexp, emin, prec, emax. lia. }
      cbn [Zdigits2] in Hnear2, Hres2.
      set (e2 := Z.max (ex + -46)
                   (fexp prec emax
                      (Z.pos (digits2_pos (mq * 7036874417766400)) + (ex + -46))))
        in *.
      assert (e2 ≤ -46)%Z as He2.
      { assert (Z.pos (digits2_pos (mq * 7036874417766400)) + (ex + -46) ≤ 7)%Z.
        { apply digits_position. rewrite Hprod.
          change (pow2 7) with 128%Q. lra. }
        subst e2. unfold fexp, emin, prec, emax. lia. }
      pose proof (rounded_error _ _ _ Hnear2) as [Herr2 Herr2'].
      assert (inject_Z m2 * pow2 e2 <= 100)%Q as Hle2.
      { change 100%Q with (inject_Z 100). apply (rounded_le m2 (X1 * 100) e2 100);
          [lia|apply Hnear2|change (inject_Z 100) with 100%Q; lra]. }
      assert (pow2 e2 <= 1 # 2 ^ 46)%Q as Hp2.
      { change (1 # 2 ^ 46)%Q with (pow2 (-46)). apply pow2_le. done. }
      pose proof (pow2_pos e2) as Hp2'.
      assert (0 <= inject_Z m2)%Q as Hm2' by (rewrite <- (Zle_Qle 0); done).
      assert (0 <= inject_Z m2 * pow2 e2)%Q as HV0
        by (apply Qmult_le_0_compat; lra).
      assert ((1 # 2 ^ 45) == 2 * (1 # 2 ^ 46))%Q as E45 by reflexivity.
      assert ((1 # 2 ^ 52) == (1 # 64) * (1 # 2 ^ 46))%Q as E52 by reflexivity.
      assert (∀ v, v == inject_Z m2 * pow2 e2 →
                (0 <= v <= 100)%Q
                ∧ (Qabs (v - 100 * inject_Z (Z.of_nat k) / inject_Z (Z.of_nat n))
                   <= 1 # 2 ^ 45)%Q)%Q as Hfinal.
      { intros v Hv. split; [lra|].
        apply Qabs_Qle_condition. rewrite Egoal, E45. rewrite E52 in Hp1.
        split; lra. }
      destruct Hres2 as [[Hz ->]|(m & e & -> & _ & Hv)].
      * exists (S754_zero false), 0%Q.
        split; [reflexivity|]. split; [reflexivity|]. apply Hfinal.
        subst m2. change (inject_Z 0) with 0%Q. ring.
      * eexists _, _. split; [reflexivity|]. split; [reflexivity|].
        apply Hfinal. rewrite <- Hv. ring.
Qed.

Lemma percentage_binary64_total (k n : nat) :
  n ≠ O → is_Some (percentage_binary64 k n).
Proof. intros Hn. destruct n as [|n]; [done|]. by eexists. Qed.

(** *** The scores on floats *)

Lemma append_value_present {A : Type} (m : gmap pystr (list A)) tech ps (p : A) :
  m !! tech = Some ps → append_value m tech p = Some (<[tech:=ps ++ [p]]> m).
Proof. intros Hm. unfold append_value. by rewrite Hm. Qed.

Section scores_with.
Context {A : Type}.
Variable pcf : nat → nat → option A.
Variables (h : gmap loc (gmap pystr bool)) (evals : list evaluation).
Variable pct : pystr → pystr → A.

(** One pass over the technologies appends one score to each list. *)
Lemma scores_with_inner criterion (ts : list pystr) (m : gmap pystr (list A)) :
  NoDup ts →
  (∀ t, t ∈ ts → scored_with pcf h evals pct t criterion) →
  (∀ t, t ∈ ts → is_Some (m !! t)) →
  ∃ m', for_each (λ m tech,
            count ← count_selected h evals tech criterion;
            p ← pcf count (length evals);
            append_value m tech p) ts m = Some m'
        ∧ (∀ t, t ∈ ts → m' !! t = (λ ps, ps ++ [pct t criterion]) <$> m !! t)
        ∧ (∀ t, t ∉ ts → m' !! t = m !! t).
Proof.
  intros Hnd. revert m.
  induction Hnd as [|t ts Ht Hnd IH]; intros m Hsc Hin; cbn [for_each].
  { exists m. split; [done|]. split; [|done].
    intros t Ht. by apply elem_of_nil in Ht. }
  destruct (Hsc t) as (k & -> & Hk); [left|]. cbn [mbind option_bind].
  rewrite Hk. cbn [mbind option_bind].
  destruct (Hin t) as [ps Hps]; [left|].
  rewrite (append_value_present m t ps) by done. cbn [mbind option_bind].
  destruct (IH (<[t:=ps ++ [pct t criterion]]> m)) as (m' & Hm' & Hin' & Hout').
  - intros t' Ht'. apply Hsc. by right.
  - intros t' Ht'. rewrite lookup_insert_ne; [apply Hin; by right|].
    by intros <-.
  - exists m'. split; [done|]. split.
    + intros t' [->|Ht']%elem_of_cons.
      * rewrite Hout' by done. by rewrite lookup_insert_eq, Hps.
      * rewrite Hin' by done. rewrite lookup_insert_ne; [done|]. by intros <-.
    + intros t' Ht'. rewrite Hout'.
      * apply lookup_insert_ne. intros <-. apply Ht'. left.
      * intros ?. apply Ht'. by right.
Qed.

(** The passes over the criteria extend every list in criteria order. *)
Lemma scores_with_outer (techs crits : list pystr) (m : gmap pystr (list A))
    (acc : pystr → list A) :
  NoDup techs →
  (∀ t c, t ∈ techs → c ∈ crits → scored_with pcf h evals pct t c) →
  (∀ t, t ∈ techs → m !! t = Some (acc t)) →
  ∃ m', for_each (λ m criterion,
            for_each (λ m tech,
                count ← count_selected h evals tech criterion;
                p ← pcf count (length evals);
                append_value m tech p) techs m) crits m = Some m'
        ∧ ∀ t, t ∈ techs → m' !! t = Some (acc t ++ (pct t <$> crits)).
Proof.
  intros Hnd. revert m acc.
  induction crits as [|c crits IH]; intros m acc Hsc Hm; cbn [for_each].
  { exists m. split; [done|]. intros t Ht. rewrite Hm by done.
    by rewrite app_nil_r. }
  destruct (scores_with_inner c techs m Hnd) as (m1 & -> & Hin1 & _).
  { intros t Ht. apply Hsc; [done|left]. }
  { intros t Ht. rewrite Hm by done. eauto. }
  cbn [mbind option_bind].
  destruct (IH m1 (λ t, acc t ++ [pct t c])) as (m' & Hm' & Hres).
  { intros t c' Ht Hc'. apply Hsc; [done|by right]. }
  { intros t Ht. rewrite Hin1, Hm by done. done. }
  exists m'. split; [done|]. intros t Ht. rewrite Hres by done.
  by rewrite <- app_assoc.
Qed.

Lemma scores_with_init (techs : list pystr) t :
  t ∈ techs →
  foldl (λ (m : gmap pystr (list A)) tech, <[tech:=[]]> m) ∅ techs !! t = Some [].
Proof.
  intros Ht.
  assert (∀ m : gmap pystr (list A), (t ∈ techs ∨ m !! t = Some []) →
    foldl (λ (m : gmap pystr (list A)) tech, <[tech:=[]]> m) m techs !! t = Some [])
    as Hgen; [|by apply Hgen; left].
  clear Ht. induction techs as [|x techs IH]; intros m Hm; simpl.
  - destruct Hm as [Hm|Hm]; [by apply elem_of_nil in Hm|done].
  - apply IH. destruct Hm as [[->|Hm]%elem_of_cons|Hm].
    + right. apply lookup_insert_eq.
    + by left.
    + right. rewrite lookup_insert. by case_decide.
Qed.

Lemma scores_loop_with_spec (techs crits : list pystr) :
  NoDup techs →
  (∀ t c, t ∈ techs → c ∈ crits → scored_with pcf h evals pct t c) →
  ∃ m, scores_loop_with pcf techs crits h evals = Some m
       ∧ ∀ t, t ∈ techs → m !! t = Some (pct t <$> crits).
Proof.
  intros Hnd Hsc. unfold scores_loop_with.
  destruct (scores_with_outer techs crits
              (foldl (λ (m : gmap pystr (list A)) tech, <[tech:=[]]> m) ∅ techs)
              (λ _, []) Hnd Hsc) as (m & Hm & Hres).
  { intros t Ht. by apply scores_with_init. }
  exists m. split; [done|]. intros t Ht. by rewrite Hres.
Qed.
End scores_with.

(** The loop on exact rationals is the same loop. *)
Lemma scores_loop_exact :
  scores_loop = scores_loop_with percentage.
Proof. reflexivity. Qed.

Lemma tech_scores_binary64_spec s :
  records_ok (objects s) (evaluations s) → evaluations s ≠ [] →
  ∃ m, tech_scores_binary64 s = Some m
       ∧ ∀ t, t ∈ TECHNOLOGIES →
              m !! t
              = Some (binary64_of (objects s) (evaluations s) t <$> CRITERIA).
Proof.
  intros Hr Hne. apply scores_loop_with_spec; [apply NoDup_TECHNOLOGIES|].
  intros t c Ht Hc. exists (marks (objects s) (evaluations s) t c).
  split; [by apply count_selected_marks|].
  unfold binary64_of.
  destruct (percentage_binary64_total (marks (objects s) (evaluations s) t c)
              (length (evaluations s))) as [x ->]; [|done].
  by destruct (evaluations s).
Qed.

(** A run that returns, returns its state; scores that are computed are the
    computed scores. *)
Lemma run_trace_default s tr :
  wf s → run_trace s tr = Some (default s (run_trace s tr)).
Proof.
  intros Hwf. by destruct (run_trace_spec s tr Hwf) as (s' & new & -> & _).
Qed.

Lemma tech_scores_binary64_default s :
  wf s → evaluations s ≠ [] →
  tech_scores_binary64 s = Some (default ∅ (tech_scores_binary64 s)).
Proof.
  intros (_ & Hr & _) Hne.
  by destruct (tech_scores_binary64_spec s Hr Hne) as (m & -> & _).
Qed.

Lemma length_nonempty {A : Type} (xs : list A) (n : nat) :
  length xs = S n → xs ≠ [].
Proof. by destruct xs. Qed.

Lemma after_twenty_reached :
  run_trace initial_state twenty_session = Some after_twenty.
Proof. exact (run_trace_default initial_state twenty_session wf_initial). Qed.

(** ** Properties of the application *)

(** C1. The selections of a stored record are independent of the live grid:
    for every stored record and every sequence of later runs, each of which
    writes an arbitrary editor frame into the live grid (line 107) and may
    submit again, the run returns, the record is still in its place, and the
    matrix its selections refer to has the contents it had.  The copy of
    line 136 is shallow, so the record holds the very inner dictionaries of
    the grid it was taken from; the reset of lines 144-147 binds new ones to
    the live grid, which is why no later write reaches them. *)
Theorem record_selections_isolated s (tr : list interaction) (i : nat) e :
  wf s → evaluations s !! i = Some e →
  ∃ s', run_trace s tr = Some s'
        ∧ evaluations s' !! i = Some e
        ∧ snapshot (objects s') (selections e) = snapshot (objects s) (selections e)
        ∧ ∀ tech criterion,
            selected (objects s') e tech criterion
            = selected (objects s) e tech criterion.
Proof.
  intros Hwf He.
  destruct (run_trace_spec s tr Hwf) as (s' & new & Hrun & _ & Hev & _ & Hsnap).
  exists s'. split; [done|]. split.
  { rewrite Hev. by apply lookup_app_l_Some. }
  assert (snapshot (objects s') (selections e) = snapshot (objects s) (selections e))
    as Heq.
  { apply Hsnap. by eapply list_elem_of_lookup_2. }
  split; [done|]. intros tech criterion. unfold selected.
  by rewrite !get_cell_snapshot, Heq.
Qed.

Lemma record_selections_isolated_witness :
  ∃ s', run_trace after_alice later_session = Some s'
        ∧ evaluations s' !! 0 = Some alice_record
        ∧ snapshot (objects s') (selections alice_record)
          = snapshot (objects after_alice) (selections alice_record)
        ∧ ∀ tech criterion,
            selected (objects s') alice_record tech criterion
            = selected (objects after_alice) alice_record tech criterion.
Proof.
  apply (record_selections_isolated after_alice later_session 0 alice_record).
  - apply (bool_decide_unpack _). vm_compute. exact I.
  - vm_compute. reflexivity.
Defined.

(** The record of line 136 holds the addresses of the inner dictionaries of
    the grid it is taken from: the copy is one level deep. *)
Lemma copy_is_shallow s name_text comment_text now :
  strip name_text ≠ [] →
  ∃ r, last (evaluations (submit_button s name_text comment_text now).1) = Some r
       ∧ selections r = current_selections s.
Proof.
  intros Hname. rewrite submit_button_valid by done. simpl.
  eexists. by rewrite last_snoc.
Qed.

(** A write through one reference to an inner dictionary is seen through
    every other reference to it. *)
Lemma write_seen_through_alias :
  ∃ s', set_cell initial_state (lit "Tech A") (lit "Criteria 1") true = Some s'
        ∧ get_cell (objects initial_state) (current_selections initial_state)
            (lit "Tech A") (lit "Criteria 1") = Some false
        ∧ get_cell (objects s') (current_selections initial_state)
            (lit "Tech A") (lit "Criteria 1") = Some true.
Proof. eexists. split; [by vm_compute|]. split; by vm_compute. Qed.

(** C2. A submission whose evaluator name is empty or whitespace-only after
    trimming fails with the validation message and changes nothing: the
    state after it, and so the store, the grid and the comment, is the state
    before it. *)
Theorem blank_name_rejected s name_text comment_text now :
  strip name_text = [] →
  submit_button s name_text comment_text now
  = (s, st_error (lit "Please enter your name before submitting."))
  ∧ length (evaluations (submit_button s name_text comment_text now).1)
    = length (evaluations s).
Proof.
  intros Hblank. by rewrite submit_button_blank.
Qed.

Lemma blank_name_rejected_witness :
  submit_button after_alice (lit "  ") (lit "a comment") example_time
  = (after_alice, st_error (lit "Please enter your name before submitting."))
  ∧ length (evaluations (submit_button after_alice (lit "  ") (lit "a comment")
                           example_time).1)
    = length (evaluations after_alice).
Proof.
  apply (blank_name_rejected after_alice (lit "  ") (lit "a comment") example_time).
  vm_compute. reflexivity.
Defined.

(** A click on the submit control while the name widget is blank leaves the
    store as it was and shows the validation message. *)
Lemma blank_click_keeps_store s i :
  wf s → act i = ClickSubmit → strip (evaluator_input s) = [] →
  ∃ sp, script_run s i = Some sp
        ∧ evaluations sp.1 = evaluations s
        ∧ message sp.2
          = Some (st_error (lit "Please enter your name before submitting.")).
Proof.
  intros Hwf Hact Hblank. unfold script_run. rewrite Hact. cbn [widget_update clicked].
  destruct (sync_grid_write s (edited_df i) Hwf) as (s1 & -> & Hwf1 & (Hs1 & _)).
  cbn [mbind option_bind].
  assert (evaluator_input s1 = evaluator_input s ∧ evaluations s1 = evaluations s)
    as [Hname Hev] by by rewrite Hs1.
  rewrite submit_button_blank by by rewrite Hname.
  destruct (results_section_total s1) as [r ->]; [apply Hwf1|].
  cbn [mbind option_bind]. eexists. split; [done|]. by split.
Qed.

(** C3. A submission whose evaluator name is not empty after trimming
    succeeds and appends exactly one record, which carries the trimmed name,
    the clock reading in the nineteen characters [YYYY-MM-DDTHH:MM:SS] (the
    microseconds are dropped), the contents of the submitted selection
    matrix and the trimmed comment; after it every (technology, criterion)
    cell of the live grid reads false. *)
Theorem valid_submission_appends s name_text comment_text now :
  wf s → valid_datetime now → strip name_text ≠ [] →
  ∃ s' r msg,
    submit_button s name_text comment_text now = (s', st_success msg)
    ∧ evaluations s' = evaluations s ++ [r]
    ∧ evaluator_name r = strip name_text
    ∧ timestamp r = isoformat_seconds now
    ∧ length (timestamp r) = 19
    ∧ (∀ us, timestamp r
             = isoformat_seconds
                 {| year := year now; month := month now; day := day now;
                    hour := hour now; minute := minute now; second := second now;
                    microsecond := us |})
    ∧ snapshot (objects s') (selections r)
      = snapshot (objects s) (current_selections s)
    ∧ comments r = strip comment_text
    ∧ ∀ tech criterion,
        tech ∈ TECHNOLOGIES → criterion ∈ CRITERIA →
        get_cell (objects s') (current_selections s') tech criterion = Some false.
Proof.
  intros Hwf Hnow Hname. rewrite submit_button_valid by done.
  eexists _, _, _. split; [done|]. cbn.
  split; [done|]. split; [done|]. split; [done|].
  split; [by apply length_isoformat_seconds|]. split; [done|].
  split; [|split; [done|]].
  - apply new_grid_keeps, grid_ok_allocated, Hwf.
  - intros tech criterion. apply new_grid_cell.
Qed.

Lemma valid_submission_appends_witness :
  ∃ s' r msg,
    submit_button after_alice (lit " Bob ") (lit " fine ") example_time
    = (s', st_success msg)
    ∧ evaluations s' = evaluations after_alice ++ [r]
    ∧ evaluator_name r = strip (lit " Bob ")
    ∧ timestamp r = isoformat_seconds example_time
    ∧ length (timestamp r) = 19
    ∧ (∀ us, timestamp r
             = isoformat_seconds
                 {| year := year example_time; month := month example_time;
                    day := day example_time; hour := hour example_time;
                    minute := minute example_time; second := second example_time;
                    microsecond := us |})
    ∧ snapshot (objects s') (selections r)
      = snapshot (objects after_alice) (current_selections after_alice)
    ∧ comments r = strip (lit " fine ")
    ∧ ∀ tech criterion,
        tech ∈ TECHNOLOGIES → criterion ∈ CRITERIA →
        get_cell (objects s') (current_selections s') tech criterion = Some false.
Proof.
  apply (valid_submission_appends after_alice (lit " Bob ") (lit " fine ")
           example_time).
  - apply (bool_decide_unpack _). vm_compute. exact I.
  - vm_compute. repeat split; congruence.
  - vm_compute. discriminate.
Defined.

(** The submission never writes the comment widget: what it clears is the
    separate key [current_comment], which nothing reads. *)
Lemma submit_keeps_comment_widget s name_text comment_text now :
  comments_area (submit_button s name_text comment_text now).1 = comments_area s.
Proof. apply submit_button_store. Qed.

(** C4. What the code does after a successful submission: Alice types a
    name and the comment "good fit" and submits; without touching the
    comment field again she submits a second time.  The comment widget still
    holds "good fit" after the first submission (only the unread key
    [current_comment] is emptied), and the second record carries "good fit"
    too. *)
Theorem comment_not_cleared_by_submit :
  ∃ s' s'',
    run_trace initial_state alice_session = Some s'
    ∧ comments <$> evaluations s' = [lit "good fit"]
    ∧ current_comment s' = []
    ∧ comments_area s' = lit "good fit"
    ∧ run_trace s' [interact ClickSubmit (λ _ _, false)] = Some s''
    ∧ comments <$> evaluations s'' = [lit "good fit"; lit "good fit"].
Proof.
  eexists _, _. split; [by vm_compute|].
  split; [by vm_compute|]. split; [by vm_compute|]. split; [by vm_compute|].
  split; by vm_compute.
Qed.



(** C5. For every non-empty store of N records, N below 2^53, the
    aggregator returns, for each technology, a sequence with one percentage
    per criterion in the fixed criteria order.  The entry of (technology,
    criterion) is the binary64 number that line 172 computes from K and N,
    where K is the number of records that mark the pair: K divided by N and
    the quotient multiplied by 100, each operation rounded to nearest.  It
    is within 2^-45 of 100*K/N, and it lies between 0 and 100. *)
Theorem aggregator_percentages_binary64 s :
  wf s → evaluations s ≠ [] →
  (Z.of_nat (length (evaluations s)) < 2 ^ 53)%Z →
  ∃ scores,
    tech_scores_binary64 s = Some scores
    ∧ ∀ tech, tech ∈ TECHNOLOGIES →
        ∃ ps, scores !! tech = Some ps
              ∧ length ps = length CRITERIA
              ∧ ∀ j criterion, CRITERIA !! j = Some criterion →
                  ∃ (x : pyfloat) (v : Q),
                    ps !! j = Some x
                    ∧ percentage_binary64
                        (marks (objects s) (evaluations s) tech criterion)
                        (length (evaluations s)) = Some x
                    ∧ float_value x = Some v
                    ∧ (Qabs (v - 100
                                 * inject_Z (Z.of_nat (marks (objects s) (evaluations s)
                                                         tech criterion))
                                 / inject_Z (Z.of_nat (length (evaluations s))))
                       <= 1 # 2 ^ 45)%Q
                    ∧ (0 <= v)%Q ∧ (v <= 100)%Q.
Proof.
  intros (_ & Hr & _) Hne Hlen.
  destruct (tech_scores_binary64_spec s Hr Hne) as (scores & Hscores & Hlists).
  exists scores. split; [done|]. intros tech Ht. eexists.
  split; [by apply Hlists|]. split; [by rewrite length_fmap|].
  intros j criterion Hj.
  assert (0 < length (evaluations s)) as Hpos
    by (destruct (evaluations s); [done|cbn; lia]).
  destruct (percentage_binary64_rounding
              (marks (objects s) (evaluations s) tech criterion)
              (length (evaluations s)))
    as (x & v & Hx & Hv & [Hv0 Hv100] & Herr); [apply marks_le|done|done|].
  exists x, v. split.
  { rewrite list_lookup_fmap, Hj. cbn. unfold binary64_of. by rewrite Hx. }
  done.
Qed.

Lemma aggregator_percentages_binary64_witness :
  ∃ scores,
    tech_scores_binary64 after_alice = Some scores
    ∧ ∀ tech, tech ∈ TECHNOLOGIES →
        ∃ ps, scores !! tech = Some ps
              ∧ length ps = length CRITERIA
              ∧ ∀ j criterion, CRITERIA !! j = Some criterion →
                  ∃ (x : pyfloat) (v : Q),
                    ps !! j = Some x
                    ∧ percentage_binary64
                        (marks (objects after_alice) (evaluations after_alice)
                           tech criterion)
                        (length (evaluations after_alice)) = Some x
                    ∧ float_value x = Some v
                    ∧ (Qabs (v - 100
                                 * inject_Z (Z.of_nat (marks (objects after_alice)
                                                         (evaluations after_alice)
                                                         tech criterion))
                                 / inject_Z (Z.of_nat (length (evaluations after_alice))))
                       <= 1 # 2 ^ 45)%Q
                    ∧ (0 <= v)%Q ∧ (v <= 100)%Q.
Proof.
  apply (aggregator_percentages_binary64 after_alice).
  - apply (bool_decide_unpack _). vm_compute. exact I.
  - vm_compute. discriminate.
  - vm_compute. reflexivity.
Defined.

(** The entry is not always equal to 100*K/N.  Twenty submissions, eleven
    of them with the mark (Tech A, Criteria 1): the store holds N = 20
    records, K = 11 of them mark the pair, and the entry of the pair is the
    float 7740561859543041 * 2^-47, which prints as 55.00000000000001 and
    is not 100*11/20 = 55. *)
Lemma aggregator_percentage_inexact :
  run_trace initial_state twenty_session = Some after_twenty
  ∧ length (evaluations after_twenty) = 20
  ∧ marks (objects after_twenty) (evaluations after_twenty)
      (lit "Tech A") (lit "Criteria 1") = 11
  ∧ ∃ scores ps (v : Q),
      tech_scores_binary64 after_twenty = Some scores
      ∧ scores !! lit "Tech A" = Some ps
      ∧ ps !! 0 = Some (S754_finite false 7740561859543041 (-47))
      ∧ float_value (S754_finite false 7740561859543041 (-47)) = Some v
      ∧ (v == 7740561859543041 # 2 ^ 47)%Q
      ∧ ¬ (v == 100 * inject_Z (Z.of_nat 11) / inject_Z (Z.of_nat 20))%Q.
Proof.
  split; [exact after_twenty_reached|].
  split; [vm_compute; reflexivity|]. split; [vm_compute; reflexivity|].
  exists (default ∅ (tech_scores_binary64 after_twenty)),
    [S754_finite false 7740561859543041 (-47); S754_zero false;
     S754_zero false; S754_zero false; S754_zero false],
    (7740561859543041 # 2 ^ 47)%Q.
  split.
  { apply tech_scores_binary64_default.
    - exact (wf_reachable _ _ after_twenty_reached).
    - apply (length_nonempty _ 19). vm_compute. reflexivity. }
  split; [vm_compute; reflexivity|]. split; [reflexivity|].
  split; [vm_compute; reflexivity|]. split; [reflexivity|].
  vm_compute. discriminate.
Qed.

(** The float of the sample session: after Alice's submission the score of
    (Tech A, Criteria 1) is the float 100 and every other score is zero. *)
Lemma alice_scores_binary64 :
  (λ tech, tech_scores_binary64 after_alice ≫= (λ scores, scores !! tech))
    <$> TECHNOLOGIES
  = [Some [float_of_int 100; S754_zero false; S754_zero false;
           S754_zero false; S754_zero false];
     Some (replicate 5 (S754_zero false));
     Some (replicate 5 (S754_zero false));
     Some (replicate 5 (S754_zero false));
     Some (replicate 5 (S754_zero false))].
Proof. by vm_compute. Qed.

(** The scenario of the specification: after Alice's submission the score
    of (Tech A, Criteria 1) is 100 and every other score is 0. *)
Lemma alice_scores :
  (λ tech, tech_scores after_alice ≫= (λ scores, scores !! tech)) <$> TECHNOLOGIES
  = [Some [100 # 1; 0 # 1; 0 # 1; 0 # 1; 0 # 1]%Q;
     Some [0 # 1; 0 # 1; 0 # 1; 0 # 1; 0 # 1]%Q;
     Some [0 # 1; 0 # 1; 0 # 1; 0 # 1; 0 # 1]%Q;
     Some [0 # 1; 0 # 1; 0 # 1; 0 # 1; 0 # 1]%Q;
     Some [0 # 1; 0 # 1; 0 # 1; 0 # 1; 0 # 1]%Q].
Proof. by vm_compute. Qed.

(** *** Exports *)

Lemma detail_rows_length h (evals : list evaluation) :
  length (mjoin ((λ e, detail_of h e <$> TECHNOLOGIES) <$> evals))
  = length evals * length TECHNOLOGIES.
Proof.
  rewrite length_join, (sum_list_fmap_same (length TECHNOLOGIES)).
  - by rewrite length_fmap.
  - apply Forall_fmap, Forall_forall. intros e _. unfold compose.
    by rewrite length_fmap.
Qed.

Lemma detail_rows_lookup h (evals : list evaluation) i j e tech :
  evals !! i = Some e → TECHNOLOGIES !! j = Some tech →
  mjoin ((λ e, detail_of h e <$> TECHNOLOGIES) <$> evals)
    !! (i * length TECHNOLOGIES + j)
  = Some (detail_of h e tech).
Proof.
  intros He Ht. apply join_lookup_Some_same_length'.
  - apply Forall_fmap, Forall_forall. intros e' _. unfold compose.
    by rewrite length_fmap.
  - by eapply lookup_lt_Some.
  - exists (detail_of h e <$> TECHNOLOGIES).
    by rewrite !list_lookup_fmap, He, Ht.
Qed.

Lemma detail_of_keys h e tech :
  (detail_of h e tech).*1
  = [lit "Evaluator"; lit "Timestamp"; lit "Technology"; lit "Comments"]
    ++ CRITERIA.
Proof.
  reflexivity.
Qed.

(** C6. The detailed export has one row for every (evaluation, technology)
    pair, evaluations in store order and technologies in the fixed order, so
    evaluations times technologies rows; its columns are Evaluator,
    Timestamp, Technology, Comments and then one per criterion, whose cell is
    the check mark when the record marks the pair and the empty string
    otherwise.  (With an empty store there is no row and the section is not
    rendered.) *)
Theorem detailed_export_rows s :
  wf s →
  ∃ rows,
    csv_rows s = Some rows
    ∧ length rows = length (evaluations s) * length TECHNOLOGIES
    ∧ (∀ i j e tech,
         evaluations s !! i = Some e → TECHNOLOGIES !! j = Some tech →
         rows !! (i * length TECHNOLOGIES + j)
         = Some ([(lit "Evaluator", evaluator_name e);
                  (lit "Timestamp", timestamp e);
                  (lit "Technology", tech);
                  (lit "Comments", comments e)]
                 ++ ((λ criterion,
                        (criterion,
                         if bool_decide (selected (objects s) e tech criterion = Some true)
                         then check_mark else [])) <$> CRITERIA)))
    ∧ (evaluations s ≠ [] →
       columns (frame_of_records rows)
       = [lit "Evaluator"; lit "Timestamp"; lit "Technology"; lit "Comments"]
         ++ CRITERIA
       ∧ data (frame_of_records rows) = (λ r, Some <$> r.*2) <$> rows).
Proof.
  intros (_ & Hr & _). eexists. split; [by apply csv_rows_spec|].
  split; [apply detail_rows_length|]. split.
  - intros i j e tech He Ht. by apply detail_rows_lookup.
  - intros Hne.
    rewrite (frame_of_uniform_records _
      ([lit "Evaluator"; lit "Timestamp"; lit "Technology"; lit "Comments"]
       ++ CRITERIA)); [by split| | |].
    + intros Hnil. apply (f_equal length) in Hnil.
      rewrite detail_rows_length in Hnil. by destruct (evaluations s).
    + apply (bool_decide_unpack _). by vm_compute.
    + apply Forall_forall. intros r (rs & Hrs & Hin)%list_elem_of_join.
      apply list_elem_of_fmap in Hin as (e & -> & _).
      apply list_elem_of_fmap in Hrs as (tech & -> & _).
      apply detail_of_keys.
Qed.

Lemma detailed_export_rows_witness :
  ∃ rows,
    csv_rows after_alice = Some rows
    ∧ length rows = length (evaluations after_alice) * length TECHNOLOGIES
    ∧ (∀ i j e tech,
         evaluations after_alice !! i = Some e → TECHNOLOGIES !! j = Some tech →
         rows !! (i * length TECHNOLOGIES + j)
         = Some ([(lit "Evaluator", evaluator_name e);
                  (lit "Timestamp", timestamp e);
                  (lit "Technology", tech);
                  (lit "Comments", comments e)]
                 ++ ((λ criterion,
                        (criterion,
                         if bool_decide (selected (objects after_alice) e tech criterion
                                         = Some true)
                         then check_mark else [])) <$> CRITERIA)))
    ∧ (evaluations after_alice ≠ [] →
       columns (frame_of_records rows)
       = [lit "Evaluator"; lit "Timestamp"; lit "Technology"; lit "Comments"]
         ++ CRITERIA
       ∧ data (frame_of_records rows) = (λ r, Some <$> r.*2) <$> rows).
Proof.
  apply (detailed_export_rows after_alice).
  apply (bool_decide_unpack _). vm_compute. exact I.
Defined.

Lemma marked_techs_spec h e tech :
  tech ∈ marked_techs h e
  ↔ tech ∈ TECHNOLOGIES
    ∧ ∃ criterion, criterion ∈ CRITERIA ∧ selected h e tech criterion = Some true.
Proof.
  unfold marked_techs, has_mark. rewrite list_elem_of_filter, Exists_exists.
  tauto.
Qed.

Lemma summary_of_keys h e :
  (summary_of h e).*1
  = [lit "Evaluator"; lit "Timestamp"; lit "Comments"; lit "Selected Technologies"].
Proof. reflexivity. Qed.

(** C7. The summary has one row per evaluation, in store order; its
    Selected Technologies field is the technologies with at least one true
    selection in the record, in the fixed order and joined with [", "], or
    the literal "(none selected)" when there is none. *)
Theorem summary_export_rows s :
  wf s →
  ∃ rows,
    results_for_display s = Some rows
    ∧ length rows = length (evaluations s)
    ∧ (∀ i e, evaluations s !! i = Some e →
         ∃ r, rows !! i = Some r
              ∧ dict_get r (lit "Selected Technologies")
                = Some (match marked_techs (objects s) e with
                        | [] => lit "(none selected)"
                        | _ => join (lit ", ") (marked_techs (objects s) e)
                        end)
              ∧ ∀ tech,
                  tech ∈ marked_techs (objects s) e
                  ↔ tech ∈ TECHNOLOGIES
                    ∧ ∃ criterion, criterion ∈ CRITERIA
                        ∧ selected (objects s) e tech criterion = Some true)
    ∧ (evaluations s ≠ [] →
       columns (frame_of_records rows)
       = [lit "Evaluator"; lit "Timestamp"; lit "Comments";
          lit "Selected Technologies"]
       ∧ data (frame_of_records rows) = (λ r, Some <$> r.*2) <$> rows).
Proof.
  intros (_ & Hr & _). eexists. split; [by apply results_for_display_spec|].
  split; [by rewrite length_fmap|]. split.
  - intros i e He. eexists. split; [by rewrite list_lookup_fmap, He|].
    split; [reflexivity|]. intros tech. apply marked_techs_spec.
  - intros Hne.
    rewrite (frame_of_uniform_records _
      [lit "Evaluator"; lit "Timestamp"; lit "Comments";
       lit "Selected Technologies"]); [by split| | |].
    + by destruct (evaluations s).
    + apply (bool_decide_unpack _). by vm_compute.
    + apply Forall_fmap, Forall_forall. intros e _. apply summary_of_keys.
Qed.

Lemma summary_export_rows_witness :
  ∃ rows,
    results_for_display after_alice = Some rows
    ∧ length rows = length (evaluations after_alice)
    ∧ (∀ i e, evaluations after_alice !! i = Some e →
         ∃ r, rows !! i = Some r
              ∧ dict_get r (lit "Selected Technologies")
                = Some (match marked_techs (objects after_alice) e with
                        | [] => lit "(none selected)"
                        | _ => join (lit ", ") (marked_techs (objects after_alice) e)
                        end)
              ∧ ∀ tech,
                  tech ∈ marked_techs (objects after_alice) e
                  ↔ tech ∈ TECHNOLOGIES
                    ∧ ∃ criterion, criterion ∈ CRITERIA
                        ∧ selected (objects after_alice) e tech criterion = Some true)
    ∧ (evaluations after_alice ≠ [] →
       columns (frame_of_records rows)
       = [lit "Evaluator"; lit "Timestamp"; lit "Comments";
          lit "Selected Technologies"]
       ∧ data (frame_of_records rows) = (λ r, Some <$> r.*2) <$> rows).
Proof.
  apply (summary_export_rows after_alice).
  apply (bool_decide_unpack _). vm_compute. exact I.
Defined.

(** C8. The store is append-only.  Over every sequence of runs from a
    well-formed state the session returns, the store afterwards is the store
    before followed by the new records, the stored records read as they did
    (none removed, none edited, through the object store as well), the
    length does not decrease, and the new records are the accepted
    submissions in the order in which they were made. *)
Theorem store_append_only s (tr : list interaction) :
  wf s →
  ∃ s' new,
    run_trace s tr = Some s'
    ∧ evaluations s' = evaluations s ++ new
    ∧ store_view s' = store_view s ++ (record_view (objects s') <$> new)
    ∧ length (evaluations s) ≤ length (evaluations s')
    ∧ evaluator_name <$> new = submitted_names (evaluator_input s) tr.
Proof.
  intros Hwf.
  destruct (run_trace_spec s tr Hwf) as (s' & new & Hrun & _ & Hev & Hnames & Hsnap).
  exists s', new. split; [done|]. split; [done|]. split; [|split; [|done]].
  - unfold store_view. rewrite Hev, fmap_app. f_equal.
    apply Forall_fmap_ext, Forall_forall. intros e He.
    by apply record_view_agree, Hsnap.
  - rewrite Hev, length_app. lia.
Qed.

Lemma store_append_only_witness :
  ∃ s' new,
    run_trace after_alice later_session = Some s'
    ∧ evaluations s' = evaluations after_alice ++ new
    ∧ store_view s' = store_view after_alice ++ (record_view (objects s') <$> new)
    ∧ length (evaluations after_alice) ≤ length (evaluations s')
    ∧ evaluator_name <$> new
      = submitted_names (evaluator_input after_alice) later_session.
Proof.
  apply (store_append_only after_alice later_session).
  apply (bool_decide_unpack _). vm_compute. exact I.
Defined.

(** On the empty store the aggregation itself would divide by zero. *)
Lemma tech_scores_empty_raises : tech_scores initial_state = None.
Proof. by vm_compute. Qed.

Lemma percentage_raises (count n : nat) : percentage count n = None ↔ n = 0.
Proof. by destruct n. Qed.

(** C9. With an empty store the results section is the "no data yet"
    message and nothing is computed; the section never raises, so the
    division of line 172 is never reached with a zero divisor: whenever the
    divisor would be zero, the message is what is shown. *)
Theorem empty_store_shows_info s :
  wf s →
  (evaluations s = [] →
   results_section s
   = Some (st_info (lit
       "No evaluations submitted yet. Start evaluating above to see results!")))
  ∧ is_Some (results_section s)
  ∧ (∀ count, percentage count (length (evaluations s)) = None →
       ∃ msg, results_section s = Some (st_info msg))
  ∧ (∀ scores metrics results_df csv_df,
       results_section s = Some (st_results scores metrics results_df csv_df) →
       evaluations s ≠ [] ∧ tech_scores s = Some scores).
Proof.
  intros (_ & Hr & _).
  assert (evaluations s = [] →
          results_section s
          = Some (st_info (lit
              "No evaluations submitted yet. Start evaluating above to see results!")))
    as Hempty.
  { intros Hnil. unfold results_section. by rewrite Hnil. }
  split; [done|]. split; [by apply results_section_total|]. split.
  - intros count Hnone%percentage_raises. eexists. apply Hempty.
    by apply nil_length_inv.
  - intros scores metrics results_df csv_df. unfold results_section.
    destruct (evaluations s) as [|e evals]; [done|].
    destruct (tech_scores s) as [sc|]; [|done]. cbn [mbind option_bind].
    destruct (results_for_display s); [|done]. cbn [mbind option_bind].
    destruct (csv_rows s); [|done]. cbn [mbind option_bind].
    intros [= <- _ _ _]. done.
Qed.

Lemma empty_store_shows_info_witness :
  (evaluations initial_state = [] →
   results_section initial_state
   = Some (st_info (lit
       "No evaluations submitted yet. Start evaluating above to see results!")))
  ∧ is_Some (results_section initial_state)
  ∧ (∀ count, percentage count (length (evaluations initial_state)) = None →
       ∃ msg, results_section initial_state = Some (st_info msg))
  ∧ (∀ scores metrics results_df csv_df,
       results_section initial_state
       = Some (st_results scores metrics results_df csv_df) →
       evaluations initial_state ≠ [] ∧ tech_scores initial_state = Some scores).
Proof.
  apply (empty_store_shows_info initial_state).
  apply (bool_decide_unpack _). vm_compute. exact I.
Defined.

(** C10. In the summary the Comments field of a record whose stored comment
    is the empty string is the literal "(no comments)", and the stored
    comment otherwise, so it is never empty; the detailed export carries the
    stored comment as it is. *)
Theorem summary_comments_placeholder s :
  wf s →
  ∃ summary detail,
    results_for_display s = Some summary
    ∧ csv_rows s = Some detail
    ∧ ∀ i e, evaluations s !! i = Some e →
        (∃ r, summary !! i = Some r
              ∧ dict_get r (lit "Comments")
                = Some (if decide (comments e = []) then lit "(no comments)"
                        else comments e)
              ∧ dict_get r (lit "Comments") ≠ Some [])
        ∧ ∀ j tech, TECHNOLOGIES !! j = Some tech →
            ∃ r, detail !! (i * length TECHNOLOGIES + j) = Some r
                 ∧ dict_get r (lit "Comments") = Some (comments e).
Proof.
  intros (_ & Hr & _). eexists _, _.
  split; [by apply results_for_display_spec|].
  split; [by apply csv_rows_spec|]. intros i e He. split.
  - eexists. split; [by rewrite list_lookup_fmap, He|].
    assert (dict_get (summary_of (objects s) e) (lit "Comments")
            = Some (if decide (comments e = []) then lit "(no comments)"
                    else comments e)) as -> by reflexivity.
    split; [done|]. case_decide; [done|congruence].
  - intros j tech Ht. eexists. split; [by apply detail_rows_lookup|].
    reflexivity.
Qed.

Lemma summary_comments_placeholder_witness :
  ∃ summary detail,
    results_for_display after_alice = Some summary
    ∧ csv_rows after_alice = Some detail
    ∧ ∀ i e, evaluations after_alice !! i = Some e →
        (∃ r, summary !! i = Some r
              ∧ dict_get r (lit "Comments")
                = Some (if decide (comments e = []) then lit "(no comments)"
                        else comments e)
              ∧ dict_get r (lit "Comments") ≠ Some [])
        ∧ ∀ j tech, TECHNOLOGIES !! j = Some tech →
            ∃ r, detail !! (i * length TECHNOLOGIES + j) = Some r
                 ∧ dict_get r (lit "Comments") = Some (comments e).
Proof.
  apply (summary_comments_placeholder after_alice).
  apply (bool_decide_unpack _). vm_compute. exact I.
Defined.

(** The summary after Alice's submission and a second one with no mark. *)
Example summary_example :
  (s ← run_trace after_alice [interact ClickSubmit (λ _ _, false)];
   results_for_display s)
  = Some [[(lit "Evaluator", lit "Alice");
           (lit "Timestamp", lit "2026-11-04T12:00:07");
           (lit "Comments", lit "good fit");
           (lit "Selected Technologies", lit "Tech A")];
          [(lit "Evaluator", lit "Alice");
           (lit "Timestamp", lit "2026-11-04T12:00:07");
           (lit "Comments", lit "good fit");
           (lit "Selected Technologies", lit "(none selected)")]].
Proof. by vm_compute. Qed.

(** A record whose comment is blank shows the placeholder in the summary
    and the empty string in the detailed export. *)
Example blank_comment_example :
  ((λ r : row, dict_get r (lit "Comments"))
     <$> default [] (results_for_display after_bob),
   (λ r : row, dict_get r (lit "Comments"))
     <$> default [] (csv_rows after_bob),
   (λ r : row, dict_get r (lit "Selected Technologies"))
     <$> default [] (results_for_display after_bob))
  = ([Some (lit "(no comments)")],
     [Some []; Some []; Some []; Some []; Some []],
     [Some (lit "Tech A, Tech B, Tech C, Tech D, Tech E")]).
Proof. by vm_compute. Qed.

(** ** Further properties *)

(** *** Trimming *)

Lemma drop_while_starts (p : N → bool) (t : pystr) c :
  head (drop_while p t) = Some c → p c = false.
Proof.
  destruct (drop_while p t) as [|c' t'] eqn:Ht; [done|].
  intros [= ->]. by eapply drop_while_head.
Qed.

Lemma drop_while_fix (p : N → bool) (t : pystr) :
  (∀ c, head t = Some c → p c = false) → drop_while p t = t.
Proof.
  destruct t as [|c t]; [done|]. intros Hc. simpl. by rewrite (Hc c).
Qed.

Lemma drop_while_suffix (p : N → bool) (t : pystr) :
  ∃ w, t = w ++ drop_while p t.
Proof.
  induction t as [|c t [w IH]]; [by exists []|]. simpl.
  destruct (p c); [|by exists []]. exists (c :: w). simpl. by f_equal.
Qed.

Lemma head_app_some (t w : pystr) c : head t = Some c → head (t ++ w) = Some c.
Proof. by destruct t. Qed.

(** What [strip] returns starts and ends with a character that is not
    whitespace. *)
Lemma strip_ends (t : pystr) c :
  (head (strip t) = Some c → isspace c = false)
  ∧ (head (reverse (strip t)) = Some c → isspace c = false).
Proof.
  unfold strip, rstrip, lstrip. split.
  - destruct (drop_while_suffix isspace (reverse (drop_while isspace t))) as [w Hw].
    apply (f_equal reverse) in Hw. rewrite reverse_involutive, reverse_app in Hw.
    intros Hc. apply (drop_while_starts isspace t). rewrite Hw.
    by apply head_app_some.
  - rewrite reverse_involutive. apply drop_while_starts.
Qed.

Lemma strip_fix (t : pystr) :
  (∀ c, head t = Some c → isspace c = false) →
  (∀ c, head (reverse t) = Some c → isspace c = false) →
  strip t = t.
Proof.
  intros Hhead Hlast. unfold strip, rstrip, lstrip.
  rewrite (drop_while_fix isspace t) by done.
  rewrite (drop_while_fix isspace (reverse t)) by done.
  apply reverse_involutive.
Qed.

Lemma strip_idemp (t : pystr) : strip (strip t) = strip t.
Proof. apply strip_fix; intros c; apply strip_ends. Qed.

(** *** Decimal fields *)

Lemma digits_value_aux (fuel : nat) (n : N) (acc : pystr) :
  (n < 2 ^ N.of_nat fuel)%N →
  foldl (λ a c, 10 * a + (c - 48))%N 0%N (digits_aux fuel n acc)
  = foldl (λ a c, 10 * a + (c - 48))%N n acc.
Proof.
  revert n acc. induction fuel as [|fuel IH]; intros n acc Hn; cbn [digits_aux].
  { simpl in Hn. by replace n with 0%N by lia. }
  rewrite Nat2N.inj_succ, N.pow_succ_r' in Hn.
  revert Hn IH. generalize (2 ^ N.of_nat fuel)%N. intros P Hn IH.
  destruct (N.eqb_spec (n / 10) 0) as [Hz|Hnz].
  - cbn [foldl]. f_equal. pose proof (N.Div0.div_mod n 10). lia.
  - rewrite IH by (apply N.Div0.div_lt_upper_bound; lia). cbn [foldl]. f_equal.
    pose proof (N.Div0.div_mod n 10) as Hdm. clear -Hdm. revert Hdm.
    generalize (n / 10)%N (n mod 10)%N. intros q r Hdm. lia.
Qed.

(** Reading a padded field back gives the number that was printed. *)
Lemma digits_value_zpad (w : nat) (n : N) : digits_value (zpad w n) = n.
Proof.
  unfold digits_value, zpad, digits. rewrite foldl_app.
  assert (foldl (λ a c, 10 * a + (c - 48))%N 0%N
            (replicate (w - length (digits_aux (S (N.to_nat (N.log2 n))) n [])) 48%N)
          = 0%N) as ->.
  { generalize (w - length (digits_aux (S (N.to_nat (N.log2 n))) n [])).
    intros k. induction k as [|k IH]; [done|]. simpl. exact IH. }
  rewrite digits_value_aux; [done|].
  rewrite Nat2N.inj_succ, N2Nat.id.
  destruct (N.eq_dec n 0%N) as [->|Hn]; [done|].
  apply N.log2_spec. lia.
Qed.

Lemma zpad_inj (w : nat) (n m : N) : zpad w n = zpad w m → n = m.
Proof.
  intros Heq. rewrite <- (digits_value_zpad w n), <- (digits_value_zpad w m).
  by rewrite Heq.
Qed.

(** Two strings made of the same separators around fields of the same
    widths are equal only if the fields are. *)
Lemma fields_inj (a1 a2 b1 b2 sep : pystr) :
  length a1 = length a2 → a1 ++ sep ++ b1 = a2 ++ sep ++ b2 → a1 = a2 ∧ b1 = b2.
Proof.
  intros Hlen Heq. apply app_inj_1 in Heq as [-> Heq]; [|done].
  by apply (inj (app sep)) in Heq.
Qed.

Lemma six_fields_inj (s1 s2 s3 s4 s5 : pystr) (d1 d2 : datetime) :
  valid_datetime d1 → valid_datetime d2 →
  zpad 4 (year d1) ++ s1 ++ zpad 2 (month d1) ++ s2 ++ zpad 2 (day d1)
  ++ s3 ++ zpad 2 (hour d1) ++ s4 ++ zpad 2 (minute d1) ++ s5
  ++ zpad 2 (second d1)
  = zpad 4 (year d2) ++ s1 ++ zpad 2 (month d2) ++ s2 ++ zpad 2 (day d2)
    ++ s3 ++ zpad 2 (hour d2) ++ s4 ++ zpad 2 (minute d2) ++ s5
    ++ zpad 2 (second d2) →
  same_second d1 d2.
Proof.
  intros (Hy1 & Hmo1 & Hd1 & Hh1 & Hmi1 & Hs1 & _)
         (Hy2 & Hmo2 & Hd2 & Hh2 & Hmi2 & Hs2 & _) Heq.
  apply fields_inj in Heq as [Hy Heq];
    [|rewrite !length_zpad; [done|lia|simpl; lia|lia|simpl; lia]].
  apply fields_inj in Heq as [Hmo Heq];
    [|rewrite !length_zpad; [done|lia|simpl; lia|lia|simpl; lia]].
  apply fields_inj in Heq as [Hd Heq];
    [|rewrite !length_zpad; [done|lia|simpl; lia|lia|simpl; lia]].
  apply fields_inj in Heq as [Hh Heq];
    [|rewrite !length_zpad; [done|lia|simpl; lia|lia|simpl; lia]].
  apply fields_inj in Heq as [Hmi Hs];
    [|rewrite !length_zpad; [done|lia|simpl; lia|lia|simpl; lia]].
  repeat split; by eapply zpad_inj.
Qed.

Lemma same_second_isoformat (d1 d2 : datetime) :
  same_second d1 d2 → isoformat_seconds d1 = isoformat_seconds d2.
Proof.
  intros (Hy & Hmo & Hd & Hh & Hmi & Hs). unfold isoformat_seconds.
  by rewrite Hy, Hmo, Hd, Hh, Hmi, Hs.
Qed.

(** Two submissions get the same timestamp exactly when the clock readings
    agree to the second: the timestamp keeps the six fields down to the
    second and nothing below. *)
Theorem timestamp_identifies_second (d1 d2 : datetime) :
  valid_datetime d1 → valid_datetime d2 →
  isoformat_seconds d1 = isoformat_seconds d2 ↔ same_second d1 d2.
Proof.
  intros Hv1 Hv2. split; [|apply same_second_isoformat].
  unfold isoformat_seconds. by apply six_fields_inj.
Qed.

Lemma timestamp_identifies_second_witness :
  isoformat_seconds example_time
  = isoformat_seconds
      {| year := 2026; month := 11; day := 4; hour := 12; minute := 0;
         second := 7; microsecond := 999999 |}%N
  ↔ same_second example_time
      {| year := 2026; month := 11; day := 4; hour := 12; minute := 0;
         second := 7; microsecond := 999999 |}%N.
Proof.
  apply (timestamp_identifies_second example_time).
  - vm_compute. repeat split; congruence.
  - vm_compute. repeat split; congruence.
Defined.

Lemma same_second_strftime (d1 d2 : datetime) :
  same_second d1 d2 → strftime_file d1 = strftime_file d2.
Proof.
  intros (Hy & Hmo & Hd & Hh & Hmi & Hs). unfold strftime_file.
  by rewrite Hy, Hmo, Hd, Hh, Hmi, Hs.
Qed.

Lemma length_strftime_file (d : datetime) :
  valid_datetime d → length (strftime_file d) = 19.
Proof.
  intros (Hy & Hmo & Hd & Hh & Hmi & Hs & _). unfold strftime_file.
  rewrite !length_app, !length_zpad; [done|lia|simpl; lia..].
Qed.

(** The name of a download embeds the clock reading to the second: two
    detailed downloads get the same file name exactly when they are made in
    the same second (so two within one second collide), likewise two summary
    downloads, and a detailed download never has the name of a summary
    one. *)
Theorem download_names (d1 d2 : datetime) :
  valid_datetime d1 → valid_datetime d2 →
  (1000 ≤ year d1)%N → (1000 ≤ year d2)%N →
  (detailed_file_name d1 = detailed_file_name d2 ↔ same_second d1 d2)
  ∧ (summary_file_name d1 = summary_file_name d2 ↔ same_second d1 d2)
  ∧ detailed_file_name d1 ≠ summary_file_name d2.
Proof.
  intros Hv1 Hv2 _ _.
  assert (strftime_file d1 = strftime_file d2 → same_second d1 d2) as Hinj.
  { unfold strftime_file. by apply six_fields_inj. }
  unfold detailed_file_name, summary_file_name. split; [|split].
  - split; [|by intros ->%same_second_strftime].
    intros Heq%(inj (app _))%(inj (λ t, t ++ _)). by apply Hinj.
  - split; [|by intros ->%same_second_strftime].
    intros Heq%(inj (app _))%(inj (λ t, t ++ _)). by apply Hinj.
  - intros Heq%(f_equal length). revert Heq.
    rewrite !length_app, !length_strftime_file by done. done.
Qed.

Lemma download_names_witness :
  (detailed_file_name example_time
   = detailed_file_name
       {| year := 2026; month := 11; day := 4; hour := 12; minute := 0;
          second := 8; microsecond := 0 |}%N
   ↔ same_second example_time
       {| year := 2026; month := 11; day := 4; hour := 12; minute := 0;
          second := 8; microsecond := 0 |}%N)
  ∧ (summary_file_name example_time
     = summary_file_name
         {| year := 2026; month := 11; day := 4; hour := 12; minute := 0;
            second := 8; microsecond := 0 |}%N
     ↔ same_second example_time
         {| year := 2026; month := 11; day := 4; hour := 12; minute := 0;
            second := 8; microsecond := 0 |}%N)
  ∧ detailed_file_name example_time
    ≠ summary_file_name
        {| year := 2026; month := 11; day := 4; hour := 12; minute := 0;
           second := 8; microsecond := 0 |}%N.
Proof.
  apply (download_names example_time).
  - vm_compute. repeat split; congruence.
  - vm_compute. repeat split; congruence.
  - vm_compute. congruence.
  - vm_compute. congruence.
Defined.

Example detailed_file_name_example :
  detailed_file_name example_time
  = lit "technology_evaluation_2026-11-04_12-00-07.csv".
Proof. reflexivity. Qed.

(** *** Cells of the live grid *)

Lemma grid_write_selections s (s' : session_state) :
  grid_write s s' → current_selections s' = current_selections s.
Proof. by intros (-> & _). Qed.

Lemma set_cell_get_same s tech criterion v (s' : session_state) :
  set_cell s tech criterion v = Some s' →
  get_cell (objects s') (current_selections s) tech criterion = Some v.
Proof.
  unfold set_cell, get_cell.
  destruct (current_selections s !! tech) as [l|]; [|done]. simpl.
  destruct (objects s !! l) as [d|]; [|done]. simpl. intros [= <-]. simpl.
  rewrite lookup_insert_eq. simpl. apply lookup_insert_eq.
Qed.

Lemma set_cell_get_other s tech criterion v (s' : session_state) t c :
  grid_distinct (current_selections s) →
  set_cell s tech criterion v = Some s' →
  (t, c) ≠ (tech, criterion) →
  get_cell (objects s') (current_selections s) t c
  = get_cell (objects s) (current_selections s) t c.
Proof.
  intros Hdist. unfold set_cell, get_cell.
  destruct (current_selections s !! tech) as [l|] eqn:Hl; [|done]. simpl.
  destruct (objects s !! l) as [d|] eqn:Hd; [|done]. simpl.
  intros [= <-] Hne. simpl.
  destruct (current_selections s !! t) as [l'|] eqn:Hl'; [|done]. simpl.
  destruct (decide (l = l')) as [<-|Hll].
  - rewrite lookup_insert_eq, Hd. simpl.
    assert (tech = t) as <- by by apply (Hdist tech l Hl t l Hl').
    apply lookup_insert_ne. congruence.
  - by rewrite lookup_insert_ne.
Qed.

(** An assignment for a technology that is not a key of the grid raises. *)
Lemma set_cell_missing s tech criterion v :
  current_selections s !! tech = None → set_cell s tech criterion v = None.
Proof. intros Hnone. unfold set_cell. by rewrite Hnone. Qed.

(** One row of the editor written into the grid: the cells of the row read
    what was written, every other cell reads what it did. *)
Lemma sync_row s (cs : list pystr) tech (f : pystr → bool) :
  wf s → grid_distinct (current_selections s) →
  tech ∈ TECHNOLOGIES → cs ⊆ CRITERIA →
  ∃ s' : session_state,
    for_each (λ s0 c, set_cell s0 tech c (f c)) cs s = Some s'
    ∧ wf s' ∧ grid_write s s'
    ∧ (∀ c, c ∈ cs →
         get_cell (objects s') (current_selections s) tech c = Some (f c))
    ∧ (∀ t c, t ≠ tech ∨ c ∉ cs →
         get_cell (objects s') (current_selections s) t c
         = get_cell (objects s) (current_selections s) t c).
Proof.
  revert s. induction cs as [|c cs IH]; intros s Hwf Hdist Ht Hcs; cbn [for_each].
  { exists s. split; [done|]. split; [done|]. split; [apply grid_write_refl|].
    split; [|done]. intros c Hc. by apply elem_of_nil in Hc. }
  destruct (set_cell_write s tech c (f c)) as (s1 & Hs1 & Hw1);
    [apply Hwf|done|apply Hcs; left|].
  rewrite Hs1. cbn [mbind option_bind].
  pose proof (grid_write_wf s s1 Hwf Hw1) as Hwf1.
  pose proof (grid_write_selections s s1 Hw1) as Hg1.
  destruct (IH s1) as (s' & Hs' & Hwf' & Hw' & Hin & Hout);
    [done|by rewrite Hg1|done|intros x Hx; apply Hcs; by right|].
  rewrite Hg1 in Hin, Hout.
  exists s'. split; [done|]. split; [done|].
  split; [by eapply grid_write_trans|]. split.
  - intros c' Hc'. destruct (decide (c' ∈ cs)) as [Hcs'|Hcs']; [by apply Hin|].
    apply elem_of_cons in Hc' as [->|?]; [|done].
    rewrite Hout by by right. by eapply set_cell_get_same.
  - intros t c' Hor. rewrite Hout.
    + eapply set_cell_get_other; [done..|].
      intros [= -> ->]. destruct Hor as [?|Hc']; [done|]. apply Hc'. left.
    + destruct Hor as [?|Hc']; [by left|]. right. intros ?. apply Hc'. by right.
Qed.

Lemma sync_rows s (pairs : list (nat * pystr)) (df : nat → pystr → bool) :
  wf s → grid_distinct (current_selections s) →
  NoDup pairs.*2 → (∀ it, it ∈ pairs → it.2 ∈ TECHNOLOGIES) →
  ∃ s' : session_state,
    for_each (λ s0 it,
        for_each (λ s1 criterion, set_cell s1 it.2 criterion (df it.1 criterion))
                 CRITERIA s0)
      pairs s = Some s'
    ∧ wf s' ∧ grid_write s s'
    ∧ (∀ idx t c, (idx, t) ∈ pairs → c ∈ CRITERIA →
         get_cell (objects s') (current_selections s) t c = Some (df idx c))
    ∧ (∀ t c, t ∉ pairs.*2 →
         get_cell (objects s') (current_selections s) t c
         = get_cell (objects s) (current_selections s) t c).
Proof.
  revert s. induction pairs as [|[idx tech] pairs IH];
    intros s Hwf Hdist Hnd Htechs; cbn [for_each].
  { exists s. split; [done|]. split; [done|]. split; [apply grid_write_refl|].
    split; [|done]. intros idx t c Hin. by apply elem_of_nil in Hin. }
  rewrite fmap_cons in Hnd. apply NoDup_cons in Hnd as [Hfresh Hnd]. cbn [fst snd] in *.
  destruct (sync_row s CRITERIA tech (df idx)) as (s1 & Hs1 & Hwf1 & Hw1 & Hin1 & Hout1);
    [done|done|apply (Htechs (idx, tech)); left|done|].
  rewrite Hs1. cbn [mbind option_bind].
  pose proof (grid_write_selections s s1 Hw1) as Hg1.
  destruct (IH s1) as (s' & Hs' & Hwf' & Hw' & Hin & Hout);
    [done|by rewrite Hg1|done|intros it Hit; apply Htechs; by right|].
  rewrite Hg1 in Hin, Hout.
  exists s'. split; [done|]. split; [done|].
  split; [by eapply grid_write_trans|]. split.
  - intros idx' t c [[= -> ->]|Hin']%elem_of_cons Hc.
    + rewrite Hout by done. by apply Hin1.
    + by eapply Hin.
  - intros t c Ht. rewrite fmap_cons, not_elem_of_cons in Ht.
    destruct Ht as [Hne Ht]. rewrite Hout by done. apply Hout1. by left.
Qed.

Lemma elem_of_enumerate {A : Type} (xs : list A) (i : nat) (x : A) :
  (i, x) ∈ enumerate xs ↔ xs !! i = Some x.
Proof.
  unfold enumerate. rewrite list_elem_of_lookup. split.
  - intros (j & Hj). apply lookup_zip_with_Some in Hj as (k & y & [= -> ->] & Hk & Hy).
    apply lookup_seq in Hk as [-> _]. done.
  - intros Hx. exists i. apply lookup_zip_with_Some. exists i, x.
    split; [done|]. split; [|done]. apply lookup_seq. split; [done|].
    by eapply lookup_lt_Some.
Qed.

Lemma enumerate_snd {A : Type} (xs : list A) : (enumerate xs).*2 = xs.
Proof. unfold enumerate. apply snd_zip. by rewrite length_seq. Qed.

(** A write into one cell of the live grid: the cell reads the value
    written, every other cell and every stored record reads what it did. *)
Theorem cell_write_is_local s tech criterion (v : bool) :
  wf s → grid_distinct (current_selections s) →
  tech ∈ TECHNOLOGIES → criterion ∈ CRITERIA →
  ∃ s' : session_state,
    set_cell s tech criterion v = Some s'
    ∧ current_selections s' = current_selections s
    ∧ get_cell (objects s') (current_selections s') tech criterion = Some v
    ∧ (∀ t c, (t, c) ≠ (tech, criterion) →
         get_cell (objects s') (current_selections s') t c
         = get_cell (objects s) (current_selections s) t c)
    ∧ store_view s' = store_view s.
Proof.
  intros Hwf Hdist Ht Hc.
  destruct (set_cell_write s tech criterion v) as (s' & Hs' & Hw);
    [apply Hwf|done|done|].
  pose proof (grid_write_selections s s' Hw) as Hg.
  exists s'. split; [done|]. split; [done|]. rewrite Hg.
  split; [by eapply set_cell_get_same|]. split.
  - intros t c Hne. by eapply set_cell_get_other.
  - unfold store_view. destruct Hw as (Hs & Hrest). rewrite Hs at 2. cbn.
    apply Forall_fmap_ext, Forall_forall. intros e He.
    apply record_view_agree. eapply grid_write_snapshot; [done| |done].
    by split.
Qed.

Lemma cell_write_is_local_witness :
  ∃ s' : session_state,
    set_cell after_alice (lit "Tech B") (lit "Criteria 3") true = Some s'
    ∧ current_selections s' = current_selections after_alice
    ∧ get_cell (objects s') (current_selections s') (lit "Tech B") (lit "Criteria 3")
      = Some true
    ∧ (∀ t c, (t, c) ≠ (lit "Tech B", lit "Criteria 3") →
         get_cell (objects s') (current_selections s') t c
         = get_cell (objects after_alice) (current_selections after_alice) t c)
    ∧ store_view s' = store_view after_alice.
Proof.
  apply (cell_write_is_local after_alice (lit "Tech B") (lit "Criteria 3") true).
  - apply (bool_decide_unpack _). vm_compute. exact I.
  - apply (bool_decide_unpack _). vm_compute. exact I.
  - apply (bool_decide_unpack _). vm_compute. exact I.
  - apply (bool_decide_unpack _). vm_compute. exact I.
Defined.

Lemma sync_grid_frame s (df : nat → pystr → bool) :
  wf s → grid_distinct (current_selections s) →
  ∃ s' : session_state,
    sync_grid s df = Some s'
    ∧ wf s'
    ∧ current_selections s' = current_selections s
    ∧ (∀ idx tech criterion,
         TECHNOLOGIES !! idx = Some tech → criterion ∈ CRITERIA →
         get_cell (objects s') (current_selections s') tech criterion
         = Some (df idx criterion))
    ∧ evaluations s' = evaluations s
    ∧ store_view s' = store_view s.
Proof.
  intros Hwf Hdist.
  destruct (sync_rows s (enumerate TECHNOLOGIES) df) as (s' & Hs' & Hwf' & Hw & Hin & _).
  - done.
  - done.
  - rewrite enumerate_snd. apply NoDup_TECHNOLOGIES.
  - intros [idx tech] Hin%elem_of_enumerate. by eapply list_elem_of_lookup_2.
  - pose proof (grid_write_selections s s' Hw) as Hg.
    exists s'. split; [done|]. split; [done|]. split; [done|]. rewrite Hg.
    split; [|split].
    + intros idx tech criterion Hidx Hc. apply Hin; [|done].
      by apply elem_of_enumerate.
    + destruct Hw as (-> & _). done.
    + unfold store_view. destruct Hw as (Hs & Hrest). rewrite Hs at 2. cbn.
      apply Forall_fmap_ext, Forall_forall. intros e He.
      apply record_view_agree. eapply grid_write_snapshot; [done| |done].
      by split.
Qed.

(** Lines 105-107 copy the editor frame into the live grid: after them the
    cell of the technology in row [idx] and of a criterion reads what the
    frame holds there, whatever the grid held before, and the store is as it
    was. *)
Theorem sync_grid_reads_frame s (df : nat → pystr → bool) :
  wf s → grid_distinct (current_selections s) →
  ∃ s' : session_state,
    sync_grid s df = Some s'
    ∧ wf s'
    ∧ current_selections s' = current_selections s
    ∧ (∀ idx tech criterion,
         TECHNOLOGIES !! idx = Some tech → criterion ∈ CRITERIA →
         get_cell (objects s') (current_selections s') tech criterion
         = Some (df idx criterion))
    ∧ evaluations s' = evaluations s
    ∧ store_view s' = store_view s.
Proof. apply sync_grid_frame. Qed.

Lemma sync_grid_reads_frame_witness :
  ∃ s' : session_state,
    sync_grid after_alice other_frame = Some s'
    ∧ wf s'
    ∧ current_selections s' = current_selections after_alice
    ∧ (∀ idx tech criterion,
         TECHNOLOGIES !! idx = Some tech → criterion ∈ CRITERIA →
         get_cell (objects s') (current_selections s') tech criterion
         = Some (other_frame idx criterion))
    ∧ evaluations s' = evaluations after_alice
    ∧ store_view s' = store_view after_alice.
Proof.
  apply (sync_grid_reads_frame after_alice other_frame).
  - apply (bool_decide_unpack _). vm_compute. exact I.
  - apply (bool_decide_unpack _). vm_compute. exact I.
Defined.

(** *** The editor table *)

Lemma setitem_new {V : Type} (d : list (pystr * V)) (k : pystr) (v : V) :
  k ∉ d.*1 → setitem d k v = d ++ [(k, v)].
Proof.
  induction d as [|[k' v'] d IH]; intros Hk; simpl; [done|].
  rewrite fmap_cons, not_elem_of_cons in Hk. destruct Hk as [Hne Hk].
  case_decide; [done|]. by rewrite IH.
Qed.

Lemma for_each_setitem {B V : Type} (f : pystr → option B) (gf : pystr → B)
    (val : B → V) (ks : list pystr) (d : list (pystr * V)) :
  NoDup (d.*1 ++ ks) →
  (∀ k, k ∈ ks → f k = Some (gf k)) →
  for_each (λ r k, b ← f k; Some (setitem r k (val b))) ks d
  = Some (d ++ ((λ k, (k, val (gf k))) <$> ks)).
Proof.
  revert d. induction ks as [|k ks IH]; intros d Hnd Hf; simpl.
  - by rewrite app_nil_r.
  - rewrite Hf by left. simpl.
    assert (k ∉ d.*1) as Hk.
    { apply NoDup_app in Hnd as (_ & Hdisj & _). intros Hin.
      apply (Hdisj k Hin). left. }
    rewrite setitem_new by done. rewrite IH.
    + by rewrite <- app_assoc.
    + rewrite fmap_app. simpl. by rewrite <- app_assoc.
    + intros k' Hk'. apply Hf. by right.
Qed.

Lemma table_data_rows s :
  grid_ok (objects s) (current_selections s) →
  table_data s
  = Some ((λ tech,
             (lit "Technology", Text tech)
             :: ((λ c, (c, Flag (default false
                                   (get_cell (objects s) (current_selections s)
                                      tech c))))
                   <$> CRITERIA))
            <$> TECHNOLOGIES).
Proof.
  intros Hg. unfold table_data.
  rewrite (for_each_collect _
    (λ tech, (lit "Technology", Text tech)
             :: ((λ c, (c, Flag (default false
                                   (get_cell (objects s) (current_selections s)
                                      tech c))))
                   <$> CRITERIA))); [done|].
  intros tech Ht.
  rewrite (for_each_setitem _
    (λ c, default false (get_cell (objects s) (current_selections s) tech c))).
  - done.
  - apply (bool_decide_unpack _). by vm_compute.
  - intros c Hc. by destruct (grid_ok_cell _ _ tech c Hg Ht Hc) as [b ->].
Qed.

Lemma getitem_criterion {V : Type} (k0 : pystr) (v0 : V) (gf : pystr → V)
    (ks : list pystr) (c : pystr) :
  c ≠ k0 → c ∈ ks →
  getitem ((k0, v0) :: ((λ k, (k, gf k)) <$> ks)) c = Some (gf c).
Proof.
  intros Hne Hc. unfold getitem. simpl.
  rewrite bool_decide_eq_false_2 by done.
  induction ks as [|k ks IH]; [by apply elem_of_nil in Hc|]. simpl.
  destruct (decide (k = c)) as [->|Hk].
  - by rewrite bool_decide_eq_true_2.
  - rewrite bool_decide_eq_false_2 by done. apply IH.
    by apply elem_of_cons in Hc as [->|?].
Qed.

Lemma criteria_not_technology c : c ∈ CRITERIA → c ≠ lit "Technology".
Proof.
  intros Hc ->. revert Hc. apply (bool_decide_unpack _). by vm_compute.
Qed.

Lemma table_data_cells s :
  wf s →
  ∃ rows,
    table_data s = Some rows
    ∧ length rows = length TECHNOLOGIES
    ∧ ∀ idx tech, TECHNOLOGIES !! idx = Some tech →
        table_loc rows idx (lit "Technology") = Some (Text tech)
        ∧ ∀ criterion, criterion ∈ CRITERIA →
            ∃ b, get_cell (objects s) (current_selections s) tech criterion = Some b
                 ∧ table_loc rows idx criterion = Some (Flag b).
Proof.
  intros (Hg & _). eexists. split; [by apply table_data_rows|].
  split; [by rewrite length_fmap|]. intros idx tech Hidx.
  unfold table_loc. rewrite list_lookup_fmap, Hidx. cbn [fmap option_fmap option_map mbind option_bind].
  split.
  - reflexivity.
  - intros criterion Hc.
    destruct (grid_ok_cell _ _ tech criterion Hg
                (list_elem_of_lookup_2 _ _ _ Hidx) Hc) as [b Hb].
    exists b. split; [done|].
    rewrite getitem_criterion; [by rewrite Hb|by apply criteria_not_technology|done].
Qed.

(** Lines 76-83: the table given to the editor has one row per technology,
    in the fixed order, labelled with the technology and holding, under each
    criterion, the cell of the live grid. *)
Theorem table_shows_grid s :
  wf s →
  ∃ rows,
    table_data s = Some rows
    ∧ length rows = length TECHNOLOGIES
    ∧ ∀ idx tech, TECHNOLOGIES !! idx = Some tech →
        table_loc rows idx (lit "Technology") = Some (Text tech)
        ∧ ∀ criterion, criterion ∈ CRITERIA →
            ∃ b, get_cell (objects s) (current_selections s) tech criterion = Some b
                 ∧ table_loc rows idx criterion = Some (Flag b).
Proof. apply table_data_cells. Qed.

Lemma table_shows_grid_witness :
  ∃ rows,
    table_data after_alice = Some rows
    ∧ length rows = length TECHNOLOGIES
    ∧ ∀ idx tech, TECHNOLOGIES !! idx = Some tech →
        table_loc rows idx (lit "Technology") = Some (Text tech)
        ∧ ∀ criterion, criterion ∈ CRITERIA →
            ∃ b, get_cell (objects after_alice) (current_selections after_alice)
                   tech criterion = Some b
                 ∧ table_loc rows idx criterion = Some (Flag b).
Proof.
  apply (table_shows_grid after_alice).
  apply (bool_decide_unpack _). vm_compute. exact I.
Defined.

Lemma set_cell_same_value s tech criterion (v : bool) :
  get_cell (objects s) (current_selections s) tech criterion = Some v →
  set_cell s tech criterion v = Some s.
Proof.
  unfold get_cell, set_cell.
  destruct (current_selections s !! tech) as [l|]; [|done]. simpl.
  destruct (objects s !! l) as [d|] eqn:Hd; [|done]. simpl. intros Hv.
  rewrite (insert_id d) by done. rewrite insert_id by done. by destruct s.
Qed.

(** When the user changes nothing, the editor returns the table it was
    given, and writing that back (lines 105-107) leaves the whole state as
    it is. *)
Theorem unedited_table_keeps_state s :
  wf s →
  ∃ rows, table_data s = Some rows ∧ sync_grid s (unedited rows) = Some s.
Proof.
  intros Hwf. destruct (table_data_cells s Hwf) as (rows & Hrows & _ & Hcells).
  exists rows. split; [done|]. unfold sync_grid.
  destruct (for_each_inv (λ s', s' = s)
    (λ s0 it,
       for_each (λ s1 criterion,
           set_cell s1 it.2 criterion (unedited rows it.1 criterion))
         CRITERIA s0)
    (enumerate TECHNOLOGIES) s) as (s' & Hs' & ->); [done| |done].
  intros s0 [idx tech] Hin%elem_of_enumerate ->. cbn [fst snd].
  apply (for_each_inv (λ s', s' = s)); [done|].
  intros s0 criterion Hc ->. exists s. split; [|done].
  destruct (Hcells idx tech Hin) as (_ & Hcrit).
  destruct (Hcrit criterion Hc) as (b & Hb & Hloc).
  apply set_cell_same_value. unfold unedited. by rewrite Hloc.
Qed.

Lemma unedited_table_keeps_state_witness :
  ∃ rows, table_data after_alice = Some rows
          ∧ sync_grid after_alice (unedited rows) = Some after_alice.
Proof.
  apply (unedited_table_keeps_state after_alice).
  apply (bool_decide_unpack _). vm_compute. exact I.
Defined.

(** *** Sessions *)

Lemma new_grid_distinct_gen (techs : list pystr) h :
  grid_distinct (foldl add_inner (∅, h) techs).1
  ∧ ∀ t l, (foldl add_inner (∅, h) techs).1 !! t = Some l →
           l ∈ dom (foldl add_inner (∅, h) techs).2.
Proof.
  induction techs as [|x techs IH] using rev_ind; simpl.
  { split; [|intros t l; by rewrite lookup_empty].
    intros t l. by rewrite lookup_empty. }
  rewrite foldl_snoc. destruct (foldl add_inner (∅, h) techs) as [g h1].
  unfold add_inner, alloc. simpl in *. destruct IH as [Hdist Hdom].
  pose proof (is_fresh (dom h1)) as Hfresh.
  set (l1 := fresh (dom h1)) in *. split.
  - intros t1 l Hl1 t2 l' Hl2 <-. revert Hl1 Hl2.
    rewrite !lookup_insert. repeat case_decide; subst; try done.
    + intros [= <-] Hl2. exfalso. by apply Hfresh, (Hdom t2).
    + intros Hl1 [= <-]. exfalso. by apply Hfresh, (Hdom t1).
    + intros Hl1 Hl2. by apply (Hdist t1 l Hl1 t2 l Hl2).
  - intros t l. rewrite lookup_insert, dom_insert_L. case_decide.
    + intros [= <-]. apply elem_of_union. left. by apply elem_of_singleton.
    + intros Hl. apply elem_of_union. right. by apply (Hdom t).
Qed.

Lemma new_grid_distinct h : grid_distinct (new_grid h).1.
Proof. apply new_grid_distinct_gen. Qed.

(** One run, taken apart: the grid is synchronised, the click handled, the
    results rendered from the state that results. *)
Lemma script_run_post s i (sp : session_state * page) :
  wf s → script_run s i = Some sp →
  ∃ s1 : session_state,
    sync_grid (widget_update s (act i)) (edited_df i) = Some s1
    ∧ wf s1 ∧ grid_write (widget_update s (act i)) s1
    ∧ sp.1 = (if clicked (act i)
              then (submit_button s1 (evaluator_input s1) (comments_area s1) (now i)).1
              else s1)
    ∧ message sp.2
      = (if clicked (act i)
         then Some (submit_button s1 (evaluator_input s1) (comments_area s1) (now i)).2
         else None)
    ∧ results_section sp.1 = Some (shown sp.2).
Proof.
  intros Hwf. unfold script_run.
  destruct (sync_grid_write _ (edited_df i) (widget_update_wf s (act i) Hwf))
    as (s1 & -> & Hwf1 & Hw).
  cbn [mbind option_bind]. intros Hrun. exists s1.
  split; [done|]. split; [done|]. split; [done|].
  destruct (clicked (act i)).
  - destruct (submit_button s1 (evaluator_input s1) (comments_area s1) (now i))
      as [s2 fb].
    destruct (results_section s2) as [r|] eqn:Hr; [|done].
    cbn [mbind option_bind] in Hrun. by injection Hrun as <-.
  - destruct (results_section s1) as [r|] eqn:Hr; [|done].
    cbn [mbind option_bind] in Hrun. by injection Hrun as <-.
Qed.

(** A property that holds at the start of a session and that every run
    keeps holds at its end. *)
Lemma run_trace_invariant (P : session_state → Prop) (tr : list interaction) :
  (∀ s i (sp : session_state * page),
     i ∈ tr → wf s → P s → script_run s i = Some sp → P sp.1) →
  ∀ s, wf s → P s →
       ∃ s' : session_state, run_trace s tr = Some s' ∧ wf s' ∧ P s'.
Proof.
  induction tr as [|i tr IH]; intros Hstep s Hwf HP; cbn [run_trace]; [by eauto|].
  destruct (script_run_spec s i Hwf) as (sp & new & Hsp & Hwf1 & _).
  rewrite Hsp. cbn [mbind option_bind]. apply IH.
  - intros s0 i0 sp0 Hi0. apply Hstep. by right.
  - done.
  - apply (Hstep s i sp); [left|done..].
Qed.

Lemma grid_distinct_initial : grid_distinct (current_selections initial_state).
Proof. apply (bool_decide_unpack _). by vm_compute. Qed.

Lemma script_run_distinct s i (sp : session_state * page) :
  wf s → grid_distinct (current_selections s) → script_run s i = Some sp →
  grid_distinct (current_selections sp.1).
Proof.
  intros Hwf Hdist Hrun.
  destruct (script_run_post s i sp Hwf Hrun) as (s1 & _ & _ & Hw & -> & _).
  assert (current_selections s1 = current_selections s) as Hg.
  { rewrite (grid_write_selections _ _ Hw). by destruct (act i). }
  destruct (clicked (act i)); [|by rewrite Hg].
  destruct (decide (strip (evaluator_input s1) = [])) as [Hb|Hv].
  - rewrite submit_button_blank by done. cbn [fst]. by rewrite Hg.
  - rewrite submit_button_valid by done. apply new_grid_distinct.
Qed.


Lemma script_run_records s i (sp : session_state * page) :
  wf s → script_run s i = Some sp →
  ∃ s1 : session_state,
    sync_grid (widget_update s (act i)) (edited_df i) = Some s1
    ∧ evaluations sp.1
      = evaluations s ++
          (if clicked (act i) && truthy (strip (evaluator_input s1))
           then [{| evaluator_name := strip (evaluator_input s1);
                    timestamp := isoformat_seconds (now i);
                    selections := current_selections s1;
                    comments := strip (comments_area s1) |}]
           else [])
    ∧ current_comment sp.1
      = (if clicked (act i) && truthy (strip (evaluator_input s1))
         then [] else current_comment s)
    ∧ current_evaluator sp.1 = current_evaluator s.
Proof.
  intros Hwf Hrun.
  destruct (script_run_post s i sp Hwf Hrun) as (s1 & Hs1 & _ & (Hw & _) & -> & _).
  exists s1. split; [done|].
  assert (evaluations s1 = evaluations s ∧ current_comment s1 = current_comment s
          ∧ current_evaluator s1 = current_evaluator s) as (Hev & Hcc & Hce).
  { rewrite Hw. by destruct (act i). }
  destruct (clicked (act i)); cbn [andb].
  - destruct (decide (strip (evaluator_input s1) = [])) as [Hb|Hv].
    + rewrite submit_button_blank by done. rewrite Hb. cbn.
      by rewrite app_nil_r.
    + rewrite submit_button_valid by done. cbn [fst evaluations current_comment
        current_evaluator]. rewrite Hev, Hce.
      by destruct (strip (evaluator_input s1)).
  - by rewrite app_nil_r.
Qed.

(** Every record a session stores has an evaluator name that is not empty,
    and its name and its comment have no whitespace at either end: they are
    what [strip] returns and stripping them again changes nothing. *)
Theorem stored_records_trimmed (tr : list interaction) :
  ∃ s : session_state,
    run_trace initial_state tr = Some s
    ∧ ∀ e, e ∈ evaluations s →
        evaluator_name e ≠ []
        ∧ strip (evaluator_name e) = evaluator_name e
        ∧ strip (comments e) = comments e
        ∧ ∀ c, (head (evaluator_name e) = Some c
                ∨ head (reverse (evaluator_name e)) = Some c) →
               isspace c = false.
Proof.
  destruct (run_trace_invariant
    (λ s, ∀ e, e ∈ evaluations s →
        evaluator_name e ≠ []
        ∧ strip (evaluator_name e) = evaluator_name e
        ∧ strip (comments e) = comments e
        ∧ ∀ c, (head (evaluator_name e) = Some c
                ∨ head (reverse (evaluator_name e)) = Some c) →
               isspace c = false) tr) with (s := initial_state)
    as (s & Hrun & _ & Hs); [|apply wf_initial| |by exists s].
  - intros s i sp _ Hwf HP Hrun.
    destruct (script_run_records s i sp Hwf Hrun) as (s1 & _ & -> & _).
    intros e [He|He]%elem_of_app; [by apply HP|].
    destruct (clicked (act i)); cbn [andb] in He; [|by apply elem_of_nil in He].
    destruct (truthy (strip (evaluator_input s1))) eqn:Htr;
      [|by apply elem_of_nil in He].
    apply list_elem_of_singleton in He as ->. cbn.
    split; [by intros Hnil; rewrite Hnil in Htr|].
    split; [apply strip_idemp|]. split; [apply strip_idemp|].
    intros c. destruct (strip_ends (evaluator_input s1) c) as [Hh Hl].
    intros [Hc|Hc]; auto.
  - intros e He. by apply elem_of_nil in He.
Qed.

(** When every clock reading is a date and time of day, every stored
    timestamp has the nineteen characters of [YYYY-MM-DDTHH:MM:SS]. *)
Theorem stored_timestamps_have_seconds (tr : list interaction) :
  Forall (λ i, valid_datetime (now i)) tr →
  ∃ s : session_state,
    run_trace initial_state tr = Some s
    ∧ ∀ e, e ∈ evaluations s → length (timestamp e) = 19.
Proof.
  intros Hclock. rewrite Forall_forall in Hclock.
  destruct (run_trace_invariant
    (λ s, ∀ e, e ∈ evaluations s → length (timestamp e) = 19) tr)
    with (s := initial_state) as (s & Hrun & _ & Hs);
    [|apply wf_initial| |by exists s].
  - intros s i sp Hi Hwf HP Hrun.
    destruct (script_run_records s i sp Hwf Hrun) as (s1 & _ & -> & _).
    intros e [He|He]%elem_of_app; [by apply HP|].
    destruct (clicked (act i) && truthy (strip (evaluator_input s1)));
      [|by apply elem_of_nil in He].
    apply list_elem_of_singleton in He as ->. cbn.
    by apply length_isoformat_seconds, Hclock.
  - intros e He. by apply elem_of_nil in He.
Qed.

Lemma stored_timestamps_have_seconds_witness :
  ∃ s : session_state,
    run_trace initial_state (alice_session ++ later_session) = Some s
    ∧ ∀ e, e ∈ evaluations s → length (timestamp e) = 19.
Proof.
  apply (stored_timestamps_have_seconds (alice_session ++ later_session)).
  apply (bool_decide_unpack _). vm_compute. exact I.
Defined.

(** The keys [current_comment] and [current_evaluator] carry nothing: in
    every state a session reaches the first is the empty string and the
    second is [None], whatever was typed, edited or submitted. *)
Theorem unused_keys_stay_empty (tr : list interaction) :
  ∃ s : session_state,
    run_trace initial_state tr = Some s
    ∧ current_comment s = [] ∧ current_evaluator s = None.
Proof.
  destruct (run_trace_invariant
    (λ s, current_comment s = [] ∧ current_evaluator s = None) tr)
    with (s := initial_state) as (s & Hrun & _ & Hs);
    [|apply wf_initial|by vm_compute|by exists s].
  intros s i sp _ Hwf [Hcc Hce] Hrun.
  destruct (script_run_records s i sp Hwf Hrun) as (s1 & _ & _ & -> & ->).
  split; [|done]. by destruct (clicked (act i) && truthy (strip (evaluator_input s1))).
Qed.

Lemma results_of_store s (r : results) :
  results_section s = Some r → evaluations s ≠ [] →
  ∃ scores results_df csv_df,
    r = st_results scores
          (length (evaluations s), length CRITERIA, length TECHNOLOGIES)
          results_df csv_df
    ∧ tech_scores s = Some scores.
Proof.
  unfold results_section. destruct (evaluations s) as [|e evals]; [done|].
  destruct (tech_scores s) as [sc|]; [|done]. cbn [mbind option_bind].
  destruct (results_for_display s); [|done]. cbn [mbind option_bind].
  destruct (csv_rows s); [|done]. cbn [mbind option_bind].
  intros [= <-] _. eauto.
Qed.

(** A click on the submit control with a name typed in, as one run: the
    editor frame of this very run is what the new record stores, cell by
    cell; the record carries the trimmed name and comment of the widgets and
    the clock reading; the run acknowledges with the success message and, in
    the same run, shows the results with the evaluator count one higher. *)
Theorem accepted_click_stores_frame s i :
  wf s → grid_distinct (current_selections s) →
  act i = ClickSubmit → strip (evaluator_input s) ≠ [] →
  ∃ (sp : session_state * page) e,
    script_run s i = Some sp
    ∧ evaluations sp.1 = evaluations s ++ [e]
    ∧ evaluator_name e = strip (evaluator_input s)
    ∧ comments e = strip (comments_area s)
    ∧ timestamp e = isoformat_seconds (now i)
    ∧ (∀ idx tech criterion,
         TECHNOLOGIES !! idx = Some tech → criterion ∈ CRITERIA →
         selected (objects sp.1) e tech criterion = Some (edited_df i idx criterion))
    ∧ (∃ msg, message sp.2 = Some (st_success msg))
    ∧ ∃ scores results_df csv_df,
        shown sp.2
        = st_results scores
            (S (length (evaluations s)), length CRITERIA, length TECHNOLOGIES)
            results_df csv_df.
Proof.
  intros Hwf Hdist Hact Hname.
  destruct (script_run_spec s i Hwf) as (sp & _ & Hrun & _).
  destruct (script_run_post s i sp Hwf Hrun) as (s1 & Hs1 & Hwf1 & _ & Hpost & Hmsg & Hres).
  rewrite Hact in Hs1, Hpost, Hmsg. cbn [widget_update clicked] in Hs1, Hpost, Hmsg.
  destruct (sync_grid_frame s (edited_df i) Hwf Hdist)
    as (s1' & Hs1' & _ & Hg & Hcells & Hev & _).
  assert (s1' = s1) as -> by congruence.
  assert (evaluator_input s1 = evaluator_input s
          ∧ comments_area s1 = comments_area s) as [Hin Hca].
  { destruct (sync_grid_write s (edited_df i) Hwf) as (s1'' & Hs1'' & _ & (Hw & _)).
    assert (s1'' = s1) as -> by congruence. by rewrite Hw. }
  rewrite Hin, Hca in Hpost, Hmsg.
  rewrite submit_button_valid in Hpost, Hmsg by done. cbn [fst snd] in Hpost, Hmsg.
  exists sp. eexists. split; [done|]. rewrite Hpost. cbn [evaluations objects].
  rewrite Hev. split; [done|]. split; [done|]. split; [done|]. split; [done|].
  split; [|split; [by eauto|]].
  - intros idx tech criterion Hidx Hc. unfold selected. cbn [selections].
    rewrite get_cell_snapshot, new_grid_keeps, <- get_cell_snapshot.
    + by apply Hcells.
    + apply grid_ok_allocated, Hwf1.
  - destruct (results_of_store sp.1 (shown sp.2) Hres) as (scores & rdf & cdf & -> & _).
    { rewrite Hpost. cbn [evaluations]. by destruct (evaluations s1). }
    exists scores, rdf, cdf. rewrite Hpost. cbn [evaluations].
    rewrite Hev, length_app. cbn [length]. by rewrite Nat.add_1_r.
Qed.

Lemma accepted_click_stores_frame_witness :
  ∃ (sp : session_state * page) e,
    script_run after_alice (interact ClickSubmit other_frame) = Some sp
    ∧ evaluations sp.1 = evaluations after_alice ++ [e]
    ∧ evaluator_name e = strip (evaluator_input after_alice)
    ∧ comments e = strip (comments_area after_alice)
    ∧ timestamp e = isoformat_seconds (now (interact ClickSubmit other_frame))
    ∧ (∀ idx tech criterion,
         TECHNOLOGIES !! idx = Some tech → criterion ∈ CRITERIA →
         selected (objects sp.1) e tech criterion
         = Some (edited_df (interact ClickSubmit other_frame) idx criterion))
    ∧ (∃ msg, message sp.2 = Some (st_success msg))
    ∧ ∃ scores results_df csv_df,
        shown sp.2
        = st_results scores
            (S (length (evaluations after_alice)), length CRITERIA,
             length TECHNOLOGIES)
            results_df csv_df.
Proof.
  apply (accepted_click_stores_frame after_alice (interact ClickSubmit other_frame)).
  - apply (bool_decide_unpack _). vm_compute. exact I.
  - apply (bool_decide_unpack _). vm_compute. exact I.
  - reflexivity.
  - vm_compute. discriminate.
Defined.

(** The count shown as "Total Evaluators" is the number of accepted
    submissions of the session, not of distinct evaluators: after any
    session the store holds one record per accepted click, and the results
    section shows the "no data" message exactly when there was none. *)
Theorem total_evaluators_counts_submissions (tr : list interaction) :
  ∃ s : session_state,
    run_trace initial_state tr = Some s
    ∧ length (evaluations s) = accepted_count [] tr
    ∧ evaluator_name <$> evaluations s = submitted_names [] tr
    ∧ (accepted_count [] tr = 0 →
       ∃ msg, results_section s = Some (st_info msg))
    ∧ (accepted_count [] tr ≠ 0 →
       ∃ scores results_df csv_df,
         results_section s
         = Some (st_results scores
                   (accepted_count [] tr, length CRITERIA, length TECHNOLOGIES)
                   results_df csv_df)).
Proof.
  destruct (run_trace_spec initial_state tr wf_initial)
    as (s & new & Hrun & Hwf & Hev & Hnames & _).
  change (evaluations initial_state) with (@nil evaluation) in Hev.
  change (evaluator_input initial_state) with (@nil N) in Hnames.
  simpl in Hev. subst new.
  assert (length (evaluations s) = accepted_count [] tr) as Hlen.
  { unfold accepted_count. by rewrite <- Hnames, length_fmap. }
  exists s. split; [done|]. split; [done|]. split; [done|]. rewrite <- Hlen.
  split.
  - intros Hz%nil_length_inv. unfold results_section. rewrite Hz. eauto.
  - intros Hnz. destruct (results_section_total s) as [r Hr]; [apply Hwf|].
    destruct (results_of_store s r Hr) as (scores & rdf & cdf & -> & _).
    { by intros Hnil; rewrite Hnil in Hnz. }
    eauto.
Qed.

Example same_name_counts_twice :
  accepted_count [] (alice_session ++ [interact ClickSubmit (λ _ _, false)]) = 2.
Proof. reflexivity. Qed.

(** *** Scores *)

Lemma marks_all h (evals : list evaluation) tech criterion :
  marks h evals tech criterion = length evals
  ↔ ∀ e, e ∈ evals → selected h e tech criterion = Some true.
Proof.
  unfold marks. induction evals as [|e evals IH].
  { split; [|done]. intros _ e He. by apply elem_of_nil in He. }
  rewrite filter_cons. pose proof (length_filter
    (λ e, selected h e tech criterion = Some true) evals) as Hle.
  case_decide as He; cbn [length].
  - split.
    + intros [= Hlen] e' [->|He']%elem_of_cons; [done|]. by apply IH.
    + intros Hall. f_equal. apply IH. intros e' He'. apply Hall. by right.
  - split; [lia|]. intros Hall. exfalso. apply He, Hall. left.
Qed.

Lemma marks_positive h (evals : list evaluation) tech criterion :
  0 < marks h evals tech criterion
  ↔ ∃ e, e ∈ evals ∧ selected h e tech criterion = Some true.
Proof.
  unfold marks. induction evals as [|e evals IH].
  { split; [simpl; lia|]. intros (e & He & _). by apply elem_of_nil in He. }
  rewrite filter_cons. case_decide as He; cbn [length].
  - split; [|lia]. intros _. exists e. split; [left|done].
  - rewrite IH. split.
    + intros (e' & He' & Hsel). exists e'. split; [by right|done].
    + intros (e' & [->|He']%elem_of_cons & Hsel); [done|]. eauto.
Qed.

Lemma pct_of_full h (evals : list evaluation) tech criterion :
  evals ≠ [] →
  (pct_of h evals tech criterion == 100)%Q
  ↔ marks h evals tech criterion = length evals.
Proof.
  intros Hne. unfold pct_of. generalize (marks h evals tech criterion). intros k.
  destruct (length evals) as [|n] eqn:Hlen; [by destruct evals|].
  unfold Qeq, Qdiv, Qmult, Qinv. simpl. lia.
Qed.

Lemma pct_of_positive h (evals : list evaluation) tech criterion :
  evals ≠ [] →
  (0 < pct_of h evals tech criterion)%Q ↔ 0 < marks h evals tech criterion.
Proof.
  intros Hne. unfold pct_of. generalize (marks h evals tech criterion). intros k.
  destruct (length evals) as [|n] eqn:Hlen; [by destruct evals|].
  unfold Qlt, Qdiv, Qmult, Qinv. simpl. lia.
Qed.

Lemma pct_of_zero h (evals : list evaluation) tech criterion :
  evals ≠ [] →
  (pct_of h evals tech criterion == 0)%Q ↔ marks h evals tech criterion = 0.
Proof.
  intros Hne. unfold pct_of. generalize (marks h evals tech criterion). intros k.
  destruct (length evals) as [|n] eqn:Hlen; [by destruct evals|].
  unfold Qeq, Qdiv, Qmult, Qinv. simpl. lia.
Qed.

(** What the extreme scores mean.  With a store that is not empty, the
    score of a (technology, criterion) pair is 100 exactly when every record
    marks the pair, 0 exactly when no record does, and above 0 exactly when
    some record does. *)
Theorem score_extremes s tech (j : nat) criterion :
  wf s → evaluations s ≠ [] →
  tech ∈ TECHNOLOGIES → CRITERIA !! j = Some criterion →
  ∃ scores ps p,
    tech_scores s = Some scores ∧ scores !! tech = Some ps ∧ ps !! j = Some p
    ∧ ((p == 100)%Q
       ↔ ∀ e, e ∈ evaluations s → selected (objects s) e tech criterion = Some true)
    ∧ ((p == 0)%Q
       ↔ ∀ e, e ∈ evaluations s → selected (objects s) e tech criterion = Some false)
    ∧ ((0 < p)%Q
       ↔ ∃ e, e ∈ evaluations s ∧ selected (objects s) e tech criterion = Some true).
Proof.
  intros (_ & Hr & _) Hne Ht Hj.
  destruct (tech_scores_spec s Hr Hne) as (scores & Hscores & Hlists).
  exists scores. eexists. eexists. split; [done|]. split; [by apply Hlists|].
  split; [by rewrite list_lookup_fmap, Hj|].
  rewrite pct_of_full, pct_of_zero, pct_of_positive by done.
  rewrite marks_all, marks_positive. split; [done|]. split; [|done].
  assert (criterion ∈ CRITERIA) as Hc by by eapply list_elem_of_lookup_2.
  split.
  - intros Hz e He.
    destruct (records_ok_selected _ _ e tech criterion Hr He Ht Hc) as [[] Hb];
      [|done].
    exfalso. assert (0 < marks (objects s) (evaluations s) tech criterion) as Hpos.
    { apply marks_positive. eauto. }
    lia.
  - intros Hall.
    destruct (decide (marks (objects s) (evaluations s) tech criterion = 0))
      as [|Hnz]; [done|].
    assert (0 < marks (objects s) (evaluations s) tech criterion) as Hpos by lia.
    apply marks_positive in Hpos as (e & He & Hsel).
    rewrite (Hall e He) in Hsel. done.
Qed.

Lemma score_extremes_witness :
  ∃ scores ps p,
    tech_scores after_alice = Some scores
    ∧ scores !! lit "Tech A" = Some ps ∧ ps !! 0 = Some p
    ∧ ((p == 100)%Q
       ↔ ∀ e, e ∈ evaluations after_alice →
              selected (objects after_alice) e (lit "Tech A") (lit "Criteria 1")
              = Some true)
    ∧ ((p == 0)%Q
       ↔ ∀ e, e ∈ evaluations after_alice →
              selected (objects after_alice) e (lit "Tech A") (lit "Criteria 1")
              = Some false)
    ∧ ((0 < p)%Q
       ↔ ∃ e, e ∈ evaluations after_alice
              ∧ selected (objects after_alice) e (lit "Tech A") (lit "Criteria 1")
                = Some true).
Proof.
  apply (score_extremes after_alice (lit "Tech A") 0 (lit "Criteria 1")).
  - apply (bool_decide_unpack _). vm_compute. exact I.
  - vm_compute. discriminate.
  - apply (bool_decide_unpack _). vm_compute. exact I.
  - reflexivity.
Defined.

Lemma count_selected_perm h (evals evals' : list evaluation) tech criterion :
  evals ≡ₚ evals' →
  count_selected h evals tech criterion = count_selected h evals' tech criterion.
Proof.
  induction 1 as [|e l1 l2 _ IH|e1 e2 l|l1 l2 l3 _ IH1 _ IH2]; cbn [count_selected].
  - done.
  - by rewrite IH.
  - destruct (selected h e1 tech criterion) as [[]|],
             (selected h e2 tech criterion) as [[]|],
             (count_selected h l tech criterion); done.
  - by rewrite IH1.
Qed.

Lemma for_each_ext {A S : Type} (body1 body2 : S → A → option S)
    (xs : list A) (a : S) :
  (∀ (b : S) x, x ∈ xs → body1 b x = body2 b x) →
  for_each body1 xs a = for_each body2 xs a.
Proof.
  revert a. induction xs as [|x xs IH]; intros a Hext; cbn [for_each]; [done|].
  rewrite Hext by left. destruct (body2 a x) as [b|]; [|done].
  cbn [mbind option_bind]. apply IH. intros b' y Hy. apply Hext. by right.
Qed.

(** The scores do not depend on the order of the store: the aggregation of
    lines 162-173 over any rearrangement of the stored records gives the
    same result. *)
Theorem scores_ignore_order s (evals' : list evaluation) :
  evaluations s ≡ₚ evals' →
  scores_loop TECHNOLOGIES CRITERIA (objects s) evals' = tech_scores s.
Proof.
  intros Hperm. unfold tech_scores, scores_loop.
  apply for_each_ext. intros m criterion _.
  apply for_each_ext. intros m' tech _.
  by rewrite (count_selected_perm _ _ _ _ _ Hperm), (Permutation_length Hperm).
Qed.

Lemma scores_ignore_order_witness :
  scores_loop TECHNOLOGIES CRITERIA (objects two_records)
    (reverse (evaluations two_records))
  = tech_scores two_records.
Proof.
  apply (scores_ignore_order two_records (reverse (evaluations two_records))).
  symmetry. apply reverse_Permutation.
Defined.

(** The summary agrees with the chart: a technology is listed among the
    Selected Technologies of some stored record exactly when one of its
    scores is above zero. *)
Theorem selected_iff_positive_score s tech :
  wf s → evaluations s ≠ [] → tech ∈ TECHNOLOGIES →
  ∃ scores ps,
    tech_scores s = Some scores ∧ scores !! tech = Some ps
    ∧ ((∃ e, e ∈ evaluations s ∧ tech ∈ marked_techs (objects s) e)
       ↔ Exists (λ p, 0 < p)%Q ps).
Proof.
  intros (_ & Hr & _) Hne Ht.
  destruct (tech_scores_spec s Hr Hne) as (scores & Hscores & Hlists).
  exists scores. eexists. split; [done|]. split; [by apply Hlists|].
  rewrite Exists_exists. split.
  - intros (e & He & (_ & c & Hc & Hsel)%marked_techs_spec).
    exists (pct_of (objects s) (evaluations s) tech c). split.
    + apply list_elem_of_fmap. by exists c.
    + apply pct_of_positive; [done|]. apply marks_positive. eauto.
  - intros (p & (c & -> & Hc)%list_elem_of_fmap & Hpos).
    apply pct_of_positive in Hpos; [|done].
    apply marks_positive in Hpos as (e & He & Hsel).
    exists e. split; [done|]. apply marked_techs_spec. eauto.
Qed.

Lemma selected_iff_positive_score_witness :
  ∃ scores ps,
    tech_scores after_alice = Some scores ∧ scores !! lit "Tech A" = Some ps
    ∧ ((∃ e, e ∈ evaluations after_alice
             ∧ lit "Tech A" ∈ marked_techs (objects after_alice) e)
       ↔ Exists (λ p, 0 < p)%Q ps).
Proof.
  apply (selected_iff_positive_score after_alice (lit "Tech A")).
  - apply (bool_decide_unpack _). vm_compute. exact I.
  - vm_compute. discriminate.
  - apply (bool_decide_unpack _). vm_compute. exact I.
Defined.

(** *** The chart *)

Lemma pct_of_range h (evals : list evaluation) tech criterion :
  evals ≠ [] →
  (0 <= pct_of h evals tech criterion ∧ pct_of h evals tech criterion <= 100)%Q.
Proof.
  intros Hne.
  apply (percentage_range (marks h evals tech criterion) (length evals));
    [apply marks_le|].
  unfold pct_of, percentage. by destruct evals.
Qed.

Lemma colors_cover tech :
  tech ∈ TECHNOLOGIES →
  getitem colors tech = Some (default (lit "#999") (getitem colors tech))
  ∧ default (lit "#999") (getitem colors tech) ≠ lit "#999".
Proof.
  intros Ht. unfold TECHNOLOGIES in Ht.
  repeat (apply elem_of_cons in Ht as [->|Ht];
          [split; [reflexivity|vm_compute; discriminate]|]).
  by apply elem_of_nil in Ht.
Qed.

(** Lines 188-196: the chart has one series per technology, in the fixed
    order and under the technology's name; each series has the criteria as
    its axes and one value per axis, the technology's scores, all within the
    radial range from 0 to 100; every series has its own colour from the
    table, never the grey fallback. *)
Theorem chart_series s (scores : gmap pystr (list Q)) :
  wf s → evaluations s ≠ [] → tech_scores s = Some scores →
  ∃ traces,
    radar_traces scores = Some traces
    ∧ trace_name <$> traces = TECHNOLOGIES
    ∧ NoDup (trace_color <$> traces)
    ∧ ∀ t, t ∈ traces →
        trace_theta t = CRITERIA
        ∧ length (trace_r t) = length (trace_theta t)
        ∧ scores !! trace_name t = Some (trace_r t)
        ∧ Forall (λ p, 0 <= p ∧ p <= 100)%Q (trace_r t)
        ∧ getitem colors (trace_name t) = Some (trace_color t)
        ∧ trace_color t ≠ lit "#999".
Proof.
  intros (_ & Hr & _) Hne Hscores.
  destruct (tech_scores_spec s Hr Hne) as (m & Hm & Hlists).
  assert (m = scores) as -> by congruence.
  exists ((λ tech, {| trace_r := pct_of (objects s) (evaluations s) tech <$> CRITERIA;
                      trace_theta := CRITERIA; trace_name := tech;
                      trace_color := default (lit "#999") (getitem colors tech) |})
            <$> TECHNOLOGIES).
  split; [|split; [|split]].
  - unfold radar_traces.
    rewrite (for_each_extend _ (λ tech,
      [{| trace_r := pct_of (objects s) (evaluations s) tech <$> CRITERIA;
          trace_theta := CRITERIA; trace_name := tech;
          trace_color := default (lit "#999") (getitem colors tech) |}])).
    + reflexivity.
    + intros tech acc Ht. by rewrite Hlists.
  - reflexivity.
  - apply (bool_decide_unpack _). by vm_compute.
  - intros t (tech & -> & Ht)%list_elem_of_fmap.
    cbn [trace_r trace_theta trace_name trace_color].
    split; [done|]. split; [by rewrite length_fmap|].
    split; [by apply Hlists|]. split.
    + apply Forall_fmap, Forall_forall. intros c _. by apply pct_of_range.
    + by apply colors_cover.
Qed.

Lemma chart_series_witness :
  ∃ traces,
    radar_traces (default ∅ (tech_scores after_alice)) = Some traces
    ∧ trace_name <$> traces = TECHNOLOGIES
    ∧ NoDup (trace_color <$> traces)
    ∧ ∀ t, t ∈ traces →
        trace_theta t = CRITERIA
        ∧ length (trace_r t) = length (trace_theta t)
        ∧ default ∅ (tech_scores after_alice) !! trace_name t = Some (trace_r t)
        ∧ Forall (λ p, 0 <= p ∧ p <= 100)%Q (trace_r t)
        ∧ getitem colors (trace_name t) = Some (trace_color t)
        ∧ trace_color t ≠ lit "#999".
Proof.
  apply (chart_series after_alice (default ∅ (tech_scores after_alice))).
  - apply (bool_decide_unpack _). vm_compute. exact I.
  - vm_compute. discriminate.
  - vm_compute. reflexivity.
Defined.

(** A chart cannot be drawn from scores that lack a technology. *)
Lemma radar_traces_missing (scores : gmap pystr (list Q)) tech :
  tech ∈ TECHNOLOGIES → scores !! tech = None → radar_traces scores = None.
Proof.
  intros Ht Hnone. unfold radar_traces.
  assert (∀ (ts : list pystr) (acc : list trace), tech ∈ ts →
    for_each (λ traces tech0,
        r ← scores !! tech0;
        Some (traces ++ [{| trace_r := r; trace_theta := CRITERIA;
                            trace_name := tech0;
                            trace_color := default (lit "#999")
                                             (getitem colors tech0) |}]))
      ts acc = None) as Hgen; [|by apply Hgen].
  clear Ht. induction ts as [|t ts IH]; intros acc Ht;
    [by apply elem_of_nil in Ht|].
  cbn [for_each]. destruct (decide (t = tech)) as [->|Hne].
  { by rewrite Hnone. }
  destruct (scores !! t); [|done]. cbn [mbind option_bind].
  apply IH. by apply elem_of_cons in Ht as [->|?].
Qed.

(** *** The detailed export against the scores *)

Lemma detail_technology h e t :
  dict_get (detail_of h e t) (lit "Technology") = Some t.
Proof. reflexivity. Qed.

Lemma detail_criterion h e t criterion :
  criterion ∈ CRITERIA →
  dict_get (detail_of h e t) criterion = Some (mark_cell h e t criterion).
Proof.
  intros Hc. unfold CRITERIA in Hc.
  repeat (apply elem_of_cons in Hc as [->|Hc]; [reflexivity|]).
  by apply elem_of_nil in Hc.
Qed.

Lemma detail_checked h e t tech criterion :
  criterion ∈ CRITERIA →
  dict_get (detail_of h e t) (lit "Technology") = Some tech
  ∧ dict_get (detail_of h e t) criterion = Some check_mark
  ↔ t = tech ∧ selected h e tech criterion = Some true.
Proof.
  intros Hc. rewrite detail_technology, detail_criterion by done.
  unfold mark_cell. split.
  - intros [[= ->] Hmark]. split; [done|].
    case_bool_decide; [done|]. by vm_compute in Hmark.
  - intros [-> Hsel]. split; [done|]. by rewrite bool_decide_eq_true_2.
Qed.

Lemma checked_rows_record h e tech criterion (ts : list pystr) :
  criterion ∈ CRITERIA →
  length (checked_rows (detail_of h e <$> ts) tech criterion)
  = length (filter (λ t, t = tech ∧ selected h e tech criterion = Some true) ts).
Proof.
  intros Hc. unfold checked_rows. induction ts as [|t ts IH]; [done|].
  rewrite fmap_cons, !filter_cons.
  pose proof (detail_checked h e t tech criterion Hc) as Hiff.
  repeat case_decide; cbn [length]; rewrite ?IH; try done; tauto.
Qed.

Lemma length_filter_absent {A : Type} `{EqDecision A} (xs : list A) (x : A)
    (Q : Prop) `{!Decision Q} :
  x ∉ xs → length (filter (λ y, y = x ∧ Q) xs) = 0.
Proof.
  induction xs as [|y xs IH]; intros Hx; [done|].
  apply not_elem_of_cons in Hx as [Hne Hx].
  rewrite filter_cons, decide_False by (intros [? _]; congruence).
  by apply IH.
Qed.

Lemma length_filter_unique {A : Type} `{EqDecision A} (xs : list A) (x : A)
    (Q : Prop) `{!Decision Q} :
  NoDup xs → x ∈ xs →
  length (filter (λ y, y = x ∧ Q) xs) = if decide Q then 1 else 0.
Proof.
  intros Hnd Hx. induction Hnd as [|y xs Hy Hnd IH]; [by apply elem_of_nil in Hx|].
  rewrite filter_cons. destruct (decide (x = y)) as [->|Hne].
  - destruct (decide Q) as [HQ|HQ].
    + rewrite decide_True by done. cbn [length].
      by rewrite length_filter_absent.
    + rewrite decide_False by tauto. by apply length_filter_absent.
  - rewrite decide_False by (intros [? _]; congruence).
    apply IH. by apply elem_of_cons in Hx as [?|?].
Qed.

Lemma checked_rows_all h (evals : list evaluation) tech criterion :
  tech ∈ TECHNOLOGIES → criterion ∈ CRITERIA →
  length (checked_rows
            (mjoin ((λ e, detail_of h e <$> TECHNOLOGIES) <$> evals))
            tech criterion)
  = marks h evals tech criterion.
Proof.
  intros Ht Hc. unfold marks. induction evals as [|e evals IH]; [done|].
  rewrite fmap_cons. change (mjoin (?x :: ?xs)) with (x ++ mjoin xs).
  unfold checked_rows in *. rewrite filter_app, length_app, IH.
  fold (checked_rows (detail_of h e <$> TECHNOLOGIES) tech criterion).
  rewrite checked_rows_record by done.
  rewrite (length_filter_unique TECHNOLOGIES tech) by
    (done || apply NoDup_TECHNOLOGIES).
  rewrite filter_cons. by repeat case_decide.
Qed.

(** The detailed export carries what the chart counts: the number of its
    rows that belong to a technology and hold the check mark under a
    criterion is the number of records counted for that pair by the
    aggregation. *)
Theorem check_marks_match_counts s tech criterion :
  wf s → tech ∈ TECHNOLOGIES → criterion ∈ CRITERIA →
  ∃ rows,
    csv_rows s = Some rows
    ∧ count_selected (objects s) (evaluations s) tech criterion
      = Some (length (checked_rows rows tech criterion)).
Proof.
  intros (_ & Hr & _) Ht Hc. eexists. split; [by apply csv_rows_spec|].
  rewrite checked_rows_all by done. by apply count_selected_marks.
Qed.

Lemma check_marks_match_counts_witness :
  ∃ rows,
    csv_rows two_records = Some rows
    ∧ count_selected (objects two_records) (evaluations two_records)
        (lit "Tech B") (lit "Criteria 2")
      = Some (length (checked_rows rows (lit "Tech B") (lit "Criteria 2"))).
Proof.
  apply (check_marks_match_counts two_records (lit "Tech B") (lit "Criteria 2")).
  - apply (bool_decide_unpack _). vm_compute. exact I.
  - apply (bool_decide_unpack _). vm_compute. exact I.
  - apply (bool_decide_unpack _). vm_compute. exact I.
Defined.

(** *** Sessions *)

Lemma radar_traces_total (scores : gmap pystr (list Q)) :
  (∀ tech, tech ∈ TECHNOLOGIES → is_Some (scores !! tech)) →
  is_Some (radar_traces scores).
Proof.
  intros Hall. unfold radar_traces.
  rewrite (for_each_extend _ (λ tech,
    [{| trace_r := default [] (scores !! tech); trace_theta := CRITERIA;
        trace_name := tech;
        trace_color := default (lit "#999") (getitem colors tech) |}])).
  - done.
  - intros tech acc Ht. by destruct (Hall tech Ht) as [r ->].
Qed.

(** With an editor that returns a boolean in every cell, no run of a
    session raises.  From the first run on, whatever the user types, edits
    and clicks, every run returns; afterwards the live grid and every stored
    record have an entry for every (technology, criterion) pair, and the
    table and the results can be rendered.  On a non-empty store the scores
    are computed, on floats as on exact rationals, with a list for every
    technology, so the lookups [tech_scores[tech]] of line 190 find their
    keys and the chart gets its series. *)
Theorem boolean_frames_never_raise (tr : list interaction) :
  ∃ s : session_state,
    run_trace initial_state tr = Some s
    ∧ (∀ tech criterion, tech ∈ TECHNOLOGIES → criterion ∈ CRITERIA →
         is_Some (get_cell (objects s) (current_selections s) tech criterion)
         ∧ ∀ e, e ∈ evaluations s →
                is_Some (selected (objects s) e tech criterion))
    ∧ is_Some (table_data s)
    ∧ is_Some (results_section s)
    ∧ (evaluations s ≠ [] →
         (∃ scores : gmap pystr (list pyfloat),
             tech_scores_binary64 s = Some scores
             ∧ ∀ tech, tech ∈ TECHNOLOGIES → is_Some (scores !! tech))
         ∧ ∃ scores : gmap pystr (list Q),
             tech_scores s = Some scores ∧ is_Some (radar_traces scores))
    ∧ ∀ i, is_Some (script_run s i).
Proof.
  destruct (run_trace_spec initial_state tr wf_initial)
    as (s & new & Hrun & Hwf & _).
  exists s. split; [done|]. split; [|split; [|split; [|split]]].
  - intros tech criterion Ht Hc. split; [by apply grid_ok_cell; [apply Hwf|..]|].
    intros e He. by apply (records_ok_selected _ (evaluations s)); [apply Hwf|..].
  - rewrite table_data_rows by apply Hwf. done.
  - apply results_section_total, Hwf.
  - intros Hne. destruct Hwf as (_ & Hr & _). split.
    + destruct (tech_scores_binary64_spec s Hr Hne) as (m & Hm & Hlists).
      exists m. split; [done|]. intros tech Ht. rewrite Hlists by done. eauto.
    + destruct (tech_scores_spec s Hr Hne) as (m & Hm & Hlists).
      exists m. split; [done|]. apply radar_traces_total.
      intros tech Ht. rewrite Hlists by done. eauto.
  - intros i. destruct (script_run_spec s i Hwf) as (sp & _ & -> & _). done.
Qed.
